(** * The asset-event pipeline of the engine: scheduler, dispatcher, resolver

    A shallow embedding of
    - [scheduler/scheduler.go]   (Schedule, Cancel, CancelAll, Shutdown, the
      state accounting, GetSessionStats, reschedule, removeEventAndDeps,
      isProcessable, Process),
    - [dispatcher/dispatcher.go] (DispatchEvent, completedCallback,
      collectEvents),
    - [plugins/support/resolvers.go] (dnsQuery, PerformQuery, and the
      alterations [deletions] and [substitutions]),
    - [plugins/load.go]          (LoadAndStartPlugins),
    together with the properties of the specification that concern them and
    further properties of the code (X1 and following).

    Conventions.
    - A Go [int] is a 64-bit two's complement integer: it is a [Z] and every
      arithmetic operation of the source is followed by [GoInt.wrap].
    - A [uuid.UUID] is a 128-bit value, here an [N]; the nil UUID is [0].
    - A [time.Time] is a number of nanoseconds ([Z]); a [time.Duration] is an
      int64 number of nanoseconds.
    - The scheduler's [map[uuid.UUID]*types.Event] is a [gmap N Event].  The
      queue holds copies ([types.Event] values), the map holds the pointer to
      the copy made by [schedule]; the two are distinct objects in the source
      and distinct values here.
    - Every function that takes the scheduler's mutex is modelled as one
      atomic state transformer.
    - Loggers, and the back-references from an event to its session and its
      dispatcher, have no effect on what is modelled and are left out. *)

From Stdlib Require Import ZArith Lia Ascii String.
From stdpp Require Import gmap strings list fin_maps.

Open Scope Z_scope.

(** ** Go's [int] *)

Module GoInt.

Definition min_int : Z := - 2 ^ 63.
Definition max_int : Z := 2 ^ 63 - 1.

(** Two's complement wrap-around of a 64-bit signed integer. *)
Definition wrap (z : Z) : Z := (z + 2 ^ 63) mod 2 ^ 64 - 2 ^ 63.

Definition in_range (z : Z) : Prop := min_int <= z <= max_int.

Definition add (a b : Z) : Z := wrap (a + b).
Definition sub (a b : Z) : Z := wrap (a - b).
Definition mul (a b : Z) : Z := wrap (a * b).
Definition incr (a : Z) : Z := add a 1.
Definition decr (a : Z) : Z := sub a 1.

(** Equality modulo 2^64: what two counters that may have wrapped share. *)
Definition eqm (a b : Z) : Prop := a mod 2 ^ 64 = b mod 2 ^ 64.

End GoInt.

(** ** Events ([types.Event] as the scheduler uses it) *)

Abbreviation UUID := N (only parsing).

(** [zeroUUID], parsed from "00000000-0000-0000-0000-000000000000". *)
Definition zeroUUID : UUID := 0%N.

(** Modelled from the spec: the [types.EventState] enumeration (its
    declaration is not part of the sources); section 3 lists its values. *)
Inductive EventState :=
| EventStateWaiting
| EventStateProcessable
| EventStateInProcess
| EventStateDone
| EventStateCancelled
| EventStateError.

#[global] Instance EventState_eq_dec : EqDecision EventState.
Proof. solve_decision. Defined.

(** Modelled from the spec: the [types.EventType] enumeration. *)
Inductive EventType :=
| EventTypeUnknown
| EventTypeAsset
| EventTypeSystem
| EventTypeCustom
| EventTypeLog.

(** An asset of the open asset model: its type tag and its canonical key. *)
Record OAMAsset := mkOAMAsset {
  AssetType : string;
  AssetKey : string
}.

#[global] Instance OAMAsset_eq_dec : EqDecision OAMAsset.
Proof. solve_decision. Defined.

(** [Event.Data] is an [interface{}]: either a [*types.AssetData] or
    anything else. *)
Inductive EventData :=
| DataAsset (a : OAMAsset)
| DataOther.

(** [Event.Action] is a Go closure.  The closures that occur in the sources
    and their tests either call [SetEventState] on their event and return
    [nil], or return an error, or return [nil] at once. *)
Inductive ActionFn :=
| ActSetState (st : EventState)
| ActFail
| ActNop.

(** The back-references of the source ([Session], [Sched]) carry no data of
    their own; [Sched] records whether the reference to the scheduler is
    set, which [SetEventState] tests. *)
Record Event := mkEvent {
  EvUUID : UUID;
  SessionID : UUID;
  Name : string;
  Timestamp : Z;
  Type_ : EventType;
  State : EventState;
  DependOn : list UUID;
  Action : option ActionFn;
  Data : EventData;
  Priority : Z;
  RepeatEvery : Z;
  RepeatTimes : Z;
  Timeout : Z;
  Sched : bool
}.

Definition set_UUID (e : Event) (u : UUID) : Event :=
  mkEvent u (SessionID e) (Name e) (Timestamp e) (Type_ e) (State e)
    (DependOn e) (Action e) (Data e) (Priority e) (RepeatEvery e)
    (RepeatTimes e) (Timeout e) (Sched e).

Definition set_Timestamp (e : Event) (t : Z) : Event :=
  mkEvent (EvUUID e) (SessionID e) (Name e) t (Type_ e) (State e)
    (DependOn e) (Action e) (Data e) (Priority e) (RepeatEvery e)
    (RepeatTimes e) (Timeout e) (Sched e).

Definition set_State (e : Event) (st : EventState) : Event :=
  mkEvent (EvUUID e) (SessionID e) (Name e) (Timestamp e) (Type_ e) st
    (DependOn e) (Action e) (Data e) (Priority e) (RepeatEvery e)
    (RepeatTimes e) (Timeout e) (Sched e).

Definition set_Action (e : Event) (a : option ActionFn) : Event :=
  mkEvent (EvUUID e) (SessionID e) (Name e) (Timestamp e) (Type_ e) (State e)
    (DependOn e) a (Data e) (Priority e) (RepeatEvery e)
    (RepeatTimes e) (Timeout e) (Sched e).

Definition set_Priority (e : Event) (p : Z) : Event :=
  mkEvent (EvUUID e) (SessionID e) (Name e) (Timestamp e) (Type_ e) (State e)
    (DependOn e) (Action e) (Data e) p (RepeatEvery e)
    (RepeatTimes e) (Timeout e) (Sched e).

Definition set_RepeatEvery (e : Event) (r : Z) : Event :=
  mkEvent (EvUUID e) (SessionID e) (Name e) (Timestamp e) (Type_ e) (State e)
    (DependOn e) (Action e) (Data e) (Priority e) r
    (RepeatTimes e) (Timeout e) (Sched e).

Definition set_RepeatTimes (e : Event) (r : Z) : Event :=
  mkEvent (EvUUID e) (SessionID e) (Name e) (Timestamp e) (Type_ e) (State e)
    (DependOn e) (Action e) (Data e) (Priority e) (RepeatEvery e)
    r (Timeout e) (Sched e).

Definition set_Timeout (e : Event) (t : Z) : Event :=
  mkEvent (EvUUID e) (SessionID e) (Name e) (Timestamp e) (Type_ e) (State e)
    (DependOn e) (Action e) (Data e) (Priority e) (RepeatEvery e)
    (RepeatTimes e) t (Sched e).

Definition set_Sched (e : Event) (b : bool) : Event :=
  mkEvent (EvUUID e) (SessionID e) (Name e) (Timestamp e) (Type_ e) (State e)
    (DependOn e) (Action e) (Data e) (Priority e) (RepeatEvery e)
    (RepeatTimes e) (Timeout e) b.

(** ** Sessions and their deduplication cache *)

(** A stored asset ([dbt.Asset]): the database identifier and the asset. *)
Record DbAsset := mkDbAsset {
  DbID : string;
  DbAssetOf : OAMAsset
}.

(** Per-session counters ([et.SessionStats]). *)
Record SessionStats := mkSessionStats {
  WorkItemsCompleted : Z;
  WorkItemsTotal : Z
}.

(** Modelled from the spec: the session cache (its implementation is not
  part of the sources).  Section 4.1: [GetAsset(key)] is a lookup under the
  asset's canonical key, [SetAsset] an idempotent insert, and
  [SetAsset(a); GetAsset(a.Key)] returns [(a, hit = true)]. *)
Module Cache.

Definition t := gmap string DbAsset.

Definition empty : t := ∅.

(** [GetAsset(a)] returns [(p, hit)]; [p] is [nil] exactly on a miss. *)
Definition GetAsset (c : gmap string DbAsset) (a : OAMAsset)
  : option DbAsset * bool :=
  match c !! AssetKey a with
  | Some p => (Some p, true)
  | None => (None, false)
  end.

Definition SetAsset (c : gmap string DbAsset) (p : DbAsset)
  : gmap string DbAsset :=
  match c !! AssetKey (DbAssetOf p) with
  | Some _ => c
  | None => <[AssetKey (DbAssetOf p) := p]> c
  end.

(** The test [p != nil && hit] of [Schedule] and [DispatchEvent]. *)
Definition seen (c : gmap string DbAsset) (a : OAMAsset) : bool :=
  match GetAsset c a with
  | (Some _, true) => true
  | _ => false
  end.

End Cache.

Record Session := mkSession {
  SessCache : gmap string DbAsset;
  SessStats : SessionStats
}.

(** ** The scheduler *)

(** Modelled from the spec: the states of the scheduler (the declaration is
    not part of the sources); [Process] tests for Paused and Shutdown. *)
Inductive SchedulerState :=
| SchedulerStateRunning
| SchedulerStatePaused
| SchedulerStateShutdown.

(** The counters, as [NewScheduler] initialises them. *)
Record schedulerStats := mkStats {
  TotalEventsReceived : Z;
  TotalEventsDone : Z;
  TotalEventsCancelled : Z;
  TotalEventsInProcess : Z;
  TotalEventsError : Z;
  TotalEventsWaiting : Z;
  TotalEventsProcessable : Z;
  TotalEventsSystem : Z
}.

(** The fields of the scheduler that the functions below read or write. *)
Record Scheduler := mkScheduler {
  q : list Event;
  events : gmap N Event;
  stats : schedulerStats;
  CurrentRunningActions : Z;
  state : SchedulerState;
  mgr : gmap N Session
}.

(** The configuration of [Process], with the fields that the tests of the
    scheduler set. *)
Record ProcessConfig := mkProcessConfig {
  ExitWhenEmpty : bool;
  CheckEvent : bool;
  ExecuteAction : bool;
  ReturnIfFound : bool;
  DebugLevel : Z;
  ActionTimeout : Z;
  MaxConcurrentActions : Z
}.

Definition set_q (s : Scheduler) (x : list Event) : Scheduler :=
  mkScheduler x (events s) (stats s) (CurrentRunningActions s) (state s) (mgr s).

Definition set_events (s : Scheduler) (x : gmap N Event) : Scheduler :=
  mkScheduler (q s) x (stats s) (CurrentRunningActions s) (state s) (mgr s).

Definition set_stats (s : Scheduler) (x : schedulerStats) : Scheduler :=
  mkScheduler (q s) (events s) x (CurrentRunningActions s) (state s) (mgr s).

Definition set_CurrentRunningActions (s : Scheduler) (x : Z) : Scheduler :=
  mkScheduler (q s) (events s) (stats s) x (state s) (mgr s).

Definition set_state (s : Scheduler) (x : SchedulerState) : Scheduler :=
  mkScheduler (q s) (events s) (stats s) (CurrentRunningActions s) x (mgr s).

Definition NewScheduler (m : gmap N Session) : Scheduler :=
  mkScheduler [] ∅ (mkStats 0 0 0 0 0 0 0 0) 0 SchedulerStateRunning m.

(** *** The priority queue *)

(** Modelled from the spec: the queue, which comes from an external
    package.  The comment above [s.q.Next()] in [Process] and section 4.5
    fix what the scheduler expects of it: [Next] removes the element with
    the smallest priority value, the first appended among equals.  The
    properties below use it on queues of one element or of elements of
    equal priority. *)
Definition qAppendPriority (l : list Event) (e : Event) : list Event := l ++ [e].

Fixpoint qMinPriority (p : Z) (l : list Event) : Z :=
  match l with
  | [] => p
  | e :: l' => qMinPriority (Z.min p (Priority e)) l'
  end.

Fixpoint qRemoveFirst (p : Z) (l : list Event) : option (Event * list Event) :=
  match l with
  | [] => None
  | e :: l' =>
      if Priority e =? p then Some (e, l')
      else match qRemoveFirst p l' with
           | Some (x, r) => Some (x, e :: r)
           | None => None
           end
  end.

Definition qNext (l : list Event) : option (Event * list Event) :=
  match l with
  | [] => None
  | e :: l' => qRemoveFirst (qMinPriority (Priority e) l') l
  end.

(** *** setupEvent

    [now] is the value of [time.Now()], [fresh] the value of [uuid.New()]
    (a random UUID is never the nil UUID). *)
Definition setupEvent (now : Z) (fresh : positive) (e : Event) : Event :=
  let e := if decide (EvUUID e = zeroUUID) then set_UUID e (N.pos fresh) else e in
  let e := set_Timestamp e now in
  let e := if RepeatTimes e <? -1 then set_RepeatTimes e (-1) else e in
  if RepeatEvery e <? 0 then set_RepeatEvery e 0 else e.

(** *** schedule (private)

    Copies the event, gives the copy a default action when it has none,
    stores the copy under its UUID and appends it to the queue.  It never
    returns an error. *)
Definition schedule (s : Scheduler) (e : Event) : Scheduler :=
  let eCopy := set_Sched e true in
  let eCopy :=
    match Action eCopy with
    | None => set_Action eCopy (Some (ActSetState EventStateDone))
    | Some _ => eCopy
    end in
  let s := set_events s (<[EvUUID e := eCopy]> (delete (EvUUID e) (events s))) in
  set_q s (qAppendPriority (q s) eCopy).

(** *** Schedule (public)

    The loop over [e.DependOn]: it stops at the first dependency that is
    missing or not done, and lowers the priority below that of every done
    dependency met before. *)
Fixpoint scheduleDeps (evs : gmap N Event) (deps : list UUID) (e : Event)
  : Event :=
  match deps with
  | [] => e
  | dependUUID :: rest =>
      match evs !! dependUUID with
      | None => set_State e EventStateProcessable
      | Some event =>
          if decide (State event = EventStateDone) then
            scheduleDeps evs rest
              (if Priority event <=? Priority e
               then set_Priority e (GoInt.sub (Priority event) 1)
               else e)
          else set_State e EventStateProcessable
      end
  end.

Inductive ScheduleResult :=
| ScheduleOk (s : Scheduler) (e : Event)
| ScheduleError (msg : string)
| SchedulePanic.

Definition errNilEvent : string := "the event is nil".

Definition errScheduled : string := "this event has been scheduled previously".

(** [Schedule] mutates the event it is given; [ScheduleOk s e] carries the
    scheduler and the caller's event after the call.  That event is also the
    one handed to the worker started by [go processEvent(e)].  A session
    that the manager does not know is a nil pointer, and reading its cache
    panics. *)
Definition Schedule (now : Z) (fresh : positive) (s : Scheduler)
    (oe : option Event) : ScheduleResult :=
  match oe with
  | None => ScheduleError errNilEvent
  | Some e =>
      let session := mgr s !! SessionID e in
      let check :=
        match Data e with
        | DataAsset a =>
            match session with
            | None => None
            | Some ss => Some (Cache.seen (SessCache ss) a)
            end
        | DataOther => Some false
        end in
      match check with
      | None => SchedulePanic
      | Some true => ScheduleError errScheduled
      | Some false =>
          let e := setupEvent now fresh e in
          let e := set_State e EventStateWaiting in
          let e := scheduleDeps (events s) (DependOn e) e in
          let e := if Priority e <=? 0 then set_Priority e 1 else e in
          let e := set_Sched e true in
          let s := schedule s e in
          let s := set_stats s
            (let st := stats s in
             mkStats (GoInt.incr (TotalEventsReceived st)) (TotalEventsDone st)
               (TotalEventsCancelled st) (TotalEventsInProcess st)
               (TotalEventsError st) (TotalEventsWaiting st)
               (TotalEventsProcessable st) (TotalEventsSystem st)) in
          ScheduleOk s e
      end
  end.

(** *** State accounting *)

Definition statsIncr (st : EventState) (x : schedulerStats) : schedulerStats :=
  match st with
  | EventStateCancelled =>
      mkStats (TotalEventsReceived x) (TotalEventsDone x)
        (GoInt.incr (TotalEventsCancelled x)) (TotalEventsInProcess x)
        (TotalEventsError x) (TotalEventsWaiting x)
        (TotalEventsProcessable x) (TotalEventsSystem x)
  | EventStateDone =>
      mkStats (TotalEventsReceived x) (GoInt.incr (TotalEventsDone x))
        (TotalEventsCancelled x) (TotalEventsInProcess x)
        (TotalEventsError x) (TotalEventsWaiting x)
        (TotalEventsProcessable x) (TotalEventsSystem x)
  | EventStateError =>
      mkStats (TotalEventsReceived x) (TotalEventsDone x)
        (TotalEventsCancelled x) (TotalEventsInProcess x)
        (GoInt.incr (TotalEventsError x)) (TotalEventsWaiting x)
        (TotalEventsProcessable x) (TotalEventsSystem x)
  | EventStateInProcess =>
      mkStats (TotalEventsReceived x) (TotalEventsDone x)
        (TotalEventsCancelled x) (GoInt.incr (TotalEventsInProcess x))
        (TotalEventsError x) (TotalEventsWaiting x)
        (TotalEventsProcessable x) (TotalEventsSystem x)
  | EventStateProcessable =>
      mkStats (TotalEventsReceived x) (TotalEventsDone x)
        (TotalEventsCancelled x) (TotalEventsInProcess x)
        (TotalEventsError x) (TotalEventsWaiting x)
        (GoInt.incr (TotalEventsProcessable x)) (TotalEventsSystem x)
  | EventStateWaiting =>
      mkStats (TotalEventsReceived x) (TotalEventsDone x)
        (TotalEventsCancelled x) (TotalEventsInProcess x)
        (TotalEventsError x) (GoInt.incr (TotalEventsWaiting x))
        (TotalEventsProcessable x) (TotalEventsSystem x)
  end.

Definition statsDecr (st : EventState) (x : schedulerStats) : schedulerStats :=
  match st with
  | EventStateCancelled =>
      mkStats (TotalEventsReceived x) (TotalEventsDone x)
        (GoInt.decr (TotalEventsCancelled x)) (TotalEventsInProcess x)
        (TotalEventsError x) (TotalEventsWaiting x)
        (TotalEventsProcessable x) (TotalEventsSystem x)
  | EventStateDone =>
      mkStats (TotalEventsReceived x) (GoInt.decr (TotalEventsDone x))
        (TotalEventsCancelled x) (TotalEventsInProcess x)
        (TotalEventsError x) (TotalEventsWaiting x)
        (TotalEventsProcessable x) (TotalEventsSystem x)
  | EventStateError =>
      mkStats (TotalEventsReceived x) (TotalEventsDone x)
        (TotalEventsCancelled x) (TotalEventsInProcess x)
        (GoInt.decr (TotalEventsError x)) (TotalEventsWaiting x)
        (TotalEventsProcessable x) (TotalEventsSystem x)
  | EventStateInProcess =>
      mkStats (TotalEventsReceived x) (TotalEventsDone x)
        (TotalEventsCancelled x) (GoInt.decr (TotalEventsInProcess x))
        (TotalEventsError x) (TotalEventsWaiting x)
        (TotalEventsProcessable x) (TotalEventsSystem x)
  | EventStateProcessable =>
      mkStats (TotalEventsReceived x) (TotalEventsDone x)
        (TotalEventsCancelled x) (TotalEventsInProcess x)
        (TotalEventsError x) (TotalEventsWaiting x)
        (GoInt.decr (TotalEventsProcessable x)) (TotalEventsSystem x)
  | EventStateWaiting =>
      mkStats (TotalEventsReceived x) (TotalEventsDone x)
        (TotalEventsCancelled x) (TotalEventsInProcess x)
        (TotalEventsError x) (GoInt.decr (TotalEventsWaiting x))
        (TotalEventsProcessable x) (TotalEventsSystem x)
  end.

Definition updateSchedulerStats (s : Scheduler) (oldState newState : EventState)
  : Scheduler :=
  if decide (oldState = newState) then s
  else set_stats s (statsDecr oldState (statsIncr newState (stats s))).

(** Is [state] one of Done, Cancelled, Error? *)
Definition isTerminal (st : EventState) : bool :=
  match st with
  | EventStateDone | EventStateCancelled | EventStateError => true
  | _ => false
  end.

(** *** setEventState (private) and the method [Scheduler.SetEventState] *)
Definition setEventState (s : Scheduler) (uuid : UUID) (st : EventState)
  : Scheduler :=
  match events s !! uuid with
  | Some event =>
      let s :=
        if isTerminal st && bool_decide (State event = EventStateInProcess)
        then set_CurrentRunningActions s (GoInt.decr (CurrentRunningActions s))
        else s in
      let oldState := State event in
      let s := set_events s (<[uuid := set_State event st]> (events s)) in
      updateSchedulerStats s oldState st
  | None => s
  end.

(** *** SetEventState (the function taking the event)

    Nothing happens for an event whose reference to the scheduler is not
    set.  When the scheduler does not know the event's UUID the event itself
    is stored in the map.  The result carries the caller's event, whose
    state is set as well. *)
Definition SetEventState (s : Scheduler) (e : Event) (st : EventState)
  : Scheduler * Event :=
  if negb (Sched e) then (s, e)
  else
    let s :=
      match events s !! EvUUID e with
      | Some _ => s
      | None => set_events s (<[EvUUID e := e]> (events s))
      end in
    match events s !! EvUUID e with
    | Some cur =>
        let s :=
          if isTerminal st && bool_decide (State cur = EventStateInProcess)
          then set_CurrentRunningActions s (GoInt.decr (CurrentRunningActions s))
          else s in
        let oldState := State cur in
        let s := set_events s (<[EvUUID e := set_State cur st]> (events s)) in
        (updateSchedulerStats s oldState st, set_State e st)
    | None => (s, e)
    end.

(** *** removeEventAndDeps

    The inner loop over the dependencies of one event of the map: each
    occurrence of [uuid] cancels the event, accounts for the transition and
    deletes the event from the map. *)
Fixpoint cancelDependent (uuid : UUID) (deps : list UUID)
    (s : Scheduler) (event : Event) : Scheduler * Event :=
  match deps with
  | [] => (s, event)
  | dependUUID :: rest =>
      if decide (dependUUID = uuid) then
        let oldState := State event in
        let event := set_State event EventStateCancelled in
        let s := updateSchedulerStats s oldState (State event) in
        let s := set_events s (delete (EvUUID event) (events s)) in
        cancelDependent uuid rest s event
      else cancelDependent uuid rest s event
  end.

(** The outer loop ranges over the map; an entry deleted before it is
    reached is not visited.  Every entry is stored under its own UUID, so an
    iteration deletes no entry but its own and the order of the visit does
    not matter. *)
Definition visitEvent (uuid : UUID) (s : Scheduler) (kv : N * Event)
  : Scheduler :=
  match events s !! kv.1 with
  | Some event => (cancelDependent uuid (DependOn event) s event).1
  | None => s
  end.

Definition removeEventAndDeps (s : Scheduler) (uuid : UUID) : Scheduler :=
  let s := fold_left (visitEvent uuid) (map_to_list (events s)) s in
  set_events s (delete uuid (events s)).

(** *** Cancel, CancelAll, Shutdown *)
Definition Cancel (s : Scheduler) (uuid : UUID) : Scheduler :=
  match events s !! uuid with
  | Some event =>
      let s :=
        set_events s (<[uuid := set_State event EventStateCancelled]> (events s)) in
      removeEventAndDeps s uuid
  | None => s
  end.

Definition cancelEvery (s : Scheduler) : Scheduler :=
  let s :=
    set_events s ((fun event => set_State event EventStateCancelled) <$> events s) in
  set_stats s
    (let st := stats s in
     mkStats (TotalEventsReceived st) (TotalEventsDone st)
       (GoInt.add (TotalEventsCancelled st) (Z.of_nat (size (events s))))
       (TotalEventsInProcess st) (TotalEventsError st) (TotalEventsWaiting st)
       (TotalEventsProcessable st) (TotalEventsSystem st)).

Definition CancelAll (s : Scheduler) : Scheduler := cancelEvery s.

Definition Shutdown (s : Scheduler) : Scheduler :=
  set_state (cancelEvery s) SchedulerStateShutdown.

(** *** reschedule *)
Definition reschedule (now : Z) (s : Scheduler) (event : Event) : Scheduler :=
  if (RepeatEvery event =? 0) && (0 <? RepeatTimes event) then
    let oldState := State event in
    let event := set_State event EventStateProcessable in
    let s := updateSchedulerStats s oldState (State event) in
    let event := set_RepeatTimes event (GoInt.decr (RepeatTimes event)) in
    schedule s event
  else if (0 <? RepeatEvery event) && (0 <? RepeatTimes event) then
    let oldState := State event in
    let event := set_State event EventStateProcessable in
    let s := updateSchedulerStats s oldState (State event) in
    let event := set_Timestamp event now in
    let event := set_RepeatTimes event (GoInt.decr (RepeatTimes event)) in
    schedule s event
  else if (0 <=? RepeatEvery event) && (RepeatTimes event =? -1) then
    let oldState := State event in
    let event := set_State event EventStateProcessable in
    let s := updateSchedulerStats s oldState (State event) in
    let event := set_Timestamp event now in
    schedule s event
  else
    set_events s (delete (EvUUID event) (events s)).

(** *** isProcessable

    The loop stops at the first dependency that is in the map and not done;
    the event is refused only when that dependency is neither the event's
    own UUID nor the nil UUID. *)
Fixpoint isProcessableLoop (evs : gmap N Event) (self : UUID)
    (deps : list UUID) : bool :=
  match deps with
  | [] => true
  | dependUUID :: rest =>
      match evs !! dependUUID with
      | Some depEvent =>
          if decide (State depEvent = EventStateDone)
          then isProcessableLoop evs self rest
          else
            if decide (dependUUID ≠ self ∧ dependUUID ≠ zeroUUID)
            then false
            else true
      | None => isProcessableLoop evs self rest
      end
  end.

Definition isProcessable (s : Scheduler) (event : Event) : bool :=
  isProcessableLoop (events s) (EvUUID event) (DependOn event).

(** *** Process: one iteration of the loop

    [now] is the value of [time.Now()] during the iteration.  The locals
    [averageWaitingTime] and [previousAverage] have no effect on the
    scheduler: the assignment inside the loop declares a new variable, so
    the outer [averageWaitingTime] stays 0 and the loop never sleeps on it.
    The queue is tested for emptiness under the lock, so [Next] succeeds
    when it is reached.  Reading [s.events[event.UUID].State] for a UUID that
    is not in the map dereferences a nil pointer: the iteration panics. *)

Inductive IterResult :=
| IterContinue (s : Scheduler) (spawned : option Event)
| IterReturn (s : Scheduler) (spawned : option Event)
| IterPanic.

Definition millisecond : Z := 1000000.

Definition second : Z := 1000000000.

(** [time.Now().After(t)]. *)
Definition after (now t : Z) : bool := t <? now.

(** The part of an iteration that follows [s.q.Next()]: [event] is the
    copy taken from the queue, [stored] is [s.events[event.UUID]]. *)
Definition processNext (config : ProcessConfig) (now : Z) (s : Scheduler)
    (event stored : Event) : IterResult :=
  if decide (State stored = EventStateInProcess) then
    let '(s, event) :=
      if (0 <? ActionTimeout config) && after now (Timeout event)
      then
        let oldState := State event in
        let event := set_State event EventStateError in
        (updateSchedulerStats s oldState (State event), event)
      else (s, event) in
    IterContinue (schedule s event) None
  else if decide (State stored = EventStateCancelled
                  ∨ State stored = EventStateError) then
    IterContinue (removeEventAndDeps s (EvUUID event)) None
  else if decide (State stored = EventStateDone) then
    IterContinue (reschedule now s event) None
  else
    let canProcess := isProcessable s event in
    if canProcess &&
       after now (Timestamp event + GoInt.mul (RepeatEvery event) millisecond)
    then
      let '(s, event) :=
        if CurrentRunningActions s <? MaxConcurrentActions config
        then
          let oldState := State event in
          let event := set_State event EventStateInProcess in
          (updateSchedulerStats s oldState (State event), event)
        else (s, event) in
      let event :=
        set_Timeout event (now + GoInt.mul (ActionTimeout config) second) in
      if ExecuteAction config && bool_decide (Action event ≠ None)
      then
        let s := schedule s event in
        if decide (State event ≠ EventStateInProcess) then
          IterContinue s None
        else
          let s :=
            set_CurrentRunningActions s
              (GoInt.incr (CurrentRunningActions s)) in
          if ReturnIfFound config then IterReturn s (Some event)
          else IterContinue s (Some event)
      else
        let oldState := State event in
        let event := set_State event EventStateProcessable in
        let s := updateSchedulerStats s oldState (State event) in
        if ReturnIfFound config then IterReturn s None
        else IterContinue s None
    else
      IterContinue (schedule s event) None.

Definition processIteration (config : ProcessConfig) (now : Z) (s : Scheduler)
  : IterResult :=
  match state s with
  | SchedulerStateShutdown => IterReturn s None
  | SchedulerStatePaused => IterContinue s None
  | SchedulerStateRunning =>
      match qNext (q s) with
      | None =>
          if ExitWhenEmpty config then IterReturn s None
          else IterContinue s None
      | Some (event, rest) =>
          let s := set_q s rest in
          match events s !! EvUUID event with
          | None => IterPanic
          | Some stored => processNext config now s event stored
          end
      end
  end.

(** *** The worker *)

(** Modelled from the spec: [processEvent], the function run by the
    goroutines that [Schedule] and [Process] start, is not part of the
    sources.  Section 4.5.4: the worker runs [Action(event)]; if the action
    returns an error the state is set to Error, otherwise the action itself
    moves the event (typically to Done).  An event without an action is left
    alone. *)
Definition processEvent (s : Scheduler) (e : Event) : Scheduler :=
  match Action e with
  | Some (ActSetState st) => (SetEventState s e st).1
  | Some ActFail => (SetEventState s e EventStateError).1
  | Some ActNop => s
  | None => s
  end.

(** *** Process: the loop

    The loop and its workers, run in sequence: a worker started by an
    iteration runs to its end as soon as the iteration has released the
    lock.  [wRuns] records, in order, the UUID of every event whose action a
    worker has run; the clock advances by [tick] from one iteration to the
    next. *)
Record World := mkWorld {
  wSched : Scheduler;
  wNow : Z;
  wRuns : list UUID
}.

Definition runWorker (w : World) (spawned : option Event) : World :=
  match spawned with
  | None => w
  | Some e =>
      mkWorld (processEvent (wSched w) e) (wNow w)
        (match Action e with
         | Some _ => wRuns w ++ [EvUUID e]
         | None => wRuns w
         end)
  end.

Inductive ProcessResult :=
| ProcessReturned (w : World)
| ProcessRunning (w : World)
| ProcessPanicked.

Fixpoint Process (fuel : nat) (config : ProcessConfig) (tick : Z) (w : World)
  : ProcessResult :=
  match fuel with
  | O => ProcessRunning w
  | S fuel' =>
      match processIteration config (wNow w) (wSched w) with
      | IterPanic => ProcessPanicked
      | IterReturn s spawned =>
          ProcessReturned (runWorker (mkWorld s (wNow w) (wRuns w)) spawned)
      | IterContinue s spawned =>
          let w' := runWorker (mkWorld s (wNow w) (wRuns w)) spawned in
          Process fuel' config tick (mkWorld (wSched w') (wNow w' + tick) (wRuns w'))
      end
  end.

(** *** GetSessionStats *)

#[global] Instance EventType_eq_dec : EqDecision EventType.
Proof. solve_decision. Defined.

(** [types.SessionStatsResponse], with the fields that [GetSessionStats]
    writes (the declaration is not part of the sources). *)
Record SessionStatsResponse := mkSessionStatsResponse {
  SessionWorkItemsInProcess : Z;
  SessionWorkItemsProcessable : Z;
  SessionWorkItemsWaiting : Z
}.

(** The body of the loop of [GetSessionStats] for one event of the map. *)
Definition countEvent (sid : UUID) (itmType : EventType)
    (sessionStats : SessionStatsResponse) (event : Event) : SessionStatsResponse :=
  if decide (Type_ event = itmType \/ itmType = EventTypeUnknown) then
    if decide (SessionID event = sid) then
      if decide (State event = EventStateInProcess) then
        mkSessionStatsResponse
          (GoInt.incr (SessionWorkItemsInProcess sessionStats))
          (SessionWorkItemsProcessable sessionStats)
          (SessionWorkItemsWaiting sessionStats)
      else if decide (State event = EventStateProcessable) then
        mkSessionStatsResponse
          (SessionWorkItemsInProcess sessionStats)
          (GoInt.incr (SessionWorkItemsProcessable sessionStats))
          (SessionWorkItemsWaiting sessionStats)
      else if decide (State event = EventStateWaiting) then
        mkSessionStatsResponse
          (SessionWorkItemsInProcess sessionStats)
          (SessionWorkItemsProcessable sessionStats)
          (GoInt.incr (SessionWorkItemsWaiting sessionStats))
      else sessionStats
    else sessionStats
  else sessionStats.

(** [GetSessionStats]: [uuid.Nil] is the nil UUID, as [zeroUUID] is.  The
    loop ranges over the map in an order that Go does not fix. *)
Definition GetSessionStats (s : Scheduler) (sid : UUID) (itmType : EventType)
  : SessionStatsResponse :=
  if decide (sid = zeroUUID \/ sid = 0%N) then mkSessionStatsResponse 0 0 0
  else
    fold_left (fun sessionStats kv => countEvent sid itmType sessionStats kv.2)
      (map_to_list (events s)) (mkSessionStatsResponse 0 0 0).

(** ** The dispatcher ([dispatcher/dispatcher.go]) *)

(** The event of the dispatcher ([types/events.go]): a name, the stored
    asset ([nil] is possible for a pointer) and the session, here the key of
    the session in the manager. *)
Record DEvent := mkDEvent {
  DName : string;
  DAsset : option DbAsset;
  DSession : N
}.

(** [EventDataElement]: the event and the error a handler reported.  Its
    [Queue] field is the dispatcher's completion queue, [dCompleted] below. *)
Record EventDataElement := mkEDE {
  EdeEvent : DEvent;
  EdeError : option string
}.

Definition NewEventDataElement (e : DEvent) : EventDataElement := mkEDE e None.

(** The registry is an interface ([et.Registry]); the dispatcher calls its
    [GetPipeline] only, which returns the pipeline of an asset type or an
    error.  The input queue of the pipeline of each asset type is kept in the
    dispatcher state ([dQueues]). *)
Record Registry := mkRegistry {
  GetPipeline : string -> list string + string
}.

(** Modelled from the spec: the registry of section 4.3 (its implementation
    is not part of the sources).  [GetPipeline] returns the ordered list of
    the handlers registered for the type, the empty list when there are
    none, and never an error. *)
Definition specRegistry (handlers : gmap string (list string)) : Registry :=
  mkRegistry (fun assetType => inl (default [] (handlers !! assetType))).

(** A registry whose lookup fails for the types without handlers. *)
Definition strictRegistry (handlers : gmap string (list string)) : Registry :=
  mkRegistry (fun assetType =>
    match handlers !! assetType with
    | Some hs => inl hs
    | None => inr "no handlers registered for the asset type"
    end).

Record Dis := mkDis {
  dSessions : gmap N Session;
  dQueues : gmap string (list EventDataElement);
  dCompleted : list EventDataElement
}.

Inductive DispatchResult :=
| DispatchOk (d : Dis)
| DispatchError (msg : string) (d : Dis)
| DispatchPanic.

(** The work items waiting in the pipeline of an asset type. *)
Definition pipelineQueue (d : Dis) (assetType : string) : list EventDataElement :=
  default [] (dQueues d !! assetType).

Definition DispatchEvent (reg : Registry) (d : Dis) (oe : option DEvent)
  : DispatchResult :=
  match oe with
  | None => DispatchError errNilEvent d
  | Some e =>
      match DAsset e, dSessions d !! DSession e with
      | Some p, Some sess =>
          let a := DbAssetOf p in
          if Cache.seen (SessCache sess) a then DispatchError errScheduled d
          else
            let sess := mkSession (Cache.SetAsset (SessCache sess) p) (SessStats sess) in
            let d := mkDis (<[DSession e := sess]> (dSessions d)) (dQueues d) (dCompleted d) in
            match GetPipeline reg (AssetType a) with
            | inr err => DispatchError err d
            | inl _ =>
                let data := NewEventDataElement e in
                let d :=
                  mkDis (dSessions d)
                    (<[AssetType a := pipelineQueue d (AssetType a) ++ [data]]> (dQueues d))
                    (dCompleted d) in
                let sess :=
                  mkSession (SessCache sess)
                    (mkSessionStats (WorkItemsCompleted (SessStats sess))
                       (GoInt.incr (WorkItemsTotal (SessStats sess)))) in
                DispatchOk (mkDis (<[DSession e := sess]> (dSessions d)) (dQueues d) (dCompleted d))
            end
      | _, _ => DispatchPanic
      end
  end.

(** [completedCallback], run by [collectEvents] on every element of the
    completion queue. *)
Definition completedCallback (d : Dis) (ede : EventDataElement) : Dis :=
  match dSessions d !! DSession (EdeEvent ede) with
  | Some sess =>
      let sess :=
        mkSession (SessCache sess)
          (mkSessionStats (GoInt.incr (WorkItemsCompleted (SessStats sess)))
             (WorkItemsTotal (SessStats sess))) in
      mkDis (<[DSession (EdeEvent ede) := sess]> (dSessions d)) (dQueues d) (dCompleted d)
  | None => d
  end.

(** [d.completed.Process(d.completedCallback)]: drain the completion queue. *)
Definition collectEvents (d : Dis) : Dis :=
  let d' := fold_left completedCallback (dCompleted d) d in
  mkDis (dSessions d') (dQueues d') [].

(** The state after a call, whatever its result (a panic leaves it as it
    was). *)
Definition dispatchState (reg : Registry) (d : Dis) (oe : option DEvent) : Dis :=
  match DispatchEvent reg d oe with
  | DispatchOk d' => d'
  | DispatchError _ d' => d'
  | DispatchPanic => d
  end.

Definition dispatchAll (reg : Registry) (d : Dis) (es : list (option DEvent)) : Dis :=
  fold_left (dispatchState reg) es d.

(** Does the cache of session [sid] hold the asset? *)
Definition sessionSeen (d : Dis) (sid : N) (a : OAMAsset) : bool :=
  match dSessions d !! sid with
  | Some sess => Cache.seen (SessCache sess) a
  | None => false
  end.

(** ** The resolver pool: dnsQuery ([plugins/support/resolvers.go]) *)

Inductive Rcode :=
| RcodeSuccess
| RcodeNameError
| RcodeOther (code : Z).

(** A [dns.Msg]: the response code and the answer section. *)
Record Msg := mkMsg {
  MsgRcode : Rcode;
  Answer : list string
}.

(** [r.QueryBlocking] returns a response or an error; the resolver pool is
    an oracle giving the outcome of the successive queries, [None] for a
    query that failed on the network. *)
Definition Resolvers := nat -> option Msg.

Definition errNameNotExist : string := "name does not exist".

Definition errNoRecord : string := "no record of this type".

(** The result [(resp, err)] and the number of queries made. *)
Record QueryResult := mkQueryResult {
  qResp : option Msg;
  qErr : option string;
  qQueries : nat
}.

(** [for num := 0; num < attempts; num++]: [left] iterations remain,
    [num] queries have been made. *)
Fixpoint dnsQueryLoop (r : Resolvers) (left num : nat) : QueryResult :=
  match left with
  | O => mkQueryResult None None num
  | S left' =>
      match r num with
      | None => dnsQueryLoop r left' (S num)
      | Some resp =>
          match MsgRcode resp with
          | RcodeNameError => mkQueryResult None (Some errNameNotExist) (S num)
          | RcodeSuccess =>
              match Answer resp with
              | [] => mkQueryResult None (Some errNoRecord) (S num)
              | _ :: _ => mkQueryResult (Some resp) None (S num)
              end
          | RcodeOther _ => dnsQueryLoop r left' (S num)
          end
      end
  end.

Definition dnsQuery (r : Resolvers) (attempts : Z) : QueryResult :=
  dnsQueryLoop r (Z.to_nat attempts) 0.

(** The call made by [PerformQuery]: [dnsQuery(msg, trusted, 50)]. *)
Definition performQueryAttempts : Z := 50.

(** ** PerformQuery ([plugins/support/resolvers.go]) *)

(** [resolve.ExtractedAnswer]. *)
Record ExtractedAnswer := mkExtractedAnswer {
  EaName : string;
  EaType : Z;
  EaData : string
}.

(** The message that [PerformQuery] sends: [resolve.QueryMsg(name, qtype)],
    or [resolve.ReverseMsg(name)] for a PTR query. *)
Inductive Query :=
| QueryMsg (name : string) (qtype : Z)
| ReverseMsg (name : string).

Definition TypePTR : Z := 12.

(** What [PerformQuery] and [wildcardDetected] take from the packages they
    call: the pool of trusted resolvers (the outcome of the successive
    queries for a message) and its [WildcardDetected], the name of the first
    question of a response ([None] when the response has no question),
    [resolve.RemoveLastDot], [publicsuffix.EffectiveTLDPlusOne] ([None] for
    an error), [resolve.ExtractAnswers], [resolve.AnswersByType] and
    [strings.ToLower]. *)
Record QueryEnv := mkQueryEnv {
  trusted : Query -> Resolvers;
  poolWildcardDetected : Msg -> string -> bool;
  questionName : Msg -> option string;
  RemoveLastDot : string -> string;
  EffectiveTLDPlusOne : string -> option string;
  ExtractAnswers : Msg -> list ExtractedAnswer;
  AnswersByType : list ExtractedAnswer -> Z -> list ExtractedAnswer;
  ToLower : string -> string
}.

(** [wildcardDetected]; [None] stands for the panic of [resp.Question[0]]
    on a response without a question. *)
Definition wildcardDetected (env : QueryEnv) (resp : Msg) : option bool :=
  match questionName env resp with
  | None => None
  | Some qname =>
      let name := ToLower env (RemoveLastDot env qname) in
      match EffectiveTLDPlusOne env name with
      | Some dom =>
          if negb (String.eqb dom EmptyString)
          then Some (poolWildcardDetected env resp dom)
          else Some false
      | None => Some false
      end
  end.

Definition normalize (env : QueryEnv) (records : list ExtractedAnswer)
  : list ExtractedAnswer :=
  fold_left
    (fun results rr =>
       results ++ [mkExtractedAnswer (ToLower env (EaName rr)) (EaType rr)
                     (ToLower env (EaData rr))])
    records [].

(** The outcome of [PerformQuery]: the result [(records, err)], [nil] being
    the empty list, or a panic. *)
Inductive PerformQueryResult :=
| QueryReturn (records : list ExtractedAnswer) (err : option string)
| QueryPanic.

Definition PerformQuery (env : QueryEnv) (name : string) (qtype : Z)
  : PerformQueryResult :=
  let msg := QueryMsg name qtype in
  let msg := if qtype =? TypePTR then ReverseMsg name else msg in
  let res := dnsQuery (trusted env msg) performQueryAttempts in
  match qErr res, qResp res with
  | None, Some resp =>
      match wildcardDetected env resp with
      | None => QueryPanic
      | Some false =>
          match ExtractAnswers env resp with
          | [] => QueryReturn [] (qErr res)
          | ans =>
              match AnswersByType env ans qtype with
              | [] => QueryReturn [] (qErr res)
              | rr => QueryReturn (normalize env rr) None
              end
          end
      | Some true => QueryReturn [] (qErr res)
      end
  | _, _ => QueryReturn [] (qErr res)
  end.

(** ** The alterations of a label ([deletions], [substitutions])

    The two functions convert each string to a slice of runes, work on the
    slice and convert back; they never look at a rune.  A string is therefore
    modelled by the list of its runes, of any type [rune].  Both functions
    write into the slice while they read from it, which the model keeps: the
    slice [rstr] is threaded through the loop. *)

(** [append(rstr[:i], rstr[i+1:]...)]: the capacity of [rstr[:i]] is that
    of [rstr], so the elements after position [i] are moved one place down
    inside the array of [rstr]; its last element stays where it was.  The
    result is the array afterwards; the returned slice is all of it but the
    last element. *)
Definition deleteInPlace {rune : Type} (i : nat) (rstr : list rune) : list rune :=
  take i rstr ++ drop (S i) rstr ++ drop (length rstr - 1)%nat rstr.

(** [for i := 0; i < rlen; i++]: [k] iterations remain. *)
Fixpoint deletionsLoop {rune : Type} (k i : nat) (rstr : list rune)
    (results : list (list rune)) : list (list rune) :=
  match k with
  | O => results
  | S k' =>
      let rstr := deleteInPlace i rstr in
      let del := take (length rstr - 1)%nat rstr in
      let results :=
        match del with
        | [] => results
        | _ :: _ => results ++ [del]
        end in
      deletionsLoop k' (S i) rstr results
  end.

Definition deletions {rune : Type} (set : list (list rune)) : list (list rune) :=
  fold_left (fun results str => deletionsLoop (length str) 0%nat str results) set [].

(** [for j := 0; j < ldhLen; j++ { temp[i] = ldh[j]; ... }], where [temp]
    is the slice [rstr] itself. *)
Fixpoint substitutionsInner {rune : Type} (i : nat) (ldh : list rune)
    (rstr : list rune) (results : list (list rune))
  : list rune * list (list rune) :=
  match ldh with
  | [] => (rstr, results)
  | c :: ldh' =>
      let rstr := <[i := c]> rstr in
      substitutionsInner i ldh' rstr (results ++ [rstr])
  end.

Fixpoint substitutionsLoop {rune : Type} (k i : nat) (ldh : list rune)
    (rstr : list rune) (results : list (list rune)) : list (list rune) :=
  match k with
  | O => results
  | S k' =>
      let '(rstr, results) := substitutionsInner i ldh rstr results in
      substitutionsLoop k' (S i) ldh rstr results
  end.

Definition substitutions {rune : Type} (set : list (list rune)) (chars : list rune)
  : list (list rune) :=
  fold_left
    (fun results str => substitutionsLoop (length str) 0%nat chars str results) set [].

(** ** The names that the alterations plugin generates
    ([flipWords], [appendNumbers], [addSuffixWords], [addPrefixWords])

    A Go string is a sequence of bytes, here a [string].  The separators
    ["."] and ["-"] are single bytes that occur in no multi-byte character,
    so that [strings.SplitN], [strings.Split], [strings.Join] and
    [strings.Trim] with these separators work on the bytes. *)

(** The first ["."] of the string: what is before it and what is after. *)
Fixpoint cutAtDot (s : string) : option (string * string) :=
  match s with
  | EmptyString => None
  | String c s' =>
      if Ascii.eqb c "." then Some (EmptyString, s')
      else
        match cutAtDot s' with
        | Some (before, rest) => Some (String c before, rest)
        | None => None
        end
  end.

(** [strings.SplitN(s, ".", 2)]. *)
Definition splitN2 (s : string) : list string :=
  match cutAtDot s with
  | Some (before, rest) => [before; rest]
  | None => [s]
  end.

(** [strings.Split(s, "-")]. *)
Fixpoint splitHyphen (s : string) : list string :=
  match s with
  | EmptyString => [EmptyString]
  | String c s' =>
      if Ascii.eqb c "-" then EmptyString :: splitHyphen s'
      else
        match splitHyphen s' with
        | p :: ps => String c p :: ps
        | [] => [String c EmptyString]
        end
  end.

(** [strings.Join(parts, "-")]. *)
Fixpoint joinHyphen (parts : list string) : string :=
  match parts with
  | [] => EmptyString
  | [p] => p
  | p :: ps => (p ++ "-" ++ joinHyphen ps)%string
  end.

Fixpoint trimLeftHyphen (s : string) : string :=
  match s with
  | String c s' => if Ascii.eqb c "-" then trimLeftHyphen s' else s
  | EmptyString => EmptyString
  end.

Fixpoint trimRightHyphen (s : string) : string :=
  match s with
  | EmptyString => EmptyString
  | String c s' =>
      match trimRightHyphen s' with
      | EmptyString => if Ascii.eqb c "-" then EmptyString else String c EmptyString
      | t => String c t
      end
  end.

(** [strings.Trim(s, "-")]. *)
Definition trimHyphen (s : string) : string := trimRightHyphen (trimLeftHyphen s).

(** [strconv.Itoa(i)] for the digits. *)
Definition digits : list string := ["0"; "1"; "2"; "3"; "4"; "5"; "6"; "7"; "8"; "9"]%string.

(** The results are collected in a [stringset.Set] of an external package
    and returned by its [Slice]; [slice] gives the slice for the strings
    inserted, in the order of insertion. *)
Definition SetSlice := list string -> list string.

(** [addSuffix]; [None] when [parts] has no second element (the index
    expression [parts[1]] panics). *)
Definition addSuffix (parts : list string) (suffix : string) : option (list string) :=
  match parts with
  | p0 :: p1 :: _ =>
      Some [(p0 ++ suffix ++ "." ++ p1)%string; (p0 ++ "-" ++ suffix ++ "." ++ p1)%string]
  | _ => None
  end.

Definition addPrefix (name prefix : string) : list string :=
  [(prefix ++ name)%string; (prefix ++ "-" ++ name)%string].

(** The loop [for ... { results.InsertMany(addSuffix(parts, w)...) }]. *)
Fixpoint insertSuffixes (parts : list string) (suffixes : list string)
    (inserted : list string) : option (list string) :=
  match suffixes with
  | [] => Some inserted
  | w :: rest =>
      match addSuffix parts w with
      | Some names => insertSuffixes parts rest (inserted ++ names)
      | None => None
      end
  end.

Definition flipWords (slice : SetSlice) (name : string) (words : list string)
  : option (list string) :=
  match splitN2 name with
  | subdomain :: domain :: _ =>
      let parts := splitHyphen subdomain in
      if (length parts <? 2)%nat then Some []
      else
        let first :=
          map (fun k => (k ++ "-" ++ joinHyphen (drop 1 parts) ++ "." ++ domain)%string)
            words in
        let second :=
          map (fun k =>
                 (joinHyphen (take (length parts - 1) parts) ++ "-" ++ k ++ "." ++ domain)%string)
            words in
        Some (slice (first ++ second))
  | _ => None
  end.

(** [parts[0] = strings.Trim(parts[0], "-")]. *)
Definition trimFirst (parts : list string) : list string :=
  match parts with
  | p0 :: rest => trimHyphen p0 :: rest
  | [] => []
  end.

Definition appendNumbers (slice : SetSlice) (name : string) : option (list string) :=
  let parts := trimFirst (splitN2 name) in
  match parts with
  | EmptyString :: _ => Some []
  | _ =>
      match insertSuffixes parts digits [] with
      | Some inserted => Some (slice inserted)
      | None => None
      end
  end.

Definition addSuffixWords (slice : SetSlice) (name : string) (words : list string)
  : option (list string) :=
  let parts := trimFirst (splitN2 name) in
  match parts with
  | EmptyString :: _ => Some []
  | _ =>
      match insertSuffixes parts words [] with
      | Some inserted => Some (slice inserted)
      | None => None
      end
  end.

Definition addPrefixWords (slice : SetSlice) (name : string) (words : list string)
  : list string :=
  let name := trimHyphen name in
  match name with
  | EmptyString => []
  | _ => slice (flat_map (addPrefix name) words)
  end.

(** ** Loading the plugins ([plugins/load.go]) *)

(** A plugin, as [LoadAndStartPlugins] uses it: its name and the error
    that its [Start] returns, if any. *)
Record Plugin := mkPlugin {
  PluginName : string;
  StartError : option string
}.

(** The calls made on the plugins, in order. *)
Inductive PluginCall :=
| CallStart (name : string)
| CallStop (name : string).

(** [stopPlugins]: [Stop] on each plugin of the slice. *)
Definition stopPlugins (started : list Plugin) (calls : list PluginCall)
  : list PluginCall :=
  fold_left (fun calls p => calls ++ [CallStop (PluginName p)]) started calls.

(** The loop of [LoadAndStartPlugins] over [pluginNewFuncs]: an element is
    the plugin that the constructor returns, [None] for [nil].  The local
    [started] is passed to [stopPlugins] when a [Start] fails; the loop
    never appends to it. *)
Fixpoint loadLoop (funcs : list (option Plugin)) (started : list Plugin)
    (calls : list PluginCall) : option string * list PluginCall :=
  match funcs with
  | [] => (None, calls)
  | f :: rest =>
      match f with
      | Some p =>
          let calls := calls ++ [CallStart (PluginName p)] in
          match StartError p with
          | Some err => (Some err, stopPlugins started calls)
          | None => loadLoop rest started calls
          end
      | None => loadLoop rest started calls
      end
  end.

Definition LoadAndStartPlugins (funcs : list (option Plugin))
  : option string * list PluginCall :=
  loadLoop funcs [] [].

(** * Definitions used by the properties *)

(** ** dnsQuery *)

(** An attempt that does not end the loop: the query failed on the network,
    or the response code is neither success nor a name error. *)
Definition skipped (o : option Msg) : Prop :=
  match o with
  | None => True
  | Some resp =>
      match MsgRcode resp with
      | RcodeOther _ => True
      | _ => False
      end
  end.

(** The outcome of the attempt that ends the loop. *)
Definition decided (resp : Msg) (queries : nat) : QueryResult :=
  match MsgRcode resp with
  | RcodeNameError => mkQueryResult None (Some errNameNotExist) queries
  | _ =>
      match Answer resp with
      | [] => mkQueryResult None (Some errNoRecord) queries
      | _ :: _ => mkQueryResult (Some resp) None queries
      end
  end.

(** A resolver pool whose first two queries fail on the network, whose
    third answers SERVFAIL and whose fourth answers with one record. *)
Definition flakyResolvers : Resolvers :=
  fun k =>
    match k with
    | 0%nat | 1%nat => None
    | 2%nat => Some (mkMsg (RcodeOther 2) [])
    | _ => Some (mkMsg RcodeSuccess ["93.184.216.34"])
    end.

(** What a call does once the cache test has passed, in both outcomes of
    the pipeline lookup. *)
Definition afterCacheInsert (d : Dis) (e : DEvent) (p : DbAsset) (sess : Session) : Dis :=
  mkDis (<[DSession e := mkSession (Cache.SetAsset (SessCache sess) p) (SessStats sess)]>
           (dSessions d))
    (dQueues d) (dCompleted d).

Definition afterEnqueue (d : Dis) (e : DEvent) (p : DbAsset) (sess : Session) : Dis :=
  mkDis
    (<[DSession e :=
         mkSession (Cache.SetAsset (SessCache sess) p)
           (mkSessionStats (WorkItemsCompleted (SessStats sess))
              (GoInt.incr (WorkItemsTotal (SessStats sess))))]>
       (dSessions d))
    (<[AssetType (DbAssetOf p) :=
         pipelineQueue d (AssetType (DbAssetOf p)) ++ [NewEventDataElement e]]>
       (dQueues d))
    (dCompleted d).

(** Concrete data: one session with an empty cache, one FQDN asset. *)
Definition exampleCom : OAMAsset := mkOAMAsset "FQDN" "example.com".

Definition storedExample : DbAsset := mkDbAsset "1" exampleCom.

Definition emptySession : Session := mkSession ∅ (mkSessionStats 0 0).

Definition dis0 : Dis := mkDis {[ 1%N := emptySession ]} ∅ [].

Definition ev0 : DEvent := mkDEvent "example.com" (Some storedExample) 1%N.

Definition sched0 : Scheduler := NewScheduler {[ 1%N := emptySession ]}.

Definition assetEvent : Event :=
  mkEvent 0%N 1%N "example.com" 0 EventTypeAsset EventStateWaiting []
    None (DataAsset exampleCom) 0 0 0 0 false.

(** ** Schedule *)

(** The event as [Schedule] leaves it before handing it to [schedule]. *)
Definition prepare (now : Z) (fresh : positive) (evs : gmap N Event)
    (e : Event) : Event :=
  let e := setupEvent now fresh e in
  let e := set_State e EventStateWaiting in
  let e := scheduleDeps evs (DependOn e) e in
  let e := if Priority e <=? 0 then set_Priority e 1 else e in
  set_Sched e true.

Definition received (s : Scheduler) : Scheduler :=
  set_stats s
    (let st := stats s in
     mkStats (GoInt.incr (TotalEventsReceived st)) (TotalEventsDone st)
       (TotalEventsCancelled st) (TotalEventsInProcess st)
       (TotalEventsError st) (TotalEventsWaiting st)
       (TotalEventsProcessable st) (TotalEventsSystem st)).

(** The copy that [schedule] stores and queues. *)
Definition copyOf (e : Event) : Event :=
  match Action e with
  | None => set_Action (set_Sched e true) (Some (ActSetState EventStateDone))
  | Some _ => set_Sched e true
  end.


(** Two events of the scenarios: [first] has priority 3, [second] has
    priority 5 and depends on [first]. *)
Definition firstEvent : Event :=
  mkEvent 1%N 0%N "e0" 0 EventTypeCustom EventStateWaiting []
    None DataOther 3 0 0 0 false.

Definition secondEvent : Event :=
  mkEvent 2%N 0%N "e1" 0 EventTypeCustom EventStateWaiting [1%N]
    None DataOther 5 0 0 0 false.




Definition testConfig : ProcessConfig :=
  mkProcessConfig true true true false 0 60 10.

(** [selfFirst] lists its own UUID and then the UUID of [depEvent];
    [depEvent] has no dependency, the same priority, and is not due before a
    minute has passed. *)
Definition selfFirst : Event :=
  mkEvent 1%N 0%N "e" 0 EventTypeCustom EventStateWaiting [1%N; 2%N]
    None DataOther 1 0 0 0 false.

Definition depEvent : Event :=
  mkEvent 2%N 0%N "d" 0 EventTypeCustom EventStateWaiting []
    None DataOther 1 60000 0 0 false.

(** ** The dependencies that [Schedule] goes through *)




(** ** The counters *)

Definition stateCounters (x : schedulerStats) : Z :=
  TotalEventsDone x + TotalEventsCancelled x + TotalEventsError x
  + TotalEventsInProcess x + TotalEventsWaiting x + TotalEventsProcessable x.

(** Two schedulers whose accounts agree: the same [TotalEventsReceived] and,
    modulo 2^64, the same sum of the six state counters. *)
Definition sameAccounts (s s' : Scheduler) : Prop :=
  GoInt.eqm (stateCounters (stats s')) (stateCounters (stats s))
  /\ TotalEventsReceived (stats s') = TotalEventsReceived (stats s).

(** The scheduler that an iteration leaves. *)
Definition iterScheduler (s : Scheduler) (r : IterResult) : Scheduler :=
  match r with
  | IterContinue s' _ => s'
  | IterReturn s' _ => s'
  | IterPanic => s
  end.

(** The calls that change a scheduler: the public methods, one iteration of
    the loop of [Process], and a worker that runs the action of an event. *)
Inductive Op :=
| OpSchedule (now : Z) (fresh : positive) (oe : option Event)
| OpSetEventState (e : Event) (st : EventState)
| OpSetState (uuid : UUID) (st : EventState)
| OpCancel (uuid : UUID)
| OpCancelAll
| OpShutdown
| OpIteration (config : ProcessConfig) (now : Z)
| OpWorker (e : Event).

Definition applyOp (op : Op) (s : Scheduler) : Scheduler :=
  match op with
  | OpSchedule now fresh oe =>
      match Schedule now fresh s oe with
      | ScheduleOk s' _ => s'
      | _ => s
      end
  | OpSetEventState e st => (SetEventState s e st).1
  | OpSetState uuid st => setEventState s uuid st
  | OpCancel uuid => Cancel s uuid
  | OpCancelAll => CancelAll s
  | OpShutdown => Shutdown s
  | OpIteration config now => iterScheduler s (processIteration config now s)
  | OpWorker e => processEvent s e
  end.

(** What one call adds to the events accepted by [Schedule], and to the
    events found in the map by [CancelAll] and [Shutdown]. *)
Definition acceptedBy (op : Op) (s : Scheduler) : Z :=
  match op with
  | OpSchedule now fresh oe =>
      match Schedule now fresh s oe with
      | ScheduleOk _ _ => 1
      | _ => 0
      end
  | _ => 0
  end.

Definition sweptBy (op : Op) (s : Scheduler) : Z :=
  match op with
  | OpCancelAll | OpShutdown => Z.of_nat (size (events s))
  | _ => 0
  end.

Fixpoint runOps (ops : list Op) (s : Scheduler) : Scheduler :=
  match ops with
  | [] => s
  | op :: rest => runOps rest (applyOp op s)
  end.

Fixpoint accepted (ops : list Op) (s : Scheduler) : Z :=
  match ops with
  | [] => 0
  | op :: rest => acceptedBy op s + accepted rest (applyOp op s)
  end.

Fixpoint swept (ops : list Op) (s : Scheduler) : Z :=
  match ops with
  | [] => 0
  | op :: rest => sweptBy op s + swept rest (applyOp op s)
  end.

(** ** Scheduling the same event twice *)




(** The test that [Schedule] makes on the session cache: [None] when the
    session is unknown (a panic), [Some true] when the asset was seen. *)
Definition cacheCheck (m : gmap N Session) (e : Event) : option bool :=
  match Data e with
  | DataAsset a =>
      match m !! SessionID e with
      | None => None
      | Some ss => Some (Cache.seen (SessCache ss) a)
      end
  | DataOther => Some false
  end.

(** ** Repetition *)


(** The scenario: schedule the event in a new scheduler at time 0, then
    run the loop with a clock that advances by [tick] per iteration.
    [Schedule] itself starts a worker on the event; [eager] tells whether
    that worker has run its action before the loop starts or is left out. *)
Definition repetitionRun (e : Event) (eager : bool) (tick : Z) (fuel : nat)
  : option ProcessResult :=
  match Schedule 0 1%positive (NewScheduler ∅) (Some e) with
  | ScheduleOk s e' =>
      let w := mkWorld s 0 [] in
      let w := if eager then runWorker w (Some e') else w in
      Some (Process fuel testConfig tick w)
  | _ => None
  end.

(** The states of the scheduler while one repeated event goes through the
    loop.  [u] is the UUID of the event, [every] its [RepeatEvery]. *)

Definition pending (st : EventState) : Prop :=
  st = EventStateWaiting \/ st = EventStateProcessable.

(** The queued copy of the repeated event with [n] repetitions left. *)
Definition repeating (u : UUID) (every n : Z) (x : Event) : Prop :=
  EvUUID x = u /\ DependOn x = []
  /\ Action x = Some (ActSetState EventStateDone)
  /\ RepeatEvery x = every /\ RepeatTimes x = n /\ Sched x = true.

(** The event waits in the queue for its next run. *)
Definition Ready (u : UUID) (every n : Z) (w : World) : Prop :=
  exists x y,
    q (wSched w) = [x] /\ events (wSched w) = {[u := y]}
    /\ state (wSched w) = SchedulerStateRunning
    /\ CurrentRunningActions (wSched w) = 0
    /\ repeating u every n x /\ pending (State x) /\ pending (State y).

(** The action has run; the map holds the event as Done. *)
Definition Finished (u : UUID) (every n : Z) (w : World) : Prop :=
  exists x y,
    q (wSched w) = [x] /\ events (wSched w) = {[u := y]}
    /\ state (wSched w) = SchedulerStateRunning
    /\ CurrentRunningActions (wSched w) = 0
    /\ repeating u every n x /\ State y = EventStateDone.


(** [k] iterations of the loop lead from [w] to [w'] without returning. *)
Inductive Steps (config : ProcessConfig) (tick : Z)
  : nat -> World -> World -> Prop :=
| Steps_O w : Steps config tick O w w
| Steps_S k w s spawned w' :
    processIteration config (wNow w) (wSched w) = IterContinue s spawned ->
    Steps config tick k
      (mkWorld (wSched (runWorker (mkWorld s (wNow w) (wRuns w)) spawned))
         (wNow w + tick)
         (wRuns (runWorker (mkWorld s (wNow w) (wRuns w)) spawned)))
      w' ->
    Steps config tick (S k) w w'.


(** ** Further properties of the scheduler, the dispatcher and the plugins *)

(** The scheduler after [Schedule] of [firstEvent] at time 0. *)
Definition afterFirst : Scheduler :=
  match Schedule 0 1%positive (NewScheduler ∅) (Some firstEvent) with
  | ScheduleOk s _ => s
  | _ => NewScheduler ∅
  end.


(** Every entry of the map is stored under the UUID of its event. *)
Definition keyed (m : gmap N Event) : Prop :=
  forall k e, m !! k = Some e -> EvUUID e = k.

(** Does the event depend on [uuid]? *)
Definition dependsOn (uuid : UUID) (e : Event) : bool :=
  bool_decide (uuid ∈ DependOn e).

(** The entries that [removeEventAndDeps] deletes while it ranges over the
    map: those whose event depends on [uuid]. *)
Definition dropDependent (uuid : UUID) (m : gmap N Event) (kv : N * Event)
  : gmap N Event :=
  if dependsOn uuid kv.2 then delete kv.1 m else m.

(** A chain of three events: [chainB] depends on [chainA], [chainC] on
    [chainB]. *)
Definition chainA : Event :=
  mkEvent 1%N 0%N "a" 0 EventTypeCustom EventStateWaiting []
    None DataOther 1 0 0 0 true.

Definition chainB : Event :=
  mkEvent 2%N 0%N "b" 0 EventTypeCustom EventStateProcessable [1%N]
    None DataOther 1 0 0 0 true.

Definition chainC : Event :=
  mkEvent 3%N 0%N "c" 0 EventTypeCustom EventStateProcessable [2%N]
    None DataOther 1 0 0 0 true.

Definition chain : Scheduler :=
  mkScheduler [chainA; chainB; chainC]
    (<[1%N := chainA]> (<[2%N := chainB]> (<[3%N := chainC]> ∅)))
    (mkStats 3 0 0 0 0 0 0 0) 0 SchedulerStateRunning ∅.

(** All the counters are values of a Go int. *)
Definition statsInRange (x : schedulerStats) : Prop :=
  GoInt.in_range (TotalEventsDone x) /\ GoInt.in_range (TotalEventsCancelled x)
  /\ GoInt.in_range (TotalEventsError x) /\ GoInt.in_range (TotalEventsInProcess x)
  /\ GoInt.in_range (TotalEventsWaiting x) /\ GoInt.in_range (TotalEventsProcessable x).

(** An event repeated for ever: every 100 milliseconds, [RepeatTimes = -1]. *)
Definition foreverEvent : Event :=
  mkEvent 7%N 0%N "forever" 0 EventTypeCustom EventStateWaiting []
    (Some (ActSetState EventStateDone)) DataOther 1 100 (-1) 0 false.

(** The scheduler after [Schedule] of [foreverEvent] at time 0. *)
Definition foreverWorld : World :=
  match Schedule 0 1%positive (NewScheduler ∅) (Some foreverEvent) with
  | ScheduleOk s _ => mkWorld s 0 []
  | _ => mkWorld (NewScheduler ∅) 0 []
  end.

(** The scheduler in which [chainA] has failed. *)
Definition chainFailed : Scheduler :=
  mkScheduler [chainA; chainB]
    (<[1%N := set_State chainA EventStateError]> (<[2%N := chainB]> ∅))
    (mkStats 2 0 0 0 1 0 0 0) 0 SchedulerStateRunning ∅.

(** The state in which [CancelAll] leaves a scheduler whose events have no
    dependencies: every queued event is in the map, once in the queue, and
    every event of the map is Cancelled. *)
Definition allCancelled (s : Scheduler) : Prop :=
  state s = SchedulerStateRunning
  /\ keyed (events s)
  /\ NoDup (EvUUID <$> q s)
  /\ (forall x, x ∈ q s -> is_Some (events s !! EvUUID x))
  /\ (forall k e, events s !! k = Some e ->
        State e = EventStateCancelled /\ DependOn e = []).

(** Two events without dependencies, stored and queued. *)
Definition loneA : Event :=
  mkEvent 1%N 0%N "a" 0 EventTypeCustom EventStateWaiting []
    (Some (ActSetState EventStateDone)) DataOther 1 0 0 0 true.

Definition loneB : Event :=
  mkEvent 2%N 0%N "b" 0 EventTypeCustom EventStateWaiting []
    (Some (ActSetState EventStateDone)) DataOther 2 0 0 0 true.

Definition twoLone : Scheduler :=
  mkScheduler [loneA; loneB] (<[1%N := loneA]> (<[2%N := loneB]> ∅))
    (mkStats 2 0 0 0 0 0 0 0) 0 SchedulerStateRunning ∅.

(** Is the event one that [GetSessionStats sid itmType] looks at, and in
    state [st]? *)
Definition counted (sid : UUID) (itmType : EventType) (st : EventState)
    (event : Event) : bool :=
  bool_decide ((Type_ event = itmType \/ itmType = EventTypeUnknown)
               /\ SessionID event = sid /\ State event = st).

(** The number of events of the map that are counted in state [st]. *)
Definition countedIn (s : Scheduler) (sid : UUID) (itmType : EventType)
    (st : EventState) : nat :=
  length (filter (fun kv => counted sid itmType st kv.2 = true)
            (map_to_list (events s))).

(** A scheduler with three events: two of session 9, one InProcess and one
    Waiting, and a Done event of session 8. *)
Definition threeSessions : Scheduler :=
  mkScheduler []
    (<[1%N := mkEvent 1%N 9%N "a" 0 EventTypeAsset EventStateInProcess []
                None DataOther 1 0 0 0 true]>
       (<[2%N := mkEvent 2%N 9%N "b" 0 EventTypeCustom EventStateWaiting []
                   None DataOther 1 0 0 0 true]>
          (<[3%N := mkEvent 3%N 8%N "c" 0 EventTypeAsset EventStateDone []
                      None DataOther 1 0 0 0 true]> ∅)))
    (mkStats 3 1 0 1 0 1 0 0) 1 SchedulerStateRunning ∅.

(** The worker that an iteration starts, if any. *)
Definition spawnedBy (r : IterResult) : option Event :=
  match r with
  | IterContinue _ spawned => spawned
  | IterReturn _ spawned => spawned
  | IterPanic => None
  end.

(** A scheduler whose only event has been InProcess since time 0, with a
    timeout at 60 seconds, and one running action. *)
Definition runningA : Event :=
  mkEvent 1%N 0%N "a" 0 EventTypeCustom EventStateInProcess []
    (Some ActNop) DataOther 1 0 0 (60 * second) true.

Definition oneRunning : Scheduler :=
  mkScheduler [runningA] {[ 1%N := runningA ]}
    (mkStats 1 0 0 1 0 0 0 0) 1 SchedulerStateRunning ∅.

(** The number of work items waiting in all the pipelines. *)
Definition totalQueued (d : Dis) : nat :=
  map_fold (fun _ (l : list EventDataElement) n => (length l + n)%nat) 0%nat (dQueues d).

(** The number of calls of a sequence that return no error, and the number
    of those whose event belongs to session [sid]. *)
Definition succeeds (reg : Registry) (d : Dis) (oe : option DEvent) : bool :=
  match DispatchEvent reg d oe with
  | DispatchOk _ => true
  | _ => false
  end.

Definition inSession (sid : N) (oe : option DEvent) : bool :=
  match oe with
  | Some e => bool_decide (DSession e = sid)
  | None => false
  end.

Fixpoint dispatched (reg : Registry) (d : Dis) (es : list (option DEvent)) : nat :=
  match es with
  | [] => 0
  | oe :: rest =>
      ((if succeeds reg d oe then 1 else 0) + dispatched reg (dispatchState reg d oe) rest)%nat
  end.

Fixpoint dispatchedIn (reg : Registry) (sid : N) (d : Dis) (es : list (option DEvent))
  : nat :=
  match es with
  | [] => 0
  | oe :: rest =>
      ((if succeeds reg d oe && inSession sid oe then 1 else 0)
       + dispatchedIn reg sid (dispatchState reg d oe) rest)%nat
  end.

(** A second session with an empty cache, and the event of [ev0]'s asset in
    that session. *)
Definition dis2 : Dis := mkDis (<[2%N := emptySession]> {[ 1%N := emptySession ]}) ∅ [].

Definition ev0' : DEvent := mkDEvent "example.com" (Some storedExample) 2%N.

(** The message of a call. *)
Definition queryOf (name : string) (qtype : Z) : Query :=
  if qtype =? TypePTR then ReverseMsg name else QueryMsg name qtype.

(** An environment for the examples: the pool answers as [flakyResolvers]
    does, every response carries the question [www.example.com.], whose
    registered domain is [example.com], nothing is a wildcard, every answer
    is an A record of [WWW.Example.COM], and [ToLower] is that of ASCII
    letters on the strings that occur. *)
Definition exampleEnv : QueryEnv :=
  mkQueryEnv (fun _ => flakyResolvers) (fun _ _ => false)
    (fun _ => Some "www.example.com.")
    (fun _ => "www.example.com")
    (fun _ => Some "example.com")
    (fun resp => map (fun data => mkExtractedAnswer "WWW.Example.COM" 1 data) (Answer resp))
    (fun ans _ => ans)
    (fun str => if decide (str = "WWW.Example.COM") then "www.example.com" else str).

(** The string in which the runes before position [i] are all [z], the
    rune at [i] is [c], and the rest is that of [s]. *)
Definition overwritten {rune : Type} (z : rune) (s : list rune) (i : nat) (c : rune)
  : list rune :=
  replicate i z ++ c :: drop (S i) s.

(** The index in [s] of the rune at position [j] of the array after [k]
    deletions. *)
Definition shiftedIndex (n k j : nat) : nat :=
  (n - 1) `min` (j + ((j + 1) `min` k)).

(** The array of [rstr] after [k] iterations on the string [s]. *)
Definition shifted {rune : Type} (s : list rune) (k : nat) (rstr : list rune) : Prop :=
  length rstr = length s
  /\ forall j, (j < length s)%nat -> rstr !! j = s !! shiftedIndex (length s) k j.

(** The string that iteration [i] returns. *)
Definition deletionAt {rune : Type} (s : list rune) (i : nat) (del : list rune) : Prop :=
  length del = (length s - 1)%nat
  /\ forall j, (j < length s - 1)%nat -> del !! j = s !! shiftedIndex (length s) (S i) j.

(** Does the string contain a ["."]? *)
Fixpoint hasDot (s : string) : bool :=
  match s with
  | EmptyString => false
  | String c s' => Ascii.eqb c "." || hasDot s'
  end.

(** The plugins that are not [nil], up to and including the first whose
    [Start] fails. *)
Fixpoint attempted (funcs : list (option Plugin)) : list Plugin :=
  match funcs with
  | [] => []
  | None :: rest => attempted rest
  | Some p :: rest =>
      match StartError p with
      | Some _ => [p]
      | None => p :: attempted rest
      end
  end.

(** The first error among the plugins that are started. *)
Definition firstError (funcs : list (option Plugin)) : option string :=
  match last (attempted funcs) with
  | Some p => StartError p
  | None => None
  end.

(** * Properties *)

(** ** Go integers *)

Module GoIntFacts.

Import GoInt.

Lemma wrap_in_range z : in_range (wrap z).
Proof.
  unfold in_range, wrap, min_int, max_int.
  pose proof (Z.mod_pos_bound (z + 2 ^ 63) (2 ^ 64) ltac:(lia)). lia.
Qed.

Lemma wrap_small z : in_range z -> wrap z = z.
Proof.
  unfold in_range, wrap, min_int, max_int. intros H.
  rewrite Z.mod_small by lia. lia.
Qed.

Lemma wrap_eqm z : eqm (wrap z) z.
Proof.
  unfold eqm, wrap.
  replace ((z + 2 ^ 63) mod 2 ^ 64 - 2 ^ 63)
    with ((z + 2 ^ 63) mod 2 ^ 64 + (- 2 ^ 63)) by lia.
  rewrite Zplus_mod_idemp_l. f_equal. lia.
Qed.

Lemma eqm_refl a : eqm a a.
Proof. reflexivity. Qed.

Lemma eqm_sym a b : eqm a b -> eqm b a.
Proof. unfold eqm. congruence. Qed.

Lemma eqm_trans a b c : eqm a b -> eqm b c -> eqm a c.
Proof. unfold eqm. congruence. Qed.

Lemma eqm_add a a' b b' : eqm a a' -> eqm b b' -> eqm (a + b) (a' + b').
Proof.
  unfold eqm. intros Ha Hb.
  rewrite (Zplus_mod a b), (Zplus_mod a' b'). congruence.
Qed.

Lemma incr_eqm a : eqm (incr a) (a + 1).
Proof. apply wrap_eqm. Qed.

Lemma decr_eqm a : eqm (decr a) (a - 1).
Proof. apply wrap_eqm. Qed.

Lemma add_eqm a b : eqm (add a b) (a + b).
Proof. apply wrap_eqm. Qed.

Lemma eqm_in_range a b : in_range a -> in_range b -> eqm a b -> a = b.
Proof.
  unfold in_range, eqm, min_int, max_int. intros Ha Hb H.
  assert (Hd : (a - b) mod 2 ^ 64 = 0).
  { rewrite Zminus_mod, H, Z.sub_diag. reflexivity. }
  apply Z.mod_divide in Hd; [|lia]. destruct Hd as [k Hk].
  assert (k = 0) by nia. subst k. lia.
Qed.

End GoIntFacts.

(** ** dnsQuery *)

Lemma dnsQueryLoop_skip (r : Resolvers) (k left num : nat) :
  (forall j, (j < k)%nat -> skipped (r (num + j)%nat)) ->
  dnsQueryLoop r (k + left) num = dnsQueryLoop r left (num + k).
Proof.
  revert num. induction k as [|k IH]; intros num Hskip.
  - simpl. f_equal. lia.
  - simpl. pose proof (Hskip 0%nat ltac:(lia)) as H0.
    rewrite Nat.add_0_r in H0. unfold skipped in H0.
    assert (Hnext : dnsQueryLoop r (k + left) (S num)
                    = dnsQueryLoop r left (num + S k)).
    { rewrite IH.
      - f_equal. lia.
      - intros j Hj. replace (S num + j)%nat with (num + S j)%nat by lia.
        apply Hskip. lia. }
    destruct (r num) as [resp|]; [|exact Hnext].
    destruct (MsgRcode resp); try contradiction. exact Hnext.
Qed.

Lemma dnsQueryLoop_decide (r : Resolvers) (left num : nat) (resp : Msg) :
  r num = Some resp -> ~ skipped (Some resp) ->
  dnsQueryLoop r (S left) num = decided resp (S num).
Proof.
  intros Hr Hns. simpl. rewrite Hr. unfold decided, skipped in *.
  destruct (MsgRcode resp); try reflexivity. tauto.
Qed.

Lemma dnsQueryLoop_queries (r : Resolvers) (left num : nat) :
  (qQueries (dnsQueryLoop r left num) <= num + left)%nat.
Proof.
  revert num. induction left as [|left IH]; intros num; simpl.
  - lia.
  - specialize (IH (S num)).
    destruct (r num) as [resp|]; [|lia].
    destruct (MsgRcode resp); [destruct (Answer resp)| |]; simpl; lia.
Qed.

(** C8.  [dnsQuery] with 50 attempts, as [PerformQuery] calls it, makes at
    most 50 queries.  The first attempt [k] that is neither a network error
    nor a response with another code decides the result after [k + 1]
    queries: a name error gives the error "name does not exist", a success
    without answers gives "no record of this type", a success with answers
    gives the message and no error.  The attempts before it, network errors
    among them, are skipped without a trace, and when all 50 attempts are
    skipped the result is [(nil, nil)]. *)
Theorem dnsQuery_retry_core (r : Resolvers) :
  (qQueries (dnsQuery r performQueryAttempts) <= 50)%nat
  /\ (forall (k : nat) (resp : Msg),
        (k < 50)%nat ->
        (forall j, (j < k)%nat -> skipped (r j)) ->
        r k = Some resp ->
        (MsgRcode resp = RcodeNameError ->
           dnsQuery r performQueryAttempts
           = mkQueryResult None (Some errNameNotExist) (S k))
        /\ (MsgRcode resp = RcodeSuccess -> Answer resp = [] ->
           dnsQuery r performQueryAttempts
           = mkQueryResult None (Some errNoRecord) (S k))
        /\ (MsgRcode resp = RcodeSuccess -> Answer resp <> [] ->
           dnsQuery r performQueryAttempts
           = mkQueryResult (Some resp) None (S k)))
  /\ (forall (k : nat), (k < 50)%nat -> r k = None ->
        (forall j, (j < k)%nat -> skipped (r j)) ->
        dnsQuery r performQueryAttempts
        = dnsQueryLoop r (50 - S k) (S k))
  /\ ((forall j, (j < 50)%nat -> skipped (r j)) ->
        dnsQuery r performQueryAttempts = mkQueryResult None None 50).
Proof.
  unfold dnsQuery, performQueryAttempts.
  change (Z.to_nat 50) with 50%nat.
  split; [|split; [|split]].
  - apply (dnsQueryLoop_queries r 50 0).
  - intros k resp Hk Hskip Hr.
    assert (Hloop : forall res, ~ skipped (Some resp) ->
              decided resp (S k) = res -> dnsQueryLoop r 50 0 = res).
    { intros res Hns <-.
      replace 50%nat with (k + S (50 - S k))%nat by lia.
      rewrite dnsQueryLoop_skip by (intros j Hj; apply Hskip; exact Hj).
      apply dnsQueryLoop_decide; assumption. }
    split; [|split].
    + intros Hc. apply Hloop; unfold skipped, decided; rewrite Hc; tauto.
    + intros Hc Ha. apply Hloop; unfold skipped, decided; rewrite Hc;
        [tauto | rewrite Ha; reflexivity].
    + intros Hc Ha. apply Hloop; unfold skipped, decided; rewrite Hc;
        [tauto | destruct (Answer resp); [contradiction | reflexivity]].
  - intros k Hk Hr Hskip.
    replace 50%nat with (S k + (50 - S k))%nat at 1 by lia.
    rewrite dnsQueryLoop_skip; [reflexivity|].
    intros j Hj. simpl. destruct (decide (j = k)) as [->|Hne].
    + rewrite Hr. exact I.
    + apply Hskip. lia.
  - intros Hskip.
    replace 50%nat with (50 + 0)%nat at 1 by lia.
    rewrite dnsQueryLoop_skip by (intros j Hj; apply Hskip; exact Hj).
    reflexivity.
Qed.

Lemma dnsQuery_retry_core_witness :
  dnsQuery flakyResolvers performQueryAttempts
  = mkQueryResult (Some (mkMsg RcodeSuccess ["93.184.216.34"])) None 4.
Proof.
  destruct (dnsQuery_retry_core flakyResolvers) as (_ & Hdec & _ & _).
  destruct (Hdec 3%nat (mkMsg RcodeSuccess ["93.184.216.34"])) as (_ & _ & H).
  - lia.
  - intros j Hj.
    destruct j as [|[|[|j]]]; simpl; try exact I. lia.
  - reflexivity.
  - apply H; [reflexivity | discriminate].
Defined.

(** ** The session cache *)

Lemma seen_lookup (c : gmap string DbAsset) (a : OAMAsset) :
  Cache.seen c a = bool_decide (is_Some (c !! AssetKey a)).
Proof.
  unfold Cache.seen, Cache.GetAsset.
  destruct (c !! AssetKey a) as [p|] eqn:E.
  - symmetry. apply bool_decide_eq_true. eauto.
  - symmetry. apply bool_decide_eq_false. intros [x Hx]. discriminate.
Qed.

Lemma seen_same_key (c : gmap string DbAsset) (a a' : OAMAsset) :
  AssetKey a = AssetKey a' -> Cache.seen c a = Cache.seen c a'.
Proof. intros H. rewrite !seen_lookup, H. reflexivity. Qed.

Lemma seen_SetAsset (c : gmap string DbAsset) (p : DbAsset) :
  Cache.seen (Cache.SetAsset c p) (DbAssetOf p) = true.
Proof.
  rewrite seen_lookup. apply bool_decide_eq_true. unfold Cache.SetAsset.
  destruct (c !! AssetKey (DbAssetOf p)) as [x|] eqn:E.
  - rewrite E. eauto.
  - rewrite lookup_insert_eq. eauto.
Qed.

Lemma seen_SetAsset_mono (c : gmap string DbAsset) (p : DbAsset) (a : OAMAsset) :
  Cache.seen c a = true -> Cache.seen (Cache.SetAsset c p) a = true.
Proof.
  rewrite !seen_lookup. intros H. apply bool_decide_eq_true in H.
  apply bool_decide_eq_true. unfold Cache.SetAsset.
  destruct (c !! AssetKey (DbAssetOf p)) as [x|] eqn:E; [exact H|].
  destruct (decide (AssetKey (DbAssetOf p) = AssetKey a)) as [Heq|Hne].
  - rewrite Heq, lookup_insert_eq. eauto.
  - rewrite lookup_insert_ne by exact Hne. exact H.
Qed.

(** ** DispatchEvent *)

Lemma sessionSeen_insert (m : gmap N Session) (sid sid' : N)
    (sess sess' : Session) (a : OAMAsset) qs cs qs' cs' :
  m !! sid' = Some sess ->
  (forall x, Cache.seen (SessCache sess) x = true ->
             Cache.seen (SessCache sess') x = true) ->
  sessionSeen (mkDis m qs cs) sid a = true ->
  sessionSeen (mkDis (<[sid' := sess']> m) qs' cs') sid a = true.
Proof.
  unfold sessionSeen. simpl. intros Hs Hmono H.
  destruct (decide (sid' = sid)) as [->|Hne].
  - rewrite lookup_insert_eq. rewrite Hs in H. auto.
  - rewrite lookup_insert_ne by exact Hne. exact H.
Qed.

(** A call never removes an asset from the cache of a session. *)
Lemma dispatchState_seen (reg : Registry) (d : Dis) (oe : option DEvent)
    (sid : N) (a : OAMAsset) :
  sessionSeen d sid a = true ->
  sessionSeen (dispatchState reg d oe) sid a = true.
Proof.
  intros H. unfold dispatchState, DispatchEvent.
  destruct oe as [e|]; [|exact H].
  destruct (DAsset e) as [p|]; [|exact H].
  destruct (dSessions d !! DSession e) as [sess|] eqn:Hs; [|exact H].
  destruct (Cache.seen (SessCache sess) (DbAssetOf p)); [exact H|].
  destruct d as [m qs cs]. cbn [dSessions dQueues dCompleted] in *.
  destruct (GetPipeline reg (AssetType (DbAssetOf p))) as [hs|err].
  - rewrite insert_insert_eq.
    eapply sessionSeen_insert; [exact Hs| |exact H].
    cbn. auto using seen_SetAsset_mono.
  - eapply sessionSeen_insert; [exact Hs| |exact H].
    cbn. auto using seen_SetAsset_mono.
Qed.

Lemma dispatchAll_seen (reg : Registry) (es : list (option DEvent)) (d : Dis)
    (sid : N) (a : OAMAsset) :
  sessionSeen d sid a = true ->
  sessionSeen (dispatchAll reg d es) sid a = true.
Proof.
  revert d. induction es as [|oe es IH]; intros d H; [exact H|].
  simpl. apply IH. apply dispatchState_seen. exact H.
Qed.

(** A duplicate is refused and nothing changes. *)
Lemma DispatchEvent_duplicate (reg : Registry) (d : Dis) (e : DEvent)
    (p : DbAsset) :
  DAsset e = Some p ->
  sessionSeen d (DSession e) (DbAssetOf p) = true ->
  DispatchEvent reg d (Some e) = DispatchError errScheduled d.
Proof.
  unfold sessionSeen, DispatchEvent. intros -> H.
  destruct (dSessions d !! DSession e) as [sess|]; [|discriminate].
  rewrite H. reflexivity.
Qed.

Lemma DispatchEvent_fresh (reg : Registry) (d : Dis) (e : DEvent)
    (p : DbAsset) (sess : Session) :
  DAsset e = Some p ->
  dSessions d !! DSession e = Some sess ->
  Cache.seen (SessCache sess) (DbAssetOf p) = false ->
  DispatchEvent reg d (Some e) =
    match GetPipeline reg (AssetType (DbAssetOf p)) with
    | inl _ => DispatchOk (afterEnqueue d e p sess)
    | inr err => DispatchError err (afterCacheInsert d e p sess)
    end.
Proof.
  intros Ha Hs Hseen. unfold DispatchEvent. rewrite Ha, Hs, Hseen.
  destruct (GetPipeline reg (AssetType (DbAssetOf p))); [|reflexivity].
  unfold afterEnqueue. cbn [dSessions dQueues dCompleted].
  rewrite insert_insert_eq. reflexivity.
Qed.

Lemma afterCacheInsert_seen (d : Dis) (e : DEvent) (p : DbAsset) (sess : Session) :
  sessionSeen (afterCacheInsert d e p sess) (DSession e) (DbAssetOf p) = true.
Proof.
  unfold sessionSeen, afterCacheInsert. cbn.
  rewrite lookup_insert_eq. cbn. apply seen_SetAsset.
Qed.

Lemma afterEnqueue_seen (d : Dis) (e : DEvent) (p : DbAsset) (sess : Session) :
  sessionSeen (afterEnqueue d e p sess) (DSession e) (DbAssetOf p) = true.
Proof.
  unfold sessionSeen, afterEnqueue. cbn.
  rewrite lookup_insert_eq. cbn. apply seen_SetAsset.
Qed.

(** Every later call with the same asset in the same session is a
    duplicate, whatever was dispatched in between. *)
Lemma later_dispatch_refused (reg : Registry) (d1 : Dis) (sid : N)
    (a : OAMAsset) (es : list (option DEvent)) (e' : DEvent) (p' : DbAsset) :
  sessionSeen d1 sid a = true ->
  DAsset e' = Some p' ->
  AssetKey (DbAssetOf p') = AssetKey a ->
  DSession e' = sid ->
  DispatchEvent reg (dispatchAll reg d1 es) (Some e')
  = DispatchError errScheduled (dispatchAll reg d1 es).
Proof.
  intros Hseen Ha Hkey Hsid.
  apply DispatchEvent_duplicate with (p := p'); [exact Ha|].
  rewrite Hsid.
  pose proof (dispatchAll_seen reg es d1 sid a Hseen) as H.
  unfold sessionSeen in *.
  destruct (dSessions (dispatchAll reg d1 es) !! sid); [|discriminate].
  rewrite (seen_same_key _ _ a Hkey). exact H.
Qed.

(** C1, as the code has it.  When the asset is not in the cache of the
    session and the registry has a pipeline for its type, [DispatchEvent]
    succeeds and appends one work item to that pipeline; from then on every
    [DispatchEvent] of an event with the same asset in the same session,
    whatever was dispatched in between, fails with "this event has been
    scheduled previously" and leaves the dispatcher as it was.  [Schedule]
    of an event whose data is an asset that the cache does not hold succeeds
    as well; it reads the cache and never writes it. *)
Theorem dispatch_once_per_session :
  (forall (reg : Registry) (d : Dis) (e : DEvent) (p : DbAsset)
          (sess : Session) (hs : list string),
     DAsset e = Some p ->
     dSessions d !! DSession e = Some sess ->
     Cache.seen (SessCache sess) (DbAssetOf p) = false ->
     GetPipeline reg (AssetType (DbAssetOf p)) = inl hs ->
     exists d1,
       DispatchEvent reg d (Some e) = DispatchOk d1
       /\ pipelineQueue d1 (AssetType (DbAssetOf p))
          = pipelineQueue d (AssetType (DbAssetOf p)) ++ [NewEventDataElement e]
       /\ forall (es : list (option DEvent)) (e' : DEvent) (p' : DbAsset),
            DAsset e' = Some p' ->
            AssetKey (DbAssetOf p') = AssetKey (DbAssetOf p) ->
            DSession e' = DSession e ->
            DispatchEvent reg (dispatchAll reg d1 es) (Some e')
            = DispatchError errScheduled (dispatchAll reg d1 es))
  /\ (forall (now : Z) (fresh : positive) (s : Scheduler) (ev : Event)
             (a : OAMAsset) (ss : Session),
        Data ev = DataAsset a ->
        mgr s !! SessionID ev = Some ss ->
        Cache.seen (SessCache ss) a = false ->
        exists s' ev',
          Schedule now fresh s (Some ev) = ScheduleOk s' ev'
          /\ mgr s' = mgr s).
Proof.
  split.
  - intros reg d e p sess hs Ha Hs Hseen Hp.
    exists (afterEnqueue d e p sess). split; [|split].
    + rewrite (DispatchEvent_fresh reg d e p sess Ha Hs Hseen), Hp. reflexivity.
    + unfold pipelineQueue at 1. unfold afterEnqueue. cbn [dQueues].
      rewrite lookup_insert_eq. reflexivity.
    + intros es e' p' Ha' Hkey Hsid.
      apply later_dispatch_refused with (sid := DSession e) (a := DbAssetOf p) (p' := p'); auto.
      apply afterEnqueue_seen.
  - intros now fresh s ev a ss Hd Hs Hseen.
    unfold Schedule. rewrite Hd, Hs, Hseen. eexists _, _. split; reflexivity.
Qed.

Lemma dispatch_once_per_session_witness :
  (exists d1,
     DispatchEvent (specRegistry ∅) dis0 (Some ev0) = DispatchOk d1
     /\ DispatchEvent (specRegistry ∅) d1 (Some ev0)
        = DispatchError errScheduled d1)
  /\ (exists s' ev', Schedule 0 1%positive sched0 (Some assetEvent)
                     = ScheduleOk s' ev').
Proof.
  destruct dispatch_once_per_session as [Hd Hs]. split.
  - destruct (Hd (specRegistry ∅) dis0 ev0 storedExample emptySession [])
      as (d1 & H1 & _ & H2); try reflexivity.
    exists d1. split; [exact H1|].
    apply (H2 [] ev0 storedExample); reflexivity.
  - destruct (Hs 0 1%positive sched0 assetEvent exampleCom emptySession)
      as (s' & ev' & H & _); try reflexivity.
    exists s', ev'. exact H.
Defined.

(** C1 as stated fails: with a registry whose lookup fails for the asset
    type, the first [DispatchEvent] of an asset returns the lookup error,
    so it does not succeed, nothing is enqueued, and the second one is
    refused as a duplicate: no call succeeds for that asset.  On the side of
    the scheduler, [Schedule] does not record the asset: scheduling the same
    event a second time succeeds again. *)
Lemma first_dispatch_may_fail :
  DispatchEvent (strictRegistry ∅) dis0 (Some ev0)
  = DispatchError "no handlers registered for the asset type"
      (afterCacheInsert dis0 ev0 storedExample emptySession)
  /\ DispatchEvent (strictRegistry ∅)
       (afterCacheInsert dis0 ev0 storedExample emptySession) (Some ev0)
     = DispatchError errScheduled
         (afterCacheInsert dis0 ev0 storedExample emptySession)
  /\ pipelineQueue (afterCacheInsert dis0 ev0 storedExample emptySession) "FQDN"
     = []
  /\ exists s1 e1 s2 e2,
       Schedule 0 1%positive sched0 (Some assetEvent) = ScheduleOk s1 e1
       /\ Data e1 = DataAsset exampleCom
       /\ Schedule 1 2%positive s1 (Some e1) = ScheduleOk s2 e2.
Proof.
  split; [|split; [|split]].
  - reflexivity.
  - apply DispatchEvent_duplicate with (p := storedExample); [reflexivity|].
    apply afterCacheInsert_seen.
  - reflexivity.
  - eexists _, _, _, _. split; [reflexivity|]. split; reflexivity.
Qed.

(** C9, as the code has it.  When the pipeline lookup yields a pipeline
    without handlers (the registry of the specification does so for a type
    without handlers), [DispatchEvent] returns no error, but it does not
    complete the event: the work item is appended to the input queue of
    that pipeline and [WorkItemsTotal] is incremented, as for any other
    pipeline, while the completion queue and [WorkItemsCompleted] stay as
    they were. *)
Theorem dispatch_empty_pipeline_enqueues :
  (forall (handlers : gmap string (list string)) (assetType : string),
     handlers !! assetType = None ->
     GetPipeline (specRegistry handlers) assetType = inl [])
  /\ (forall (reg : Registry) (d : Dis) (e : DEvent) (p : DbAsset)
             (sess : Session),
        DAsset e = Some p ->
        dSessions d !! DSession e = Some sess ->
        Cache.seen (SessCache sess) (DbAssetOf p) = false ->
        GetPipeline reg (AssetType (DbAssetOf p)) = inl [] ->
        exists d1 sess1,
          DispatchEvent reg d (Some e) = DispatchOk d1
          /\ pipelineQueue d1 (AssetType (DbAssetOf p))
             = pipelineQueue d (AssetType (DbAssetOf p)) ++ [NewEventDataElement e]
          /\ dCompleted d1 = dCompleted d
          /\ dSessions d1 !! DSession e = Some sess1
          /\ WorkItemsTotal (SessStats sess1)
             = GoInt.incr (WorkItemsTotal (SessStats sess))
          /\ WorkItemsCompleted (SessStats sess1)
             = WorkItemsCompleted (SessStats sess)).
Proof.
  split.
  - intros handlers assetType H. cbn. rewrite H. reflexivity.
  - intros reg d e p sess Ha Hs Hseen Hp.
    eexists (afterEnqueue d e p sess), _. split; [|split; [|split; [|split; [|split]]]].
    + rewrite (DispatchEvent_fresh reg d e p sess Ha Hs Hseen), Hp. reflexivity.
    + unfold pipelineQueue at 1. unfold afterEnqueue. cbn [dQueues].
      rewrite lookup_insert_eq. reflexivity.
    + reflexivity.
    + unfold afterEnqueue. cbn [dSessions]. apply lookup_insert_eq.
    + reflexivity.
    + reflexivity.
Qed.

Lemma dispatch_empty_pipeline_enqueues_witness :
  exists d1 sess1,
    DispatchEvent (specRegistry ∅) dis0 (Some ev0) = DispatchOk d1
    /\ pipelineQueue d1 "FQDN" = [NewEventDataElement ev0]
    /\ dCompleted d1 = []
    /\ dSessions d1 !! 1%N = Some sess1
    /\ WorkItemsTotal (SessStats sess1) = 1
    /\ WorkItemsCompleted (SessStats sess1) = 0.
Proof.
  destruct dispatch_empty_pipeline_enqueues as [Hreg Hd].
  pose proof (Hreg ∅ "FQDN" (lookup_empty _)) as Hp.
  destruct (Hd (specRegistry ∅) dis0 ev0 storedExample emptySession
              eq_refl eq_refl eq_refl Hp)
    as (d1 & sess1 & H1 & H2 & H3 & H4 & H5 & H6).
  exists d1, sess1. repeat split; assumption.
Defined.

(** C9 as stated fails: for an asset type without handlers the event is
    not completed by [DispatchEvent].  After the call the work item waits in
    the pipeline queue, the completion queue is empty, and draining it
    leaves [WorkItemsCompleted] at 0 while [WorkItemsTotal] is 1. *)
Lemma dispatch_without_handlers_not_completed :
  GetPipeline (specRegistry ∅) "FQDN" = inl []
  /\ exists d1,
       DispatchEvent (specRegistry ∅) dis0 (Some ev0) = DispatchOk d1
       /\ pipelineQueue d1 "FQDN" = [NewEventDataElement ev0]
       /\ dCompleted d1 = []
       /\ (SessStats <$> dSessions (collectEvents d1) !! 1%N)
          = Some (mkSessionStats 0 1).
Proof.
  split; [reflexivity|].
  eexists. split; [reflexivity|]. repeat split; vm_compute; reflexivity.
Qed.

(** C10.  When the cache test has passed and the pipeline lookup fails,
    [DispatchEvent] returns the lookup error; the asset stays in the cache
    of the session, the session counters and every queue are as before
    (nothing was enqueued, [WorkItemsTotal] was not incremented), and every
    later [DispatchEvent] of the same asset in the same session is refused
    with "this event has been scheduled previously". *)
Theorem dispatch_not_atomic_on_error
    (reg : Registry) (d : Dis) (e : DEvent) (p : DbAsset) (sess : Session)
    (err : string) :
  DAsset e = Some p ->
  dSessions d !! DSession e = Some sess ->
  Cache.seen (SessCache sess) (DbAssetOf p) = false ->
  GetPipeline reg (AssetType (DbAssetOf p)) = inr err ->
  exists d1 sess1,
    DispatchEvent reg d (Some e) = DispatchError err d1
    /\ sessionSeen d1 (DSession e) (DbAssetOf p) = true
    /\ dSessions d1 !! DSession e = Some sess1
    /\ SessStats sess1 = SessStats sess
    /\ dQueues d1 = dQueues d
    /\ dCompleted d1 = dCompleted d
    /\ forall (es : list (option DEvent)) (e' : DEvent) (p' : DbAsset),
         DAsset e' = Some p' ->
         AssetKey (DbAssetOf p') = AssetKey (DbAssetOf p) ->
         DSession e' = DSession e ->
         DispatchEvent reg (dispatchAll reg d1 es) (Some e')
         = DispatchError errScheduled (dispatchAll reg d1 es).
Proof.
  intros Ha Hs Hseen Hp.
  eexists (afterCacheInsert d e p sess), _.
  split; [|split; [|split; [|split; [|split; [|split]]]]].
  - rewrite (DispatchEvent_fresh reg d e p sess Ha Hs Hseen), Hp. reflexivity.
  - apply afterCacheInsert_seen.
  - unfold afterCacheInsert. cbn [dSessions]. apply lookup_insert_eq.
  - reflexivity.
  - reflexivity.
  - reflexivity.
  - intros es e' p' Ha' Hkey Hsid.
    apply later_dispatch_refused with (sid := DSession e) (a := DbAssetOf p) (p' := p'); auto.
    apply afterCacheInsert_seen.
Qed.

Lemma dispatch_not_atomic_on_error_witness :
  exists d1,
    DispatchEvent (strictRegistry ∅) dis0 (Some ev0)
    = DispatchError "no handlers registered for the asset type" d1
    /\ dQueues d1 = ∅
    /\ DispatchEvent (strictRegistry ∅) d1 (Some ev0)
       = DispatchError errScheduled d1.
Proof.
  destruct (dispatch_not_atomic_on_error (strictRegistry ∅) dis0 ev0
              storedExample emptySession
              "no handlers registered for the asset type")
    as (d1 & sess1 & H1 & _ & _ & _ & H2 & _ & H3); try reflexivity.
  exists d1. split; [exact H1|]. split; [exact H2|].
  apply (H3 [] ev0 storedExample); reflexivity.
Defined.

Lemma Schedule_other (now : Z) (fresh : positive) (s : Scheduler) (e : Event) :
  Data e = DataOther ->
  Schedule now fresh s (Some e)
  = ScheduleOk (received (schedule s (prepare now fresh (events s) e)))
      (prepare now fresh (events s) e).
Proof. intros H. unfold Schedule. rewrite H. reflexivity. Qed.

Lemma schedule_events (s : Scheduler) (e : Event) :
  events (schedule s e) = <[EvUUID e := copyOf e]> (events s).
Proof.
  unfold schedule, copyOf. cbn. rewrite insert_delete_eq. reflexivity.
Qed.

Lemma schedule_q (s : Scheduler) (e : Event) :
  q (schedule s e) = q s ++ [copyOf e].
Proof. unfold schedule, copyOf. cbn. destruct (Action e); reflexivity. Qed.

Lemma copyOf_fields (e : Event) :
  EvUUID (copyOf e) = EvUUID e /\ State (copyOf e) = State e
  /\ Priority (copyOf e) = Priority e /\ DependOn (copyOf e) = DependOn e
  /\ RepeatTimes (copyOf e) = RepeatTimes e
  /\ RepeatEvery (copyOf e) = RepeatEvery e
  /\ Timestamp (copyOf e) = Timestamp e.
Proof. unfold copyOf. destruct (Action e); repeat split. Qed.

Lemma setupEvent_fields (now : Z) (fresh : positive) (e : Event) :
  Priority (setupEvent now fresh e) = Priority e
  /\ DependOn (setupEvent now fresh e) = DependOn e
  /\ Data (setupEvent now fresh e) = Data e
  /\ Action (setupEvent now fresh e) = Action e
  /\ Timestamp (setupEvent now fresh e) = now.
Proof.
  unfold setupEvent.
  destruct (decide (EvUUID e = zeroUUID)); cbn;
    repeat (match goal with |- context [if ?b then _ else _] => destruct b end; cbn);
    repeat split.
Qed.

(** The loop over the dependencies touches the state and the priority
    only. *)
Lemma scheduleDeps_fields (evs : gmap N Event) (deps : list UUID) (e : Event) :
  EvUUID (scheduleDeps evs deps e) = EvUUID e
  /\ DependOn (scheduleDeps evs deps e) = DependOn e
  /\ Timestamp (scheduleDeps evs deps e) = Timestamp e
  /\ Action (scheduleDeps evs deps e) = Action e
  /\ Data (scheduleDeps evs deps e) = Data e
  /\ RepeatTimes (scheduleDeps evs deps e) = RepeatTimes e
  /\ RepeatEvery (scheduleDeps evs deps e) = RepeatEvery e.
Proof.
  revert e. induction deps as [|d deps IH]; intros e; cbn; [repeat split|].
  destruct (evs !! d) as [event|]; [|repeat split].
  destruct (decide (State event = EventStateDone)); [|repeat split].
  destruct (Priority event <=? Priority e); [|apply IH].
  exact (IH (set_Priority e (GoInt.sub (Priority event) 1))).
Qed.

(** An event that [Schedule] has just stored is waiting or processable,
    never done. *)
Lemma scheduleDeps_state (evs : gmap N Event) (deps : list UUID) (e : Event) :
  State e = EventStateWaiting ->
  State (scheduleDeps evs deps e) = EventStateWaiting
  \/ State (scheduleDeps evs deps e) = EventStateProcessable.
Proof.
  revert e. induction deps as [|d deps IH]; intros e He; cbn; [left; exact He|].
  destruct (evs !! d) as [event|]; [|right; reflexivity].
  destruct (decide (State event = EventStateDone)); [|right; reflexivity].
  destruct (Priority event <=? Priority e); apply IH; exact He.
Qed.

Lemma prepare_state (now : Z) (fresh : positive) (evs : gmap N Event) (e : Event) :
  State (prepare now fresh evs e) = EventStateWaiting
  \/ State (prepare now fresh evs e) = EventStateProcessable.
Proof.
  unfold prepare.
  match goal with |- context [scheduleDeps ?a ?b ?c] =>
    pose proof (scheduleDeps_state a b c eq_refl) as H;
    destruct (Priority (scheduleDeps a b c) <=? 0); exact H
  end.
Qed.



(** ** Cancel *)

Lemma cancelDependent_none (uuid : UUID) (deps : list UUID) (s : Scheduler)
    (event : Event) :
  uuid ∉ deps -> cancelDependent uuid deps s event = (s, event).
Proof.
  revert s event. induction deps as [|d deps IH]; intros s event Hn; [reflexivity|].
  cbn. apply not_elem_of_cons in Hn as [Hne Hn].
  destruct (decide (d = uuid)) as [->|_]; [contradiction|]. apply IH. exact Hn.
Qed.

Lemma cancelDependent_single (uuid : UUID) (s : Scheduler) (event : Event) :
  cancelDependent uuid [uuid] s event
  = (set_events (updateSchedulerStats s (State event) EventStateCancelled)
       (delete (EvUUID event) (events s)),
     set_State event EventStateCancelled).
Proof.
  cbn. destruct (decide (uuid = uuid)) as [_|Hn]; [|contradiction].
  destruct s, event. unfold updateSchedulerStats.
  cbn. destruct (decide (_ = EventStateCancelled)); reflexivity.
Qed.

(** The two events of the map after both have been scheduled in an empty
    scheduler are visited in one order or the other. *)
Lemma map_to_list_pair (u0 u1 : N) (c0 c1 : Event) :
  u0 <> u1 ->
  map_to_list (<[u1 := c1]> (<[u0 := c0]> (∅ : gmap N Event))) = [(u1, c1); (u0, c0)]
  \/ map_to_list (<[u1 := c1]> (<[u0 := c0]> (∅ : gmap N Event))) = [(u0, c0); (u1, c1)].
Proof.
  intros Hne.
  assert (Hp : Permutation [(u1, c1); (u0, c0)]
                 (map_to_list (<[u1 := c1]> (<[u0 := c0]> (∅ : gmap N Event))))).
  { symmetry. rewrite map_to_list_insert.
    - rewrite insert_empty, map_to_list_singleton. reflexivity.
    - rewrite lookup_insert_ne by exact Hne. apply lookup_empty. }
  apply Permutation_length_2_inv in Hp. exact Hp.
Qed.

Lemma events_received (s : Scheduler) : events (received s) = events s.
Proof. reflexivity. Qed.

Lemma prepare_fields (now : Z) (fresh : positive) (evs : gmap N Event) (e : Event) :
  EvUUID (prepare now fresh evs e)
  = (if decide (EvUUID e = zeroUUID) then N.pos fresh else EvUUID e)
  /\ DependOn (prepare now fresh evs e) = DependOn e
  /\ Data (prepare now fresh evs e) = Data e
  /\ Action (prepare now fresh evs e) = Action e
  /\ Timestamp (prepare now fresh evs e) = now.
Proof.
  unfold prepare.
  set (e1 := set_State (setupEvent now fresh e) EventStateWaiting).
  destruct (scheduleDeps_fields evs (DependOn e1) e1)
    as (Hu & Hd & Ht & Ha & Hda & _).
  destruct (setupEvent_fields now fresh e) as (_ & Hd' & Hda' & Ha' & Ht').
  assert (Hu' : EvUUID e1 = if decide (EvUUID e = zeroUUID) then N.pos fresh else EvUUID e).
  { unfold e1, setupEvent. destruct (decide (EvUUID e = zeroUUID)); cbn;
      repeat (match goal with |- context [if ?b then _ else _] => destruct b end; cbn);
      reflexivity. }
  destruct (Priority (scheduleDeps evs (DependOn e1) e1) <=? 0);
    cbn [EvUUID DependOn Data Action Timestamp set_Priority set_Sched];
    rewrite Hu, Hd, Ht, Ha, Hda; repeat split; assumption.
Qed.

Lemma visitEvent_dependent (uuid : UUID) (s : Scheduler) (k : N) (x event : Event) :
  events s !! k = Some event -> DependOn event = [uuid] ->
  visitEvent uuid s (k, x)
  = set_events (updateSchedulerStats s (State event) EventStateCancelled)
      (delete (EvUUID event) (events s)).
Proof.
  intros Hk Hd. unfold visitEvent. cbn [fst]. rewrite Hk, Hd, cancelDependent_single.
  reflexivity.
Qed.

Lemma visitEvent_independent (uuid : UUID) (s : Scheduler) (k : N) (x : Event) :
  (forall event, events s !! k = Some event -> uuid ∉ DependOn event) ->
  visitEvent uuid s (k, x) = s.
Proof.
  intros H. unfold visitEvent. cbn [fst].
  destruct (events s !! k) as [event|] eqn:E; [|reflexivity].
  rewrite cancelDependent_none by (apply H; reflexivity). reflexivity.
Qed.

Lemma Cancel_pair (s : Scheduler) (u0 u1 : N) (c0 c1 : Event) :
  events s = <[u1 := c1]> (<[u0 := c0]> ∅) ->
  u0 <> u1 -> EvUUID c1 = u1 -> DependOn c1 = [u0] -> u0 ∉ DependOn c0 ->
  events (Cancel s u0) = ∅
  /\ stats (Cancel s u0)
     = stats (updateSchedulerStats s (State c1) EventStateCancelled).
Proof.
  intros Hev Hne Hu1 Hd1 Hd0. unfold Cancel. rewrite Hev.
  rewrite lookup_insert_ne by congruence. rewrite lookup_insert_eq.
  rewrite (insert_insert_ne _ u0 u1) by exact Hne.
  rewrite insert_insert_eq.
  set (c0' := set_State c0 EventStateCancelled).
  assert (Hc0 : u0 ∉ DependOn c0') by exact Hd0.
  set (m := <[u1:=c1]> (<[u0:=c0']> ∅)).
  set (sm := set_events s m).
  assert (Hm1 : events sm !! u1 = Some c1) by apply lookup_insert_eq.
  assert (Hm0 : events sm !! u0 = Some c0').
  { unfold sm, m. cbn. rewrite lookup_insert_ne by congruence. apply lookup_insert_eq. }
  set (s1 := set_events (updateSchedulerStats sm (State c1) EventStateCancelled)
               (delete (EvUUID c1) (events sm))).
  assert (Hs1 : events s1 = <[u0:=c0']> ∅).
  { unfold s1, sm, m. cbn [events set_events]. rewrite Hu1.
    rewrite delete_insert_eq. apply delete_id.
    rewrite lookup_insert_ne by congruence. apply lookup_empty. }
  assert (Hfold : fold_left (visitEvent u0) (map_to_list (events sm)) sm = s1).
  { unfold sm at 1. cbn [events set_events]. unfold m at 1.
    destruct (map_to_list_pair u0 u1 c0' c1 Hne) as [-> | ->]; cbn [fold_left].
    - rewrite (visitEvent_dependent u0 sm u1 c1 c1 Hm1 Hd1). fold s1.
      apply visitEvent_independent. intros ev. rewrite Hs1, lookup_insert_eq.
      intros [= <-]. exact Hc0.
    - rewrite (visitEvent_independent u0 sm u0 c0').
      + apply (visitEvent_dependent u0 sm u1 c1 c1 Hm1 Hd1).
      + intros ev. rewrite Hm0. intros [= <-]. exact Hc0. }
  unfold removeEventAndDeps. rewrite Hfold. cbn [events stats set_events].
  split.
  - rewrite Hs1. rewrite delete_insert_eq. apply delete_empty.
  - unfold s1, sm. unfold updateSchedulerStats.
    destruct (decide (State c1 = EventStateCancelled)); reflexivity.
Qed.

Lemma statsCancelled_transition (x : schedulerStats) (st : EventState) :
  st = EventStateWaiting \/ st = EventStateProcessable ->
  TotalEventsCancelled (statsDecr st (statsIncr EventStateCancelled x))
  = GoInt.incr (TotalEventsCancelled x).
Proof. intros [-> | ->]; reflexivity. Qed.

(** C5 at its scenario.  In a scheduler whose map is empty, schedule [e0],
    then [e1] with [DependOn = [e0.UUID]], then cancel [e0].  Both events
    leave the map, but [TotalEventsCancelled] grows by one only: [Cancel]
    assigns the state of its target without accounting for it, and
    [removeEventAndDeps] accounts for the dependent alone. *)
Theorem cancel_cascade_counts_dependent_only
    (now0 now1 : Z) (fresh0 fresh1 : positive)
    (s s0 s1 : Scheduler) (e0 e0' e1 e1' : Event) :
  events s = ∅ ->
  Data e0 = DataOther -> Data e1 = DataOther ->
  Schedule now0 fresh0 s (Some e0) = ScheduleOk s0 e0' ->
  DependOn e1 = [EvUUID e0'] ->
  Schedule now1 fresh1 s0 (Some e1) = ScheduleOk s1 e1' ->
  EvUUID e1' <> EvUUID e0' ->
  EvUUID e0' ∉ DependOn e0 ->
  events s1 = <[EvUUID e1' := copyOf e1']> (<[EvUUID e0' := copyOf e0']> ∅)
  /\ events (Cancel s1 (EvUUID e0')) = ∅
  /\ TotalEventsCancelled (stats (Cancel s1 (EvUUID e0')))
     = GoInt.incr (TotalEventsCancelled (stats s)).
Proof.
  intros Hempty Hd0 Hd1 Hs0 Hdep Hs1 Hne Hself.
  rewrite (Schedule_other now0 fresh0 s e0 Hd0) in Hs0.
  set (p0 := prepare now0 fresh0 (events s) e0) in *.
  assert (s0 = received (schedule s p0)) as -> by congruence.
  assert (e0' = p0) as -> by congruence. clear Hs0.
  rewrite (Schedule_other now1 fresh1 _ e1 Hd1) in Hs1.
  set (p1 := prepare now1 fresh1 (events (received (schedule s p0))) e1) in *.
  assert (s1 = received (schedule (received (schedule s p0)) p1)) as -> by congruence.
  assert (e1' = p1) as -> by congruence. clear Hs1.
  destruct (prepare_fields now1 fresh1 (events (received (schedule s p0))) e1)
    as (_ & Hdep1 & _).
  destruct (prepare_fields now0 fresh0 (events s) e0) as (_ & Hdep0 & _).
  fold p1 in Hdep1. fold p0 in Hdep0.
  destruct (copyOf_fields p0) as (Hu0 & _ & _ & Hc0 & _).
  destruct (copyOf_fields p1) as (Hu1 & Hst1 & _ & Hc1 & _).
  assert (Hev : events (received (schedule (received (schedule s p0)) p1))
          = <[EvUUID p1 := copyOf p1]> (<[EvUUID p0 := copyOf p0]> ∅)).
  { rewrite events_received, schedule_events, events_received, schedule_events, Hempty.
    reflexivity. }
  split; [exact Hev|].
  destruct (Cancel_pair _ (EvUUID p0) (EvUUID p1) (copyOf p0) (copyOf p1) Hev)
    as [He Hst]; try congruence.
  split; [exact He|].
  rewrite Hst. unfold updateSchedulerStats.
  destruct (decide (State (copyOf p1) = EventStateCancelled)) as [Hc|_].
  - rewrite Hst1 in Hc.
    destruct (prepare_state now1 fresh1 (events (received (schedule s p0))) e1)
      as [H|H]; fold p1 in H; congruence.
  - cbn [stats set_stats]. rewrite statsCancelled_transition.
    + reflexivity.
    + rewrite Hst1. apply prepare_state.
Qed.

Lemma cancel_cascade_counts_dependent_only_witness :
  exists s0 e0' s1 e1',
    Schedule 0 1%positive (NewScheduler ∅) (Some firstEvent) = ScheduleOk s0 e0'
    /\ Schedule 1 2%positive s0 (Some secondEvent) = ScheduleOk s1 e1'
    /\ events (Cancel s1 (EvUUID e0')) = ∅
    /\ TotalEventsCancelled (stats (Cancel s1 (EvUUID e0'))) = 1.
Proof.
  eexists _, _, _, _. split; [reflexivity|]. split; [reflexivity|].
  refine (let H := cancel_cascade_counts_dependent_only 0 1 1%positive 2%positive
                     (NewScheduler ∅) _ _ firstEvent _ secondEvent _
                     eq_refl eq_refl eq_refl eq_refl eq_refl eq_refl _ _ in _).
  - destruct H as (_ & H1 & H2). split; [exact H1 | exact H2].
  Unshelve.
  + vm_compute. discriminate.
  + vm_compute. apply not_elem_of_nil.
Defined.

(** ** isProcessable and the process loop *)

(** When no dependency of the event is its own UUID or the nil UUID, a
    positive answer of [isProcessable] means that every dependency that is
    in the map is Done. *)
Lemma isProcessableLoop_all_done (evs : gmap N Event) (self : UUID)
    (deps : list UUID) :
  self ∉ deps -> zeroUUID ∉ deps ->
  isProcessableLoop evs self deps = true ->
  forall d dev, d ∈ deps -> evs !! d = Some dev -> State dev = EventStateDone.
Proof.
  induction deps as [|x deps IH]; intros Hself Hzero Hp d dev Hin Hlk.
  - apply elem_of_nil in Hin. contradiction.
  - apply not_elem_of_cons in Hself as [Hx1 Hself].
    apply not_elem_of_cons in Hzero as [Hx2 Hzero].
    cbn in Hp. destruct (evs !! x) as [xev|] eqn:Ex.
    + destruct (decide (State xev = EventStateDone)) as [Hd|Hnd].
      * apply elem_of_cons in Hin as [-> | Hin]; [congruence | eauto].
      * destruct (decide (x ≠ self ∧ x ≠ zeroUUID)) as [_|Hn]; [discriminate|].
        exfalso. apply Hn. split; congruence.
    + apply elem_of_cons in Hin as [-> | Hin]; [congruence | eauto].
Qed.

(** A dependency on the event's own UUID that is in the map and not Done
    ends the loop with a positive answer: the dependencies after it are not
    looked at. *)
Lemma isProcessable_self_first (s : Scheduler) (event stored : Event)
    (rest : list UUID) :
  DependOn event = EvUUID event :: rest ->
  events s !! EvUUID event = Some stored ->
  State stored <> EventStateDone ->
  isProcessable s event = true.
Proof.
  intros Hd Hlk Hs. unfold isProcessable. rewrite Hd. cbn. rewrite Hlk.
  destruct (decide (State stored = EventStateDone)); [contradiction|].
  destruct (decide (EvUUID event ≠ EvUUID event ∧ EvUUID event ≠ zeroUUID))
    as [[Hn _]|_]; [contradiction | reflexivity].
Qed.

(** The loop hands an event to a worker only after [isProcessable] has
    answered yes for it. *)
Lemma processNext_started (config : ProcessConfig) (now : Z) (s s' : Scheduler)
    (event stored started : Event) :
  processNext config now s event stored = IterContinue s' (Some started)
  \/ processNext config now s event stored = IterReturn s' (Some started) ->
  isProcessable s event = true /\ EvUUID started = EvUUID event
  /\ DependOn started = DependOn event.
Proof.
  unfold processNext.
  destruct (decide (State stored = EventStateInProcess)).
  { destruct ((0 <? ActionTimeout config) && after now (Timeout event));
      intros [H|H]; discriminate. }
  destruct (decide (State stored = EventStateCancelled ∨ State stored = EventStateError)).
  { intros [H|H]; discriminate. }
  destruct (decide (State stored = EventStateDone)).
  { intros [H|H]; discriminate. }
  destruct (isProcessable s event); [|intros [H|H]; discriminate].
  destruct (after now (Timestamp event + GoInt.mul (RepeatEvery event) millisecond));
    [|intros [H|H]; discriminate].
  cbn [andb].
  destruct (CurrentRunningActions s <? MaxConcurrentActions config);
    destruct (ExecuteAction config); cbn [andb];
    repeat match goal with
    | |- context [bool_decide ?P] => destruct (bool_decide P)
    | |- context [decide ?P] => destruct (decide P)
    | |- context [ReturnIfFound config] => destruct (ReturnIfFound config)
    end;
    intros [H|H]; try discriminate; injection H as _ <-; repeat split; reflexivity.
Qed.

(** What holds of the order of dependencies: when the dependencies of an
    event contain neither its own UUID nor the nil UUID, the loop starts the
    event only if every dependency that is in the map is Done. *)
Lemma started_event_dependencies_done (config : ProcessConfig) (now : Z)
    (s s' : Scheduler) (started : Event) :
  processIteration config now s = IterContinue s' (Some started)
  \/ processIteration config now s = IterReturn s' (Some started) ->
  EvUUID started ∉ DependOn started ->
  zeroUUID ∉ DependOn started ->
  forall d dev, d ∈ DependOn started -> events s !! d = Some dev ->
                State dev = EventStateDone.
Proof.
  unfold processIteration. intros H Hself Hzero d dev Hin Hlk.
  destruct (state s); try (destruct H as [H|H]; discriminate).
  destruct (qNext (q s)) as [[event rest]|].
  - cbn [events set_q] in H.
    destruct (events s !! EvUUID event) as [stored|];
      [|destruct H as [H|H]; discriminate].
    apply processNext_started in H as (Hp & Hu & Hd).
    rewrite Hu, Hd in Hself. rewrite Hd in Hzero, Hin.
    apply (isProcessableLoop_all_done (events s) (EvUUID event) (DependOn event)
             Hself Hzero Hp d dev Hin Hlk).
  - destruct (ExitWhenEmpty config); destruct H as [H|H]; discriminate.
Qed.

(** C2 at a failing input.  [selfFirst] depends on itself and on
    [depEvent].  Both are scheduled, [selfFirst] first; [depEvent] is in the
    map and Waiting.  The iteration of the process loop that takes
    [selfFirst] from the queue asks [isProcessable], which stops at the
    event's own UUID and answers yes: the event is put InProcess and handed
    to a worker while [depEvent] is still Waiting. *)
Theorem process_starts_event_before_dependency_done :
  exists s0 e' s1 d' s2 started,
    Schedule 0 1%positive (NewScheduler ∅) (Some selfFirst) = ScheduleOk s0 e'
    /\ Schedule 0 2%positive s0 (Some depEvent) = ScheduleOk s1 d'
    /\ EvUUID d' ∈ DependOn e'
    /\ (State <$> events s1 !! EvUUID d') = Some EventStateWaiting
    /\ isProcessable s1 e' = true
    /\ processIteration testConfig 1 s1 = IterContinue s2 (Some started)
    /\ EvUUID started = EvUUID e'
    /\ (State <$> events s2 !! EvUUID e') = Some EventStateInProcess
    /\ (State <$> events s2 !! EvUUID d') = Some EventStateWaiting.
Proof.
  eexists _, _, _, _, _, _.
  split; [reflexivity|]. split; [reflexivity|].
  split; [vm_compute; set_solver|].
  split; [vm_compute; reflexivity|].
  split; [vm_compute; reflexivity|].
  split; [vm_compute; reflexivity|].
  repeat split; vm_compute; reflexivity.
Qed.

Lemma wrap_shift (z : Z) : exists k, GoInt.wrap z = z + k * 2 ^ 64.
Proof.
  unfold GoInt.wrap. exists (- ((z + 2 ^ 63) / 2 ^ 64)).
  pose proof (Z.div_mod (z + 2 ^ 63) (2 ^ 64) ltac:(lia)). lia.
Qed.

Lemma eqm_shift (a b k : Z) : a = b + k * 2 ^ 64 -> GoInt.eqm a b.
Proof. intros ->. unfold GoInt.eqm. apply Z_mod_plus_full. Qed.

Lemma statsIncr_counters (st : EventState) (x : schedulerStats) :
  GoInt.eqm (stateCounters (statsIncr st x)) (stateCounters x + 1)
  /\ TotalEventsReceived (statsIncr st x) = TotalEventsReceived x.
Proof.
  split; [|destruct st; reflexivity].
  destruct st; unfold stateCounters;
    cbn [statsIncr TotalEventsDone TotalEventsCancelled TotalEventsError
         TotalEventsInProcess TotalEventsWaiting TotalEventsProcessable];
    unfold GoInt.incr, GoInt.add;
    match goal with |- context [GoInt.wrap ?z] =>
      destruct (wrap_shift z) as [k ->]; apply (eqm_shift _ _ k); lia
    end.
Qed.

Lemma statsDecr_counters (st : EventState) (x : schedulerStats) :
  GoInt.eqm (stateCounters (statsDecr st x)) (stateCounters x - 1)
  /\ TotalEventsReceived (statsDecr st x) = TotalEventsReceived x.
Proof.
  split; [|destruct st; reflexivity].
  destruct st; unfold stateCounters;
    cbn [statsDecr TotalEventsDone TotalEventsCancelled TotalEventsError
         TotalEventsInProcess TotalEventsWaiting TotalEventsProcessable];
    unfold GoInt.decr, GoInt.sub;
    match goal with |- context [GoInt.wrap ?z] =>
      destruct (wrap_shift z) as [k ->]; apply (eqm_shift _ _ k); lia
    end.
Qed.

(** Every transition that [updateSchedulerStats] records moves one unit
    from the counter of the old state to the counter of the new one: the sum
    of the six state counters is unchanged (modulo 2^64), and so is
    [TotalEventsReceived]. *)
Lemma updateSchedulerStats_counters (s : Scheduler) (a b : EventState) :
  GoInt.eqm (stateCounters (stats (updateSchedulerStats s a b)))
    (stateCounters (stats s))
  /\ TotalEventsReceived (stats (updateSchedulerStats s a b))
     = TotalEventsReceived (stats s).
Proof.
  unfold updateSchedulerStats. destruct (decide (a = b)); [split; reflexivity|].
  cbn [stats set_stats].
  destruct (statsDecr_counters a (statsIncr b (stats s))) as [H1 H1'].
  destruct (statsIncr_counters b (stats s)) as [H2 H2'].
  split; [|congruence].
  eapply GoIntFacts.eqm_trans; [exact H1|].
  replace (stateCounters (stats s))
    with (stateCounters (stats s) + 1 + (-1)) by lia.
  apply GoIntFacts.eqm_add; [exact H2 | reflexivity].
Qed.

(** C4 at a failing input.  After one [Schedule] in a new scheduler no
    event is InProcess and the loop has not run, [TotalEventsReceived] is 1
    and the six state counters are all 0: [Schedule] counts the event as
    received but records its first state nowhere. *)
Theorem counters_disagree_after_schedule
    (now : Z) (fresh : positive) (m : gmap N Session) (e : Event) :
  Data e = DataOther ->
  exists s' e',
    Schedule now fresh (NewScheduler m) (Some e) = ScheduleOk s' e'
    /\ (forall u ev, events s' !! u = Some ev -> State ev <> EventStateInProcess)
    /\ TotalEventsReceived (stats s') = 1
    /\ stateCounters (stats s') = 0
    /\ TotalEventsReceived (stats s') <> stateCounters (stats s').
Proof.
  intros Hd. rewrite (Schedule_other now fresh _ e Hd). eexists _, _.
  split; [reflexivity|]. split; [|repeat split; try reflexivity; discriminate].
  intros u ev. rewrite events_received, schedule_events. cbn [events NewScheduler].
  intros Hlk. apply lookup_insert_Some in Hlk as [[_ <-] | [_ Hlk]].
  - destruct (copyOf_fields (prepare now fresh ∅ e)) as (_ & -> & _).
    destruct (prepare_state now fresh ∅ e) as [-> | ->]; discriminate.
  - rewrite lookup_empty in Hlk. discriminate.
Qed.

(** The same disagreement once the loop has run to its end: one event
    without repetition is received, run and deleted; [TotalEventsDone] is 1
    and [TotalEventsWaiting] is -1. *)
Lemma counters_after_one_run :
  exists w,
    repetitionRun firstEvent false millisecond 10 = Some (ProcessReturned w)
    /\ events (wSched w) = ∅
    /\ stats (wSched w) = mkStats 1 1 0 0 0 (-1) 0 0.
Proof.
  eexists. split; [vm_compute; reflexivity|]. split; reflexivity.
Qed.

Lemma counters_disagree_after_schedule_witness :
  exists s' e',
    Schedule 0 1%positive (NewScheduler ∅) (Some firstEvent) = ScheduleOk s' e'
    /\ TotalEventsReceived (stats s') = 1
    /\ stateCounters (stats s') = 0.
Proof.
  destruct (counters_disagree_after_schedule 0 1%positive ∅ firstEvent eq_refl)
    as (s' & e' & H & _ & H1 & H2 & _).
  exists s', e'. repeat split; assumption.
Defined.











Lemma Schedule_unfold (now : Z) (fresh : positive) (s : Scheduler) (e : Event) :
  Schedule now fresh s (Some e)
  = match cacheCheck (mgr s) e with
    | None => SchedulePanic
    | Some true => ScheduleError errScheduled
    | Some false =>
        ScheduleOk (received (schedule s (prepare now fresh (events s) e)))
          (prepare now fresh (events s) e)
    end.
Proof. reflexivity. Qed.

Lemma Schedule_ok_inv (now : Z) (fresh : positive) (s s' : Scheduler)
    (e e' : Event) :
  Schedule now fresh s (Some e) = ScheduleOk s' e' ->
  cacheCheck (mgr s) e = Some false
  /\ s' = received (schedule s (prepare now fresh (events s) e))
  /\ e' = prepare now fresh (events s) e.
Proof.
  rewrite Schedule_unfold.
  destruct (cacheCheck (mgr s) e) as [[|]|]; try discriminate.
  intros H. split; [reflexivity|]. split; congruence.
Qed.

(** What the tests of [Schedule] check (TestSchedule001 to 010): after one
    successful [Schedule] in a new scheduler the map holds one event. *)
Lemma Schedule_new_one_event (now : Z) (fresh : positive) (m : gmap N Session)
    (e e' : Event) (s' : Scheduler) :
  Schedule now fresh (NewScheduler m) (Some e) = ScheduleOk s' e' ->
  size (events s') = 1%nat.
Proof.
  intros H. apply Schedule_ok_inv in H. destruct H as (_ & -> & _).
  rewrite events_received, schedule_events. cbn [events NewScheduler].
  rewrite insert_empty. apply map_size_singleton.
Qed.






(** ** The counters along a sequence of calls *)

Lemma sameAccounts_refl (s : Scheduler) : sameAccounts s s.
Proof. split; reflexivity. Qed.

Lemma sameAccounts_trans (s1 s2 s3 : Scheduler) :
  sameAccounts s1 s2 -> sameAccounts s2 s3 -> sameAccounts s1 s3.
Proof.
  intros [H1 H1'] [H2 H2']. split; [|congruence].
  eapply GoIntFacts.eqm_trans; eassumption.
Qed.

Lemma sameAccounts_stats (s s' : Scheduler) :
  stats s' = stats s -> sameAccounts s s'.
Proof. intros H. unfold sameAccounts. rewrite H. split; reflexivity. Qed.

Lemma sameAccounts_update (s : Scheduler) (a b : EventState) :
  sameAccounts s (updateSchedulerStats s a b).
Proof. apply updateSchedulerStats_counters. Qed.

Lemma sameAccounts_then (s s' s'' : Scheduler) :
  sameAccounts s s' -> stats s'' = stats s' -> sameAccounts s s''.
Proof.
  intros H Hs. eapply sameAccounts_trans; [exact H|].
  apply sameAccounts_stats. exact Hs.
Qed.

Lemma cancelDependent_accounts (uuid : UUID) (deps : list UUID) (s : Scheduler)
    (event : Event) :
  sameAccounts s (cancelDependent uuid deps s event).1.
Proof.
  revert s event. induction deps as [|d deps IH]; intros s event; cbn.
  - apply sameAccounts_refl.
  - destruct (decide (d = uuid)); [|apply IH].
    eapply sameAccounts_trans; [|apply IH].
    eapply sameAccounts_then; [apply sameAccounts_update | reflexivity].
Qed.

Lemma visitEvents_accounts (uuid : UUID) (l : list (N * Event)) (s : Scheduler) :
  sameAccounts s (fold_left (visitEvent uuid) l s).
Proof.
  revert s. induction l as [|kv l IH]; intros s; cbn [fold_left].
  - apply sameAccounts_refl.
  - eapply sameAccounts_trans; [|apply IH].
    unfold visitEvent. destruct (events s !! kv.1).
    + apply cancelDependent_accounts.
    + apply sameAccounts_refl.
Qed.

Lemma removeEventAndDeps_accounts (s : Scheduler) (uuid : UUID) :
  sameAccounts s (removeEventAndDeps s uuid).
Proof.
  unfold removeEventAndDeps.
  eapply sameAccounts_then; [apply visitEvents_accounts | reflexivity].
Qed.

Lemma Cancel_accounts (s : Scheduler) (uuid : UUID) :
  sameAccounts s (Cancel s uuid).
Proof.
  unfold Cancel. destruct (events s !! uuid) as [event|]; [|apply sameAccounts_refl].
  apply sameAccounts_trans
    with (s2 := set_events s (<[uuid := set_State event EventStateCancelled]> (events s))).
  - apply sameAccounts_stats. reflexivity.
  - apply removeEventAndDeps_accounts.
Qed.

Lemma schedule_accounts (s : Scheduler) (e : Event) :
  sameAccounts s (schedule s e).
Proof. apply sameAccounts_stats. reflexivity. Qed.

Lemma update_schedule_accounts (s : Scheduler) (a b : EventState) (e : Event) :
  sameAccounts s (schedule (updateSchedulerStats s a b) e).
Proof.
  eapply sameAccounts_trans; [apply sameAccounts_update | apply schedule_accounts].
Qed.

Lemma reschedule_accounts (now : Z) (s : Scheduler) (event : Event) :
  sameAccounts s (reschedule now s event).
Proof.
  unfold reschedule.
  repeat match goal with |- context [if ?b then _ else _] => destruct b end;
    try apply update_schedule_accounts.
  apply sameAccounts_stats. reflexivity.
Qed.

Lemma setEventState_accounts (s : Scheduler) (uuid : UUID) (st : EventState) :
  sameAccounts s (setEventState s uuid st).
Proof.
  unfold setEventState. destruct (events s !! uuid) as [e|]; [|apply sameAccounts_refl].
  eapply sameAccounts_trans; [|apply sameAccounts_update].
  apply sameAccounts_stats.
  destruct (isTerminal st && bool_decide (State e = EventStateInProcess)); reflexivity.
Qed.

Lemma SetEventState_accounts (s : Scheduler) (e : Event) (st : EventState) :
  sameAccounts s (SetEventState s e st).1.
Proof.
  unfold SetEventState. destruct (negb (Sched e)); [apply sameAccounts_refl|].
  set (s1 := match events s !! EvUUID e with Some _ => s | None => _ end).
  assert (H1 : stats s1 = stats s) by (unfold s1; destruct (events s !! EvUUID e); reflexivity).
  destruct (events s1 !! EvUUID e) as [cur|]; cbn [fst].
  - eapply sameAccounts_trans; [|apply sameAccounts_update].
    apply sameAccounts_stats. rewrite <- H1.
    destruct (isTerminal st && bool_decide (State cur = EventStateInProcess)); reflexivity.
  - apply sameAccounts_stats. exact H1.
Qed.

Lemma processEvent_accounts (s : Scheduler) (e : Event) :
  sameAccounts s (processEvent s e).
Proof.
  unfold processEvent. destruct (Action e) as [[st| |]|];
    try apply sameAccounts_refl; apply SetEventState_accounts.
Qed.

Lemma processNext_accounts (config : ProcessConfig) (now : Z) (s : Scheduler)
    (event stored : Event) :
  sameAccounts s (iterScheduler s (processNext config now s event stored)).
Proof.
  unfold processNext.
  destruct (decide (State stored = EventStateInProcess)).
  { destruct ((0 <? ActionTimeout config) && after now (Timeout event)); cbn;
      [apply update_schedule_accounts | apply schedule_accounts]. }
  destruct (decide (State stored = EventStateCancelled ∨ State stored = EventStateError)).
  { apply removeEventAndDeps_accounts. }
  destruct (decide (State stored = EventStateDone)).
  { apply reschedule_accounts. }
  destruct (isProcessable s event &&
            after now (Timestamp event + GoInt.mul (RepeatEvery event) millisecond));
    [|apply schedule_accounts].
  destruct (CurrentRunningActions s <? MaxConcurrentActions config);
    destruct (ExecuteAction config); cbn [andb].
  all: cbv beta iota zeta.
  all: repeat match goal with
       | |- context [bool_decide ?P] => destruct (bool_decide P)
       | |- context [decide ?P] => destruct (decide P)
       | |- context [ReturnIfFound ?c] => destruct (ReturnIfFound c)
       end; cbn [iterScheduler].
  all: try apply schedule_accounts; try apply update_schedule_accounts;
       try apply sameAccounts_update.
  all: try (eapply sameAccounts_then; [apply update_schedule_accounts | reflexivity]).
  all: try (eapply sameAccounts_then; [apply schedule_accounts | reflexivity]).
  all: try (eapply sameAccounts_trans; [apply sameAccounts_update | apply sameAccounts_update]).
Qed.

Lemma processIteration_accounts (config : ProcessConfig) (now : Z) (s : Scheduler) :
  sameAccounts s (iterScheduler s (processIteration config now s)).
Proof.
  unfold processIteration. destruct (state s); try apply sameAccounts_refl.
  destruct (qNext (q s)) as [[event rest]|].
  - destruct (events (set_q s rest) !! EvUUID event) as [stored|] eqn:E;
      [|apply sameAccounts_refl].
    pose proof (processNext_accounts config now (set_q s rest) event stored) as H.
    destruct (processNext config now (set_q s rest) event stored);
      cbn [iterScheduler] in *; [| |apply sameAccounts_refl].
    all: apply sameAccounts_trans with (s2 := set_q s rest);
      [apply sameAccounts_stats; reflexivity | exact H].
  - destruct (ExitWhenEmpty config); apply sameAccounts_refl.
Qed.

Lemma Schedule_accounts (now : Z) (fresh : positive) (s s' : Scheduler)
    (oe : option Event) (e' : Event) :
  Schedule now fresh s oe = ScheduleOk s' e' ->
  TotalEventsReceived (stats s') = GoInt.incr (TotalEventsReceived (stats s))
  /\ stateCounters (stats s') = stateCounters (stats s).
Proof.
  destruct oe as [e|]; [|discriminate].
  intros H. apply Schedule_ok_inv in H. destruct H as (_ & -> & _).
  split; reflexivity.
Qed.

Lemma cancelEvery_accounts (s : Scheduler) :
  TotalEventsReceived (stats (cancelEvery s)) = TotalEventsReceived (stats s)
  /\ GoInt.eqm (stateCounters (stats (cancelEvery s)))
       (stateCounters (stats s) + Z.of_nat (size (events s))).
Proof.
  split; [reflexivity|].
  unfold cancelEvery, stateCounters.
  cbn [stats set_stats events set_events TotalEventsDone TotalEventsCancelled
       TotalEventsError TotalEventsInProcess TotalEventsWaiting
       TotalEventsProcessable].
  rewrite map_size_fmap.
  pose proof (GoIntFacts.add_eqm (TotalEventsCancelled (stats s))
                (Z.of_nat (size (events s)))) as H.
  revert H. generalize (GoInt.add (TotalEventsCancelled (stats s))
                          (Z.of_nat (size (events s)))).
  intros c H.
  replace (TotalEventsDone (stats s) + c + TotalEventsError (stats s)
           + TotalEventsInProcess (stats s) + TotalEventsWaiting (stats s)
           + TotalEventsProcessable (stats s))
    with (c + (TotalEventsDone (stats s) + TotalEventsError (stats s)
           + TotalEventsInProcess (stats s) + TotalEventsWaiting (stats s)
           + TotalEventsProcessable (stats s))) by lia.
  eapply GoIntFacts.eqm_trans.
  - apply GoIntFacts.eqm_add; [exact H | apply GoIntFacts.eqm_refl].
  - replace (TotalEventsCancelled (stats s) + Z.of_nat (size (events s)) +
     (TotalEventsDone (stats s) + TotalEventsError (stats s) +
      TotalEventsInProcess (stats s) + TotalEventsWaiting (stats s) +
      TotalEventsProcessable (stats s))) with (TotalEventsDone (stats s) + TotalEventsCancelled (stats s) +
   TotalEventsError (stats s) + TotalEventsInProcess (stats s) +
   TotalEventsWaiting (stats s) + TotalEventsProcessable (stats s) +
   Z.of_nat (size (events s))) by lia.
    apply GoIntFacts.eqm_refl.
Qed.

(** One call: [TotalEventsReceived] grows by what [Schedule] accepted, the
    sum of the state counters by what [CancelAll] or [Shutdown] found. *)
Lemma applyOp_accounts (op : Op) (s : Scheduler) :
  GoInt.eqm (TotalEventsReceived (stats (applyOp op s)))
    (TotalEventsReceived (stats s) + acceptedBy op s)
  /\ GoInt.eqm (stateCounters (stats (applyOp op s)))
       (stateCounters (stats s) + sweptBy op s).
Proof.
  assert (Hsame : forall s', sameAccounts s s' ->
            GoInt.eqm (TotalEventsReceived (stats s')) (TotalEventsReceived (stats s) + 0)
            /\ GoInt.eqm (stateCounters (stats s')) (stateCounters (stats s) + 0)).
  { intros s' [H1 H2]. rewrite !Z.add_0_r, H2. split; [reflexivity | exact H1]. }
  destruct op as [now fresh oe|e st|uuid st|uuid| | |config now|e];
    cbn [applyOp acceptedBy sweptBy].
  - destruct (Schedule now fresh s oe) as [s' e'| |] eqn:E;
      try (apply Hsame, sameAccounts_refl).
    apply Schedule_accounts in E. destruct E as [-> ->].
    rewrite Z.add_0_r. split; [apply GoIntFacts.incr_eqm | reflexivity].
  - apply Hsame, SetEventState_accounts.
  - apply Hsame, setEventState_accounts.
  - apply Hsame, Cancel_accounts.
  - destruct (cancelEvery_accounts s) as [H1 H2]. unfold CancelAll.
    rewrite H1, Z.add_0_r. split; [reflexivity | exact H2].
  - destruct (cancelEvery_accounts s) as [H1 H2]. unfold Shutdown.
    cbn [stats set_state]. rewrite H1, Z.add_0_r. split; [reflexivity | exact H2].
  - apply Hsame, processIteration_accounts.
  - apply Hsame, processEvent_accounts.
Qed.

(** Along every sequence of calls, [TotalEventsReceived] counts the events
    that [Schedule] accepted and the six state counters sum to the number of
    events that [CancelAll] and [Shutdown] found in the map (modulo 2^64,
    the counters being Go ints). *)
Lemma runOps_accounts (ops : list Op) (s : Scheduler) :
  GoInt.eqm (TotalEventsReceived (stats (runOps ops s)))
    (TotalEventsReceived (stats s) + accepted ops s)
  /\ GoInt.eqm (stateCounters (stats (runOps ops s)))
       (stateCounters (stats s) + swept ops s).
Proof.
  revert s. induction ops as [|op ops IH]; intros s; cbn [runOps accepted swept].
  - rewrite !Z.add_0_r. split; reflexivity.
  - destruct (IH (applyOp op s)) as [H1 H2].
    destruct (applyOp_accounts op s) as [H3 H4].
    split.
    + eapply GoIntFacts.eqm_trans; [exact H1|].
      rewrite Z.add_assoc.
      apply GoIntFacts.eqm_add; [exact H3 | apply GoIntFacts.eqm_refl].
    + eapply GoIntFacts.eqm_trans; [exact H2|].
      rewrite Z.add_assoc.
      apply GoIntFacts.eqm_add; [exact H4 | apply GoIntFacts.eqm_refl].
Qed.

Lemma runOps_new_scheduler (m : gmap N Session) (ops : list Op) :
  GoInt.eqm (TotalEventsReceived (stats (runOps ops (NewScheduler m))))
    (accepted ops (NewScheduler m))
  /\ GoInt.eqm (stateCounters (stats (runOps ops (NewScheduler m))))
       (swept ops (NewScheduler m)).
Proof. apply (runOps_accounts ops (NewScheduler m)). Qed.

(** In a scheduler that started empty, [TotalEventsReceived] and the sum of
    the state counters agree exactly when [CancelAll] and [Shutdown] found
    as many events as [Schedule] accepted. *)
Lemma runOps_counters_agree (m : gmap N Session) (ops : list Op) :
  GoInt.eqm (TotalEventsReceived (stats (runOps ops (NewScheduler m))))
    (stateCounters (stats (runOps ops (NewScheduler m))))
  <-> GoInt.eqm (accepted ops (NewScheduler m)) (swept ops (NewScheduler m)).
Proof.
  destruct (runOps_new_scheduler m ops) as [H1 H2]. split; intros H.
  - eapply GoIntFacts.eqm_trans; [apply GoIntFacts.eqm_sym; exact H1|].
    eapply GoIntFacts.eqm_trans; [exact H | exact H2].
  - eapply GoIntFacts.eqm_trans; [exact H1|].
    eapply GoIntFacts.eqm_trans; [exact H | apply GoIntFacts.eqm_sym; exact H2].
Qed.


Lemma qNext_single (x : Event) : qNext [x] = Some (x, []).
Proof. cbn. rewrite Z.eqb_refl. reflexivity. Qed.

Lemma Process_S (fuel : nat) (config : ProcessConfig) (tick : Z) (w : World) :
  Process (S fuel) config tick w
  = match processIteration config (wNow w) (wSched w) with
    | IterPanic => ProcessPanicked
    | IterReturn s spawned =>
        ProcessReturned (runWorker (mkWorld s (wNow w) (wRuns w)) spawned)
    | IterContinue s spawned =>
        Process fuel config tick
          (mkWorld (wSched (runWorker (mkWorld s (wNow w) (wRuns w)) spawned))
             (wNow (runWorker (mkWorld s (wNow w) (wRuns w)) spawned) + tick)
             (wRuns (runWorker (mkWorld s (wNow w) (wRuns w)) spawned)))
    end.
Proof. reflexivity. Qed.

Lemma SetEventState_done (s : Scheduler) (x cur : Event) :
  Sched x = true ->
  events s !! EvUUID x = Some cur ->
  State cur = EventStateInProcess ->
  q (SetEventState s x EventStateDone).1 = q s
  /\ events (SetEventState s x EventStateDone).1
     = <[EvUUID x := set_State cur EventStateDone]> (events s)
  /\ CurrentRunningActions (SetEventState s x EventStateDone).1
     = GoInt.decr (CurrentRunningActions s)
  /\ state (SetEventState s x EventStateDone).1 = state s.
Proof.
  intros Hsc Hlk Hst. unfold SetEventState. rewrite Hsc, Hlk, Hlk.
  cbn [negb].
  cbn [isTerminal andb]. rewrite bool_decide_eq_true_2 by exact Hst.
  cbn [fst]. unfold updateSchedulerStats.
  destruct (decide (State cur = EventStateDone)); repeat split.
Qed.

Section Repetition.

Variable config : ProcessConfig.
Variable tick : Z.
Variable u : UUID.
Variable every : Z.

Hypothesis exit_when_empty : ExitWhenEmpty config = true.
Hypothesis execute_action : ExecuteAction config = true.
Hypothesis return_if_found : ReturnIfFound config = false.
Hypothesis some_capacity : 0 < MaxConcurrentActions config.
Hypothesis clock_advances : 0 < tick.
Hypothesis every_range : 0 <= every /\ every * millisecond <= GoInt.max_int.

Lemma Steps_Process (k : nat) (w w' : World) (fuel : nat) :
  Steps config tick k w w' ->
  Process (k + fuel) config tick w = Process fuel config tick w'.
Proof.
  induction 1 as [|k w s spawned w' Hit _ IH]; [reflexivity|].
  cbn [Nat.add]. rewrite Process_S, Hit.
  destruct spawned; exact IH.
Qed.

Lemma every_nanoseconds : GoInt.mul every millisecond = every * millisecond.
Proof.
  unfold GoInt.mul. apply GoIntFacts.wrap_small.
  unfold GoInt.in_range, GoInt.min_int, millisecond in *. lia.
Qed.

Lemma copyOf_repeating (n : Z) (x : Event) : repeating u every n x -> copyOf x = x.
Proof.
  intros (_ & _ & Hact & _ & _ & Hsc). unfold copyOf. rewrite Hact.
  destruct x. cbn in Hsc. subst. reflexivity.
Qed.

Lemma schedule_single (s : Scheduler) (x y : Event) (n : Z) :
  repeating u every n x -> events s = {[u := y]} ->
  events (schedule s x) = {[u := x]} /\ q (schedule s x) = q s ++ [x].
Proof.
  intros Hrep Hev. pose proof (copyOf_repeating n x Hrep) as Hc.
  destruct Hrep as (Hu & _). split.
  - rewrite schedule_events, Hc, Hu, Hev. apply insert_singleton_eq.
  - rewrite schedule_q, Hc. reflexivity.
Qed.

Lemma processIteration_single (now : Z) (s : Scheduler) (x stored : Event) :
  state s = SchedulerStateRunning -> q s = [x] ->
  events s !! EvUUID x = Some stored ->
  processIteration config now s = processNext config now (set_q s []) x stored.
Proof.
  intros Hst Hq Hlk. unfold processIteration.
  rewrite Hst, Hq, qNext_single. cbn [events set_q]. rewrite Hlk. reflexivity.
Qed.

Lemma processNext_not_yet (now : Z) (s : Scheduler) (x stored : Event) :
  pending (State stored) ->
  after now (Timestamp x + GoInt.mul (RepeatEvery x) millisecond) = false ->
  processNext config now s x stored = IterContinue (schedule s x) None.
Proof.
  intros Hp Haft. unfold processNext. rewrite Haft, andb_false_r.
  destruct Hp as [-> | ->]; reflexivity.
Qed.

Lemma ready_wait (n : Z) (w : World) (x : Event) :
  Ready u every n w -> q (wSched w) = [x] ->
  wNow w <= Timestamp x + every * millisecond ->
  exists s,
    processIteration config (wNow w) (wSched w) = IterContinue s None
    /\ q s = [x]
    /\ Ready u every n (mkWorld s (wNow w + tick) (wRuns w)).
Proof.
  intros (x' & y & Hq & Hev & Hst & Hcra & Hrep & Hx & Hy) Hq' Hnow.
  assert (x' = x) as -> by congruence. clear Hq'.
  pose proof Hrep as (Hu & Hdep & Hact & Hre & Hrt & Hsc).
  set (s0 := set_q (wSched w) []).
  assert (He0 : events s0 = {[u := y]}) by exact Hev.
  destruct (schedule_single s0 x y n Hrep He0) as [He Hqs].
  exists (schedule s0 x). split; [|split].
  - rewrite (processIteration_single _ _ x y Hst Hq)
      by (rewrite Hev, Hu; apply lookup_singleton_eq).
    apply processNext_not_yet; [exact Hy|].
    rewrite Hre, every_nanoseconds. unfold after. apply Z.ltb_ge. exact Hnow.
  - exact Hqs.
  - exists x, x. cbn [wSched]. rewrite He, Hqs.
    repeat split; try assumption; reflexivity.
Qed.

Lemma updateSchedulerStats_fields (s : Scheduler) (a b : EventState) :
  q (updateSchedulerStats s a b) = q s
  /\ events (updateSchedulerStats s a b) = events s
  /\ CurrentRunningActions (updateSchedulerStats s a b) = CurrentRunningActions s
  /\ state (updateSchedulerStats s a b) = state s.
Proof.
  unfold updateSchedulerStats. destruct (decide (a = b)); repeat split.
Qed.

(** The loop waits until the clock has passed the time of the next
    run. *)
Lemma ready_waits (m : nat) (n : Z) (w : World) (x : Event) :
  Ready u every n w -> q (wSched w) = [x] ->
  Timestamp x + every * millisecond - wNow w < Z.of_nat m ->
  exists k w',
    Steps config tick k w w' /\ Ready u every n w' /\ q (wSched w') = [x]
    /\ Timestamp x + every * millisecond < wNow w'
    /\ wRuns w' = wRuns w.
Proof.
  revert w. induction m as [|m IH]; intros w Hr Hq Hm.
  - exists 0%nat, w. split; [constructor|]. repeat split; try assumption. lia.
  - destruct (Z_lt_le_dec (Timestamp x + every * millisecond) (wNow w)) as [Hlt|Hle].
    + exists 0%nat, w. split; [constructor|]. repeat split; assumption.
    + destruct (ready_wait n w x Hr Hq Hle) as (s & Hit & Hqs & Hr').
      destruct (IH (mkWorld s (wNow w + tick) (wRuns w)) Hr' Hqs)
        as (k & w' & Hsteps & Hr'' & Hq'' & Hnow & Hruns).
      { cbn [wNow]. lia. }
      exists (S k), w'. split; [|repeat split; assumption].
      econstructor; [exact Hit|]. exact Hsteps.
Qed.

(** Once the time has come the event is put InProcess and handed to a
    worker, which runs the action: the map holds the event as Done. *)
Lemma ready_fire (n : Z) (w : World) (x : Event) :
  Ready u every n w -> q (wSched w) = [x] ->
  Timestamp x + every * millisecond < wNow w ->
  exists w',
    Steps config tick 1 w w' /\ Finished u every n w' /\ wRuns w' = wRuns w ++ [u].
Proof.
  intros (x' & y & Hq & Hev & Hst & Hcra & Hrep & Hx & Hy) Hq' Hnow.
  assert (x' = x) as -> by congruence. clear Hq'.
  pose proof Hrep as (Hu & Hdep & Hact & Hre & Hrt & Hsc).
  set (s0 := set_q (wSched w) []).
  set (x2 := set_Timeout (set_State x EventStateInProcess)
               (wNow w + GoInt.mul (ActionTimeout config) second)).
  set (s1 := updateSchedulerStats s0 (State x) EventStateInProcess).
  set (s3 := set_CurrentRunningActions (schedule s1 x2)
               (GoInt.incr (CurrentRunningActions (schedule s1 x2)))).
  assert (Hrep2 : repeating u every n x2) by (repeat split; assumption).
  assert (Hit : processIteration config (wNow w) (wSched w)
                = IterContinue s3 (Some x2)).
  { rewrite (processIteration_single _ _ x y Hst Hq)
      by (rewrite Hev, Hu; apply lookup_singleton_eq).
    fold s0. unfold processNext.
    assert (Hproc : isProcessable s0 x = true).
    { unfold isProcessable. rewrite Hdep. reflexivity. }
    assert (Haft : after (wNow w) (Timestamp x + GoInt.mul (RepeatEvery x) millisecond)
                   = true).
    { rewrite Hre, every_nanoseconds. unfold after. apply Z.ltb_lt. exact Hnow. }
    assert (Hcap : (CurrentRunningActions s0 <? MaxConcurrentActions config) = true).
    { apply Z.ltb_lt. unfold s0. cbn. rewrite Hcra. exact some_capacity. }
    rewrite Hproc, Haft, Hcap, execute_action.
    cbn [andb State set_State]. fold s1. fold x2.
    assert (Hne : bool_decide (Action x2 ≠ None) = true).
    { apply bool_decide_eq_true. destruct Hrep2 as (_ & _ & -> & _). discriminate. }
    rewrite Hne, return_if_found.
    destruct Hy as [-> | ->]; reflexivity. }
  destruct (updateSchedulerStats_fields s0 (State x) EventStateInProcess)
    as (Hq1 & He1 & Hc1 & Hst1).
  destruct (schedule_single s1 x2 y n Hrep2) as [He2 Hq2].
  { fold s1 in He1. rewrite He1. exact Hev. }
  fold s1 in Hq1, Hc1, Hst1.
  assert (Hc3 : CurrentRunningActions s3 = 1).
  { unfold s3. cbn [CurrentRunningActions set_CurrentRunningActions schedule set_q set_events].
    rewrite Hc1. unfold s0. cbn. rewrite Hcra. reflexivity. }
  set (w1 := runWorker (mkWorld s3 (wNow w) (wRuns w)) (Some x2)).
  exists (mkWorld (wSched w1) (wNow w + tick) (wRuns w1)).
  split; [econstructor; [exact Hit | constructor]|].
  unfold w1, runWorker. destruct Hrep2 as (Hu2 & Hdep2 & Hact2 & Hre2 & Hrt2 & Hsc2).
  rewrite Hact2. cbn [wSched wNow wRuns]. rewrite Hu2. split; [|reflexivity].
  unfold processEvent. rewrite Hact2.
  assert (He3 : events s3 = {[u := x2]}) by exact He2.
  destruct (SetEventState_done s3 x2 x2) as (Hq4 & He4 & Hc4 & Hst4).
  { exact Hsc2. }
  { rewrite He3, Hu2. apply lookup_singleton_eq. }
  { reflexivity. }
  exists x2, (set_State x2 EventStateDone). cbn [wSched].
  rewrite Hq4, He4, Hc4, Hst4, He3, Hc3, Hu2, insert_singleton_eq.
  assert (Hq3 : q s3 = [x2]).
  { change (q (schedule s1 x2) = [x2]). rewrite Hq2, Hq1. reflexivity. }
  assert (Hst3 : state s3 = SchedulerStateRunning).
  { change (state s1 = SchedulerStateRunning). rewrite Hst1. exact Hst. }
  split; [exact Hq3|]. split; [reflexivity|]. split; [exact Hst3|].
  split; [reflexivity|]. split; [repeat split; assumption | reflexivity].
Qed.

Lemma processNext_done (now : Z) (s : Scheduler) (x stored : Event) :
  State stored = EventStateDone ->
  processNext config now s x stored = IterContinue (reschedule now s x) None.
Proof. intros H. unfold processNext. rewrite H. reflexivity. Qed.






End Repetition.


(** ** The priority that [Schedule] settles on *)







(** ** Repetition and the worker started by [Schedule] *)



Section RepetitionWorker.

Variable config : ProcessConfig.
Variable tick : Z.
Variable u : UUID.
Variable every : Z.
Variable n : nat.

Hypothesis exit_when_empty : ExitWhenEmpty config = true.
Hypothesis execute_action : ExecuteAction config = true.
Hypothesis return_if_found : ReturnIfFound config = false.
Hypothesis some_capacity : 0 < MaxConcurrentActions config.
Hypothesis clock_advances : 0 < tick.
Hypothesis every_range : 0 <= every /\ every * millisecond <= GoInt.max_int.
Hypothesis times_range : Z.of_nat n <= GoInt.max_int.



(** The worker started by [Schedule] runs the action of [e'], the event
    that [Schedule] was given.  It finds the event waiting for a run and
    makes it Done, or it finds it Done, or it finds no event and stores its
    own. *)
Variable e' : Event.

Hypothesis worker_uuid : EvUUID e' = u.
Hypothesis worker_action : Action e' = Some (ActSetState EventStateDone).
Hypothesis worker_sched : Sched e' = true.










End RepetitionWorker.



(** ** Further properties *)








Lemma keyed_insert (m : gmap N Event) (e : Event) :
  keyed m -> keyed (<[EvUUID e := e]> m).
Proof.
  intros H k x Hlk. apply lookup_insert_Some in Hlk as [[<- <-] | [_ Hlk]];
    [reflexivity | exact (H k x Hlk)].
Qed.

Lemma keyed_insert_at (m : gmap N Event) (k : N) (e : Event) :
  keyed m -> EvUUID e = k -> keyed (<[k := e]> m).
Proof. intros H <-. apply keyed_insert. exact H. Qed.

Lemma keyed_sub (m m' : gmap N Event) :
  keyed m -> (forall k e, m' !! k = Some e -> m !! k = Some e) -> keyed m'.
Proof. intros H Hsub k e Hlk. apply (H k e), Hsub, Hlk. Qed.

Lemma keyed_delete (m : gmap N Event) (k : N) : keyed m -> keyed (delete k m).
Proof.
  intros H. apply (keyed_sub m); [exact H|].
  intros j e Hlk. apply lookup_delete_Some in Hlk as [_ Hlk]. exact Hlk.
Qed.

Lemma updateSchedulerStats_events (s : Scheduler) (a b : EventState) :
  events (updateSchedulerStats s a b) = events s
  /\ q (updateSchedulerStats s a b) = q s
  /\ state (updateSchedulerStats s a b) = state s
  /\ CurrentRunningActions (updateSchedulerStats s a b) = CurrentRunningActions s.
Proof.
  unfold updateSchedulerStats. destruct (decide (a = b)); repeat split; reflexivity.
Qed.

(** The inner loop of [removeEventAndDeps] deletes the entry under the UUID
    of the event when the event depends on [uuid], and touches neither the
    queue nor the state of the scheduler. *)
Lemma cancelDependent_events (uuid : UUID) (deps : list UUID) (s : Scheduler)
    (event : Event) :
  events (cancelDependent uuid deps s event).1
  = (if bool_decide (uuid ∈ deps) then delete (EvUUID event) (events s) else events s)
  /\ q (cancelDependent uuid deps s event).1 = q s
  /\ state (cancelDependent uuid deps s event).1 = state s
  /\ CurrentRunningActions (cancelDependent uuid deps s event).1
     = CurrentRunningActions s.
Proof.
  revert s event. induction deps as [|d deps IH]; intros s event.
  - cbn. repeat split; reflexivity.
  - cbn [cancelDependent]. destruct (decide (d = uuid)) as [->|Hne].
    + cbn zeta.
      set (s1 := set_events _ _).
      destruct (IH s1 (set_State event EventStateCancelled)) as (He & Hq & Hs & Hc).
      destruct (updateSchedulerStats_events s (State event) EventStateCancelled)
        as (He1 & Hq1 & Hs1 & Hc1).
      rewrite He, Hq, Hs, Hc. unfold s1.
      cbn [events q state CurrentRunningActions set_events EvUUID State set_State].
      rewrite He1, Hq1, Hs1, Hc1.
      rewrite (bool_decide_eq_true_2 (uuid ∈ uuid :: deps)) by (left).
      split; [|repeat split; reflexivity].
      destruct (bool_decide (uuid ∈ deps)); [apply delete_delete_eq | reflexivity].
    + destruct (IH s event) as (He & Hq & Hs & Hc). rewrite He, Hq, Hs, Hc.
      split; [|repeat split; reflexivity].
      destruct (decide (uuid ∈ deps)) as [Hin|Hnin].
      * rewrite !bool_decide_eq_true_2; [reflexivity | right; exact Hin | exact Hin].
      * rewrite !bool_decide_eq_false_2; [reflexivity | | exact Hnin].
        intros Hin. apply elem_of_cons in Hin as [->|Hin]; [congruence | contradiction].
Qed.

Lemma visitEvent_events (uuid : UUID) (s : Scheduler) (k : N) (e : Event) :
  events s !! k = Some e -> EvUUID e = k ->
  events (visitEvent uuid s (k, e)) = dropDependent uuid (events s) (k, e)
  /\ q (visitEvent uuid s (k, e)) = q s
  /\ state (visitEvent uuid s (k, e)) = state s
  /\ CurrentRunningActions (visitEvent uuid s (k, e)) = CurrentRunningActions s.
Proof.
  intros Hlk Hk. unfold visitEvent, dropDependent, dependsOn. cbn [fst snd].
  rewrite Hlk. destruct (cancelDependent_events uuid (DependOn e) s e)
    as (He & Hq & Hs & Hc).
  rewrite He, Hq, Hs, Hc, Hk. repeat split; reflexivity.
Qed.

Lemma dropDependent_lookup_other (uuid : UUID) (l : list (N * Event))
    (m : gmap N Event) (j : N) :
  (forall e, (j, e) ∈ l -> dependsOn uuid e = false) ->
  fold_left (dropDependent uuid) l m !! j = m !! j.
Proof.
  revert m. induction l as [|[k e] l IH]; intros m H; cbn [fold_left]; [reflexivity|].
  rewrite IH by (intros e' Hin; apply H; right; exact Hin).
  unfold dropDependent. cbn [fst snd].
  destruct (dependsOn uuid e) eqn:Hd; [|reflexivity].
  apply lookup_delete_ne. intros <-.
  rewrite (H e) in Hd by (left). discriminate.
Qed.

Lemma dropDependent_lookup_None (uuid : UUID) (l : list (N * Event))
    (m : gmap N Event) (j : N) :
  m !! j = None -> fold_left (dropDependent uuid) l m !! j = None.
Proof.
  revert m. induction l as [|[k e] l IH]; intros m H; cbn [fold_left]; [exact H|].
  apply IH. unfold dropDependent. cbn [fst snd].
  destruct (dependsOn uuid e); [|exact H].
  apply lookup_delete_None. right. exact H.
Qed.

Lemma dropDependent_lookup_dependent (uuid : UUID) (l : list (N * Event))
    (m : gmap N Event) (j : N) (e : Event) :
  (j, e) ∈ l -> dependsOn uuid e = true ->
  fold_left (dropDependent uuid) l m !! j = None.
Proof.
  revert m. induction l as [|[k x] l IH]; intros m Hin Hd; cbn [fold_left].
  - apply elem_of_nil in Hin. contradiction.
  - apply elem_of_cons in Hin as [Heq|Hin]; [|apply IH; assumption].
    injection Heq as <- <-. apply dropDependent_lookup_None.
    unfold dropDependent. cbn [fst snd]. rewrite Hd. apply lookup_delete_eq.
Qed.

(** The outer loop over the entries of the map. *)
Lemma visitEvents_events (uuid : UUID) (l : list (N * Event)) (s : Scheduler) :
  NoDup l.*1 ->
  (forall k e, (k, e) ∈ l -> events s !! k = Some e /\ EvUUID e = k) ->
  events (fold_left (visitEvent uuid) l s) = fold_left (dropDependent uuid) l (events s)
  /\ q (fold_left (visitEvent uuid) l s) = q s
  /\ state (fold_left (visitEvent uuid) l s) = state s
  /\ CurrentRunningActions (fold_left (visitEvent uuid) l s) = CurrentRunningActions s.
Proof.
  revert s. induction l as [|[k e] l IH]; intros s Hnd Hl; cbn [fold_left].
  - repeat split; reflexivity.
  - cbn in Hnd. apply NoDup_cons in Hnd as [Hk Hnd].
    destruct (Hl k e ltac:(left)) as [Hlk Hu].
    destruct (visitEvent_events uuid s k e Hlk Hu) as (He & Hq & Hs & Hc).
    destruct (IH (visitEvent uuid s (k, e)) Hnd) as (He' & Hq' & Hs' & Hc').
    + intros k' e' Hin. destruct (Hl k' e' ltac:(right; exact Hin)) as [Hlk' Hu'].
      split; [|exact Hu']. rewrite He. unfold dropDependent. cbn [fst snd].
      destruct (dependsOn uuid e); [|exact Hlk'].
      rewrite lookup_delete_ne; [exact Hlk'|].
      intros <-. apply Hk. apply list_elem_of_fmap. exists (k, e'). split; [reflexivity | exact Hin].
    + rewrite He', Hq', Hs', Hc', He, Hq, Hs, Hc. repeat split; reflexivity.
Qed.

(** [removeEventAndDeps] deletes the entry of [uuid] and the entries of the
    events that list [uuid] among their dependencies, and nothing else; the
    queue is left as it was. *)
Lemma removeEventAndDeps_events (s : Scheduler) (uuid : UUID) :
  keyed (events s) ->
  (forall k, events (removeEventAndDeps s uuid) !! k
             = match events s !! k with
               | Some e => if decide (k = uuid) then None
                           else if dependsOn uuid e then None else Some e
               | None => None
               end)
  /\ q (removeEventAndDeps s uuid) = q s
  /\ state (removeEventAndDeps s uuid) = state s
  /\ CurrentRunningActions (removeEventAndDeps s uuid) = CurrentRunningActions s.
Proof.
  intros Hkey. unfold removeEventAndDeps.
  destruct (visitEvents_events uuid (map_to_list (events s)) s) as (He & Hq & Hs & Hc).
  { apply NoDup_fst_map_to_list. }
  { intros k e Hin. apply elem_of_map_to_list in Hin. split; [exact Hin | exact (Hkey k e Hin)]. }
  cbn [events q state CurrentRunningActions set_events].
  rewrite He, Hq, Hs, Hc. split; [|repeat split; reflexivity].
  intros k. destruct (decide (k = uuid)) as [->|Hne].
  - rewrite lookup_delete_eq. destruct (events s !! uuid); reflexivity.
  - rewrite lookup_delete_ne by congruence.
    destruct (events s !! k) as [e|] eqn:Hlk.
    + destruct (dependsOn uuid e) eqn:Hd.
      * apply (dropDependent_lookup_dependent uuid _ _ k e); [|exact Hd].
        apply elem_of_map_to_list. exact Hlk.
      * rewrite dropDependent_lookup_other; [exact Hlk|].
        intros e' Hin. apply elem_of_map_to_list in Hin.
        rewrite Hlk in Hin. injection Hin as <-. exact Hd.
    + apply dropDependent_lookup_None. exact Hlk.
Qed.

Lemma Cancel_events (s : Scheduler) (uuid : UUID) :
  keyed (events s) -> is_Some (events s !! uuid) ->
  (forall k, events (Cancel s uuid) !! k
             = match events s !! k with
               | Some e => if decide (k = uuid) then None
                           else if dependsOn uuid e then None else Some e
               | None => None
               end)
  /\ q (Cancel s uuid) = q s
  /\ state (Cancel s uuid) = state s.
Proof.
  intros Hkey [target Ht]. unfold Cancel. rewrite Ht.
  set (s1 := set_events s _).
  destruct (removeEventAndDeps_events s1 uuid) as (He & Hq & Hs & _).
  { unfold s1. cbn [events set_events]. apply keyed_insert_at; [exact Hkey|].
    cbn. exact (Hkey uuid target Ht). }
  rewrite Hq, Hs. split; [|split; reflexivity].
  intros k. rewrite He. unfold s1. cbn [events set_events].
  destruct (decide (k = uuid)) as [->|Hne].
  - rewrite lookup_insert_eq, Ht. reflexivity.
  - rewrite lookup_insert_ne by congruence. reflexivity.
Qed.

Lemma removeEventAndDeps_keyed (s : Scheduler) (uuid : UUID) :
  keyed (events s) -> keyed (events (removeEventAndDeps s uuid)).
Proof.
  intros Hkey. destruct (removeEventAndDeps_events s uuid Hkey) as (He & _).
  apply (keyed_sub (events s)); [exact Hkey|].
  intros k e. rewrite He. destruct (events s !! k) as [x|]; [|discriminate].
  destruct (decide (k = uuid)); [discriminate|].
  destruct (dependsOn uuid x); [discriminate|]. intros H. exact H.
Qed.

Lemma schedule_keyed (s : Scheduler) (e : Event) :
  keyed (events s) -> keyed (events (schedule s e)).
Proof.
  intros Hkey. rewrite schedule_events. apply keyed_insert_at; [exact Hkey|].
  destruct (copyOf_fields e) as (Hu & _). exact Hu.
Qed.

Lemma update_schedule_keyed (s : Scheduler) (a b : EventState) (e : Event) :
  keyed (events s) -> keyed (events (schedule (updateSchedulerStats s a b) e)).
Proof.
  intros Hkey. apply schedule_keyed.
  destruct (updateSchedulerStats_events s a b) as (-> & _). exact Hkey.
Qed.


Lemma cancelEvery_keyed (s : Scheduler) :
  keyed (events s) -> keyed (events (cancelEvery s)).
Proof.
  intros Hkey k e. unfold cancelEvery. cbn [events set_events set_stats].
  rewrite lookup_fmap. destruct (events s !! k) as [x|] eqn:Hlk; [|discriminate].
  cbn. intros H. injection H as <-. exact (Hkey k x Hlk).
Qed.




Lemma reschedule_keyed (now : Z) (s : Scheduler) (event : Event) :
  keyed (events s) -> keyed (events (reschedule now s event)).
Proof.
  intros Hkey. unfold reschedule.
  repeat match goal with |- context [if ?b then _ else _] => destruct b end;
    try (apply update_schedule_keyed; exact Hkey).
  cbn [events set_events]. apply keyed_delete. exact Hkey.
Qed.

Lemma processNext_keyed (config : ProcessConfig) (now : Z) (s : Scheduler)
    (event stored : Event) :
  keyed (events s) ->
  keyed (events (iterScheduler s (processNext config now s event stored))).
Proof.
  intros Hkey. unfold processNext.
  destruct (decide (State stored = EventStateInProcess)).
  { destruct ((0 <? ActionTimeout config) && after now (Timeout event));
      cbn [iterScheduler];
      [apply update_schedule_keyed | apply schedule_keyed]; exact Hkey. }
  destruct (decide (State stored = EventStateCancelled ∨ State stored = EventStateError)).
  { apply removeEventAndDeps_keyed. exact Hkey. }
  destruct (decide (State stored = EventStateDone)).
  { apply reschedule_keyed. exact Hkey. }
  destruct (isProcessable s event &&
            after now (Timestamp event + GoInt.mul (RepeatEvery event) millisecond));
    [|apply schedule_keyed; exact Hkey].
  destruct (CurrentRunningActions s <? MaxConcurrentActions config);
    destruct (ExecuteAction config); cbn [andb].
  all: cbv beta iota zeta.
  all: repeat match goal with
       | |- context [bool_decide ?P] => destruct (bool_decide P)
       | |- context [decide ?P] => destruct (decide P)
       | |- context [ReturnIfFound ?c] => destruct (ReturnIfFound c)
       end; cbn [iterScheduler events set_CurrentRunningActions].
  all: try (apply update_schedule_keyed; exact Hkey).
  all: try (apply schedule_keyed; exact Hkey).
  all: repeat match goal with |- keyed (events (updateSchedulerStats ?x ?a ?b)) =>
         destruct (updateSchedulerStats_events x a b) as (-> & _) end;
       try exact Hkey.
Qed.

Lemma processIteration_keyed (config : ProcessConfig) (now : Z) (s : Scheduler) :
  keyed (events s) ->
  keyed (events (iterScheduler s (processIteration config now s))).
Proof.
  intros Hkey. unfold processIteration. destruct (state s); try exact Hkey.
  destruct (qNext (q s)) as [[event rest]|].
  - destruct (events (set_q s rest) !! EvUUID event) as [stored|] eqn:E;
      [|exact Hkey].
    pose proof (processNext_keyed config now (set_q s rest) event stored Hkey) as H.
    destruct (processNext config now (set_q s rest) event stored);
      cbn [iterScheduler] in *; assumption.
  - destruct (ExitWhenEmpty config); exact Hkey.
Qed.




Lemma chain_keyed : keyed (events chain).
Proof.
  intros k e Hlk. cbn [events chain] in Hlk.
  repeat (apply lookup_insert_Some in Hlk as [[<- <-] | [_ Hlk]]; [reflexivity|]).
  rewrite lookup_empty in Hlk. discriminate.
Qed.

(** X4.  [Cancel] of an event that the scheduler holds removes that event and
    the events that list it among their dependencies; every other event
    stays as it is, also those that depend on a removed dependent.  The
    queue is not touched: it still holds the removed events. *)
Theorem Cancel_removes_direct_dependents (s : Scheduler) (uuid : UUID) :
  keyed (events s) -> is_Some (events s !! uuid) ->
  events (Cancel s uuid) !! uuid = None
  /\ (forall k e, events s !! k = Some e -> uuid ∈ DependOn e ->
                  events (Cancel s uuid) !! k = None)
  /\ (forall k e, events s !! k = Some e -> k <> uuid -> uuid ∉ DependOn e ->
                  events (Cancel s uuid) !! k = Some e)
  /\ (forall k, events s !! k = None -> events (Cancel s uuid) !! k = None)
  /\ q (Cancel s uuid) = q s
  /\ state (Cancel s uuid) = state s.
Proof.
  intros Hkey Hin. destruct (Cancel_events s uuid Hkey Hin) as (He & Hq & Hst).
  split; [|split; [|split; [|split; [|split; [exact Hq | exact Hst]]]]].
  - rewrite He. destruct (events s !! uuid); [|reflexivity].
    rewrite decide_True by reflexivity. reflexivity.
  - intros k e Hlk Hdep. rewrite He, Hlk.
    destruct (decide (k = uuid)); [reflexivity|].
    unfold dependsOn. rewrite bool_decide_eq_true_2 by exact Hdep. reflexivity.
  - intros k e Hlk Hne Hdep. rewrite He, Hlk.
    rewrite decide_False by exact Hne.
    unfold dependsOn. rewrite bool_decide_eq_false_2 by exact Hdep. reflexivity.
  - intros k Hlk. rewrite He, Hlk. reflexivity.
Qed.

Lemma Cancel_removes_direct_dependents_witness :
  events (Cancel chain 1%N) !! 1%N = None
  /\ events (Cancel chain 1%N) !! 2%N = None
  /\ events (Cancel chain 1%N) !! 3%N = Some chainC
  /\ q (Cancel chain 1%N) = [chainA; chainB; chainC].
Proof.
  destruct (Cancel_removes_direct_dependents chain 1%N chain_keyed
              (ex_intro _ chainA eq_refl)) as (H1 & H2 & H3 & _ & Hq & _).
  split; [exact H1|]. split; [|split; [|exact Hq]].
  - apply (H2 2%N chainB eq_refl). cbn. left.
  - apply (H3 3%N chainC eq_refl); [discriminate|].
    cbn. intros H. apply list_elem_of_singleton in H. discriminate.
Defined.

Lemma processIteration_missing (config : ProcessConfig) (now : Z) (s : Scheduler)
    (x : Event) (rest : list Event) :
  state s = SchedulerStateRunning -> qNext (q s) = Some (x, rest) ->
  events s !! EvUUID x = None ->
  processIteration config now s = IterPanic.
Proof.
  intros Hs Hq He. unfold processIteration. rewrite Hs, Hq.
  cbn [events set_q]. rewrite He. reflexivity.
Qed.

(** X5.  [Cancel] does not take the events it removes out of the queue.  When
    the loop then takes from the queue an event that [Cancel] removed from
    the map (the cancelled event or one of its dependents), the test
    [s.events[event.UUID].State] reads the field of a missing entry: the
    iteration panics, and so does [Process]. *)
Theorem Process_panics_after_Cancel (config : ProcessConfig) (now : Z)
    (s : Scheduler) (uuid : UUID) (x : Event) (rest : list Event) :
  keyed (events s) -> state s = SchedulerStateRunning ->
  is_Some (events s !! uuid) ->
  qNext (q s) = Some (x, rest) ->
  (EvUUID x = uuid \/ exists e, events s !! EvUUID x = Some e /\ uuid ∈ DependOn e) ->
  processIteration config now (Cancel s uuid) = IterPanic
  /\ forall fuel tick runs,
       Process (S fuel) config tick (mkWorld (Cancel s uuid) now runs)
       = ProcessPanicked.
Proof.
  intros Hkey Hs Hu Hq Hx.
  destruct (Cancel_events s uuid Hkey Hu) as (He & Hq' & Hs').
  assert (Hp : processIteration config now (Cancel s uuid) = IterPanic).
  { apply (processIteration_missing config now _ x rest).
    - rewrite Hs'. exact Hs.
    - rewrite Hq'. exact Hq.
    - rewrite He. destruct (events s !! EvUUID x) as [e|] eqn:Hlk; [|reflexivity].
      destruct (decide (EvUUID x = uuid)) as [|Hne]; [reflexivity|].
      destruct Hx as [Hx | (e' & Hlk' & Hin)]; [contradiction|].
      injection Hlk' as <-. unfold dependsOn.
      rewrite bool_decide_eq_true_2 by exact Hin. reflexivity. }
  split; [exact Hp|].
  intros fuel tick runs. rewrite Process_S. cbn [wSched wNow]. rewrite Hp. reflexivity.
Qed.

Lemma Process_panics_after_Cancel_witness :
  Process 1 testConfig millisecond (mkWorld (Cancel chain 1%N) 5 [])
  = ProcessPanicked.
Proof.
  destruct (Process_panics_after_Cancel testConfig 5 chain 1%N chainA
              [chainB; chainC] chain_keyed eq_refl (ex_intro _ chainA eq_refl)
              eq_refl (or_introl eq_refl)) as [_ H].
  apply H.
Defined.

Lemma set_State_twice (e : Event) (a b : EventState) :
  set_State (set_State e a) b = set_State e b.
Proof. reflexivity. Qed.

Lemma isTerminal_not_in_process (st : EventState) :
  isTerminal st && bool_decide (st = EventStateInProcess) = false.
Proof. destruct st; reflexivity. Qed.

Lemma updateSchedulerStats_same (s : Scheduler) (st : EventState) :
  updateSchedulerStats s st st = s.
Proof. unfold updateSchedulerStats. rewrite decide_True by reflexivity. reflexivity. Qed.

Lemma setEventState_known (s : Scheduler) (uuid : UUID) (st : EventState)
    (event : Event) :
  events s !! uuid = Some event ->
  setEventState s uuid st
  = updateSchedulerStats
      (mkScheduler (q s) (<[uuid := set_State event st]> (events s)) (stats s)
         (if isTerminal st && bool_decide (State event = EventStateInProcess)
          then GoInt.decr (CurrentRunningActions s) else CurrentRunningActions s)
         (state s) (mgr s))
      (State event) st.
Proof.
  intros Hlk. unfold setEventState. rewrite Hlk.
  destruct (isTerminal st && bool_decide (State event = EventStateInProcess));
    reflexivity.
Qed.

(** X6.  Setting the state of an event by UUID: the entry under the UUID
    gets the state and no other entry changes; for a UUID that is not in
    the map nothing changes at all; and setting the same state a second
    time changes nothing, neither the event, nor a counter, nor the number
    of running actions. *)
Theorem setEventState_idempotent (s : Scheduler) (uuid : UUID) (st : EventState) :
  setEventState (setEventState s uuid st) uuid st = setEventState s uuid st
  /\ (events s !! uuid = None -> setEventState s uuid st = s)
  /\ (forall event, events s !! uuid = Some event ->
        events (setEventState s uuid st)
        = <[uuid := set_State event st]> (events s)).
Proof.
  split; [|split].
  - destruct (events s !! uuid) as [event|] eqn:Hlk.
    + rewrite (setEventState_known s uuid st event Hlk).
      set (c := if isTerminal st && bool_decide (State event = EventStateInProcess)
                then GoInt.decr (CurrentRunningActions s)
                else CurrentRunningActions s).
      set (t := updateSchedulerStats _ (State event) st).
      assert (He : events t = <[uuid := set_State event st]> (events s)).
      { unfold t, updateSchedulerStats.
        destruct (decide (State event = st)); reflexivity. }
      rewrite (setEventState_known t uuid st (set_State event st))
        by (rewrite He; apply lookup_insert_eq).
      cbn [State set_State]. rewrite isTerminal_not_in_process.
      rewrite He, insert_insert_eq, set_State_twice, updateSchedulerStats_same.
      destruct t as [q2 ev2 st2 c2 sst2 m2]. cbn [events] in He. subst ev2.
      reflexivity.
    + unfold setEventState. rewrite Hlk. cbn. rewrite Hlk. reflexivity.
  - intros Hlk. unfold setEventState. rewrite Hlk. reflexivity.
  - intros event Hlk. rewrite (setEventState_known s uuid st event Hlk).
    unfold updateSchedulerStats.
    destruct (decide (State event = st)); reflexivity.
Qed.

Lemma setEventState_idempotent_witness :
  setEventState afterFirst 9%N EventStateDone = afterFirst
  /\ (State <$> events (setEventState afterFirst 1%N EventStateDone) !! 1%N)
     = Some EventStateDone.
Proof.
  destruct (setEventState_idempotent afterFirst 9%N EventStateDone) as (_ & H & _).
  destruct (setEventState_idempotent afterFirst 1%N EventStateDone) as (_ & _ & H').
  split; [apply H; vm_compute; reflexivity|].
  rewrite (H' (copyOf firstEvent)) by (vm_compute; reflexivity).
  rewrite lookup_insert_eq. reflexivity.
Defined.

Lemma incr_decr (x : Z) : GoInt.in_range x -> GoInt.incr (GoInt.decr x) = x.
Proof.
  intros H. apply GoIntFacts.eqm_in_range; [apply GoIntFacts.wrap_in_range | exact H |].
  eapply GoIntFacts.eqm_trans; [apply GoIntFacts.incr_eqm|].
  replace x with (x - 1 + 1) at 2 by lia.
  apply GoIntFacts.eqm_add; [apply GoIntFacts.decr_eqm | reflexivity].
Qed.

Lemma decr_incr (x : Z) : GoInt.in_range x -> GoInt.decr (GoInt.incr x) = x.
Proof.
  intros H. apply GoIntFacts.eqm_in_range; [apply GoIntFacts.wrap_in_range | exact H |].
  eapply GoIntFacts.eqm_trans; [apply GoIntFacts.decr_eqm|].
  replace x with (x + 1 - 1) at 2 by lia.
  replace (GoInt.incr x - 1) with (GoInt.incr x + (-1)) by lia.
  replace (x + 1 - 1) with (x + 1 + (-1)) by lia.
  apply GoIntFacts.eqm_add; [apply GoIntFacts.incr_eqm | reflexivity].
Qed.

(** X7.  Recording a transition and then the opposite one brings every counter
    back to its value, also across the wrap-around of a Go int. *)
Theorem updateSchedulerStats_round_trip (s : Scheduler) (a b : EventState) :
  statsInRange (stats s) ->
  updateSchedulerStats (updateSchedulerStats s a b) b a = s.
Proof.
  intros (H1 & H2 & H3 & H4 & H5 & H6).
  unfold updateSchedulerStats.
  destruct (decide (a = b)) as [->|Hne].
  - rewrite decide_True by reflexivity. reflexivity.
  - rewrite decide_False by congruence.
    destruct s as [qs evs [r d c i e w p y] cra sst m].
    cbn [TotalEventsDone TotalEventsCancelled TotalEventsError TotalEventsInProcess
         TotalEventsWaiting TotalEventsProcessable stats] in *.
    unfold set_stats. cbn [q events stats CurrentRunningActions state mgr].
    f_equal.
    destruct a, b; try congruence;
      cbn [statsIncr statsDecr TotalEventsReceived TotalEventsDone
           TotalEventsCancelled TotalEventsError TotalEventsInProcess
           TotalEventsWaiting TotalEventsProcessable TotalEventsSystem];
      rewrite ?incr_decr, ?decr_incr by assumption; reflexivity.
Qed.

Lemma updateSchedulerStats_round_trip_witness :
  updateSchedulerStats
    (updateSchedulerStats
       (mkScheduler [] ∅ (mkStats 1 0 0 0 0 GoInt.min_int GoInt.max_int 0) 0
          SchedulerStateRunning ∅)
       EventStateWaiting EventStateProcessable)
    EventStateProcessable EventStateWaiting
  = mkScheduler [] ∅ (mkStats 1 0 0 0 0 GoInt.min_int GoInt.max_int 0) 0
      SchedulerStateRunning ∅.
Proof.
  apply updateSchedulerStats_round_trip.
  unfold statsInRange, GoInt.in_range, GoInt.min_int, GoInt.max_int. cbn. lia.
Defined.

Section RepeatForever.

Variable config : ProcessConfig.
Variable tick : Z.
Variable u : UUID.
Variable every : Z.

Hypothesis execute_action : ExecuteAction config = true.
Hypothesis return_if_found : ReturnIfFound config = false.
Hypothesis some_capacity : 0 < MaxConcurrentActions config.
Hypothesis clock_advances : 0 < tick.
Hypothesis every_range : 0 <= every /\ every * millisecond <= GoInt.max_int.

(** With [RepeatTimes = -1] the Done event is stored and queued again, and
    [RepeatTimes] stays -1. *)
Lemma finished_forever (w : World) :
  Finished u every (-1) w ->
  exists w',
    Steps config tick 1 w w' /\ Ready u every (-1) w' /\ wRuns w' = wRuns w.
Proof.
  intros (x & y & Hq & Hev & Hst & Hcra & Hrep & Hy).
  pose proof Hrep as (Hu & Hdep & Hact & Hre & Hrt & Hsc).
  set (s0 := set_q (wSched w) []).
  assert (Hit : processIteration config (wNow w) (wSched w)
                = IterContinue (reschedule (wNow w) s0 x) None).
  { rewrite (processIteration_single _ _ _ x y Hst Hq)
      by (rewrite Hev, Hu; apply lookup_singleton_eq).
    apply processNext_done. exact Hy. }
  exists (mkWorld (reschedule (wNow w) s0 x) (wNow w + tick) (wRuns w)).
  split; [econstructor; [exact Hit | constructor]|]. split; [|reflexivity].
  set (s1 := updateSchedulerStats s0 (State x) EventStateProcessable).
  destruct (updateSchedulerStats_fields s0 (State x) EventStateProcessable)
    as (Hq1 & He1 & Hc1 & Hst1). fold s1 in Hq1, He1, Hc1, Hst1.
  set (x3 := set_Timestamp (set_State x EventStateProcessable) (wNow w)).
  assert (Hrep3 : repeating u every (-1) x3) by (repeat split; assumption).
  destruct every_range as [Hge _].
  assert (Hr : reschedule (wNow w) s0 x = schedule s1 x3).
  { unfold reschedule. rewrite Hre, Hrt.
    replace (0 <? -1) with false by reflexivity. rewrite !andb_false_r.
    replace (-1 =? -1) with true by reflexivity.
    replace (0 <=? every) with true by (symmetry; apply Z.leb_le; exact Hge).
    reflexivity. }
  rewrite Hr.
  destruct (schedule_single u every s1 x3 y (-1) Hrep3) as [He2 Hq2].
  { rewrite He1. exact Hev. }
  exists x3, x3. cbn [wSched]. rewrite He2, Hq2, Hq1.
  split; [reflexivity|]. split; [reflexivity|].
  split; [change (state s1 = SchedulerStateRunning); rewrite Hst1; exact Hst|].
  split; [change (CurrentRunningActions s1 = 0); rewrite Hc1; exact Hcra|].
  split; [exact Hrep3|]. split; right; reflexivity.
Qed.

(** One iteration from a state of the repetition leads to another one. *)
Lemma forever_step (w : World) :
  Ready u every (-1) w \/ Finished u every (-1) w ->
  exists w',
    Steps config tick 1 w w'
    /\ (Ready u every (-1) w' \/ Finished u every (-1) w').
Proof.
  intros [Hr | Hf].
  - pose proof Hr as (x & y & Hq & _).
    destruct (Z_le_gt_dec (wNow w) (Timestamp x + every * millisecond)) as [Hle | Hgt].
    + destruct (ready_wait config tick u every every_range (-1) w x Hr Hq Hle)
        as (s & Hit & _ & Hr').
      exists (mkWorld s (wNow w + tick) (wRuns w)).
      split; [econstructor; [exact Hit | constructor]|]. left. exact Hr'.
    + destruct (ready_fire config tick u every execute_action return_if_found
                  some_capacity every_range (-1) w x Hr Hq ltac:(lia))
        as (w' & Hst & Hf & _).
      exists w'. split; [exact Hst | right; exact Hf].
  - destruct (finished_forever w Hf) as (w' & Hst & Hr & _).
    exists w'. split; [exact Hst | left; exact Hr].
Qed.

Lemma forever_running (fuel : nat) (w : World) :
  Ready u every (-1) w \/ Finished u every (-1) w ->
  exists w', Process fuel config tick w = ProcessRunning w'.
Proof.
  revert w. induction fuel as [|fuel IH]; intros w H.
  - exists w. reflexivity.
  - destruct (forever_step w H) as (w1 & Hst & H1).
    destruct (IH w1 H1) as (w' & Hp). exists w'.
    rewrite <- Hp. exact (Steps_Process config tick 1 w w1 fuel Hst).
Qed.

Lemma forever_runs (k : nat) (w : World) :
  Ready u every (-1) w ->
  exists fuel w',
    Process fuel config tick w = ProcessRunning w'
    /\ wRuns w' = wRuns w ++ replicate k u.
Proof.
  revert w. induction k as [|k IH]; intros w Hr.
  - exists 0%nat, w. split; [reflexivity|]. cbn. rewrite app_nil_r. reflexivity.
  - pose proof Hr as (x & y & Hq & _).
    destruct (ready_waits config tick u every clock_advances every_range
                (Z.to_nat (Timestamp x + every * millisecond - wNow w + 1)) (-1) w x Hr Hq
                ltac:(lia))
      as (k1 & w1 & Hs1 & Hr1 & Hq1 & Hdue & Hruns1).
    destruct (ready_fire config tick u every execute_action return_if_found
                some_capacity every_range (-1) w1 x Hr1 Hq1 Hdue)
      as (w2 & Hs2 & Hf2 & Hruns2).
    destruct (finished_forever w2 Hf2) as (w3 & Hs3 & Hr3 & Hruns3).
    destruct (IH w3 Hr3) as (fuel & w' & Hp & Hruns).
    exists (k1 + (1 + (1 + fuel)))%nat, w'. split.
    + rewrite (Steps_Process config tick k1 w w1 _ Hs1).
      rewrite (Steps_Process config tick 1 w1 w2 _ Hs2).
      rewrite (Steps_Process config tick 1 w2 w3 _ Hs3). exact Hp.
    + rewrite Hruns, Hruns3, Hruns2, Hruns1, <- app_assoc. reflexivity.
Qed.

End RepeatForever.

(** X8.  An event with [RepeatTimes = -1] is repeated for ever: with the event
    alone in the scheduler, [Process] never returns, whether or not
    [ExitWhenEmpty] is set, and the action is run any number of times. *)
Theorem repeat_forever (config : ProcessConfig) (tick : Z) (u : UUID)
    (every : Z) (w : World) :
  ExecuteAction config = true -> ReturnIfFound config = false ->
  0 < MaxConcurrentActions config -> 0 < tick ->
  0 <= every /\ every * millisecond <= GoInt.max_int ->
  Ready u every (-1) w ->
  (forall fuel, exists w', Process fuel config tick w = ProcessRunning w')
  /\ (forall k, exists fuel w',
        Process fuel config tick w = ProcessRunning w'
        /\ wRuns w' = wRuns w ++ replicate k u).
Proof.
  intros He Hr Hc Ht Hev Hw. split.
  - intros fuel. apply (forever_running config tick u every He Hr Hc Hev).
    left. exact Hw.
  - intros k. apply (forever_runs config tick u every He Hr Hc Ht Hev). exact Hw.
Qed.

Lemma repeat_forever_witness :
  exists fuel w',
    Process fuel testConfig millisecond foreverWorld = ProcessRunning w'
    /\ wRuns w' = [7%N; 7%N; 7%N].
Proof.
  assert (Hready : Ready 7%N 100 (-1) foreverWorld).
  { eexists _, _. split; [reflexivity|]. split; [reflexivity|].
    split; [reflexivity|]. split; [reflexivity|].
    split; [repeat split; reflexivity|]. split; left; reflexivity. }
  assert (Hevery : 0 <= 100 /\ 100 * millisecond <= GoInt.max_int).
  { unfold millisecond, GoInt.max_int. lia. }
  destruct (repeat_forever testConfig millisecond 7%N 100 foreverWorld
              eq_refl eq_refl eq_refl eq_refl Hevery Hready) as [_ H].
  exact (H 3%nat).
Defined.

Lemma isProcessableLoop_done (evs : gmap N Event) (self : UUID) (deps : list UUID) :
  (forall d dev, d ∈ deps -> evs !! d = Some dev -> State dev = EventStateDone) ->
  isProcessableLoop evs self deps = true.
Proof.
  induction deps as [|d deps IH]; intros H; cbn; [reflexivity|].
  assert (Hrest : isProcessableLoop evs self deps = true).
  { apply IH. intros d' dev Hin. apply H. right. exact Hin. }
  destruct (evs !! d) as [dev|] eqn:Hlk; [|exact Hrest].
  rewrite decide_True by (apply (H d dev); [left | exact Hlk]). exact Hrest.
Qed.

(** X9.  For an event that lists neither its own UUID nor the nil UUID among
    its dependencies, [isProcessable] holds exactly when every dependency
    that is in the map is Done; a dependency that is not in the map counts
    as met. *)
Theorem isProcessable_iff_dependencies_done (s : Scheduler) (event : Event) :
  EvUUID event ∉ DependOn event -> zeroUUID ∉ DependOn event ->
  (isProcessable s event = true
   <-> forall d dev, d ∈ DependOn event -> events s !! d = Some dev ->
                     State dev = EventStateDone).
Proof.
  intros Hself Hzero. unfold isProcessable. split.
  - intros H. apply (isProcessableLoop_all_done _ _ _ Hself Hzero H).
  - apply isProcessableLoop_done.
Qed.

Lemma isProcessable_iff_dependencies_done_witness :
  isProcessable (Cancel chain 1%N) chainC = true.
Proof.
  apply isProcessable_iff_dependencies_done.
  - cbn. intros H. apply list_elem_of_singleton in H. discriminate.
  - cbn. intros H. apply list_elem_of_singleton in H. discriminate.
  - intros d dev Hin Hlk. cbn in Hin. apply list_elem_of_singleton in Hin. subst d.
    vm_compute in Hlk. discriminate.
Defined.

Lemma processNext_failed (config : ProcessConfig) (now : Z) (s : Scheduler)
    (event stored : Event) :
  State stored = EventStateCancelled \/ State stored = EventStateError ->
  processNext config now s event stored
  = IterContinue (removeEventAndDeps s (EvUUID event)) None.
Proof.
  intros H. unfold processNext.
  rewrite decide_False by (destruct H as [-> | ->]; discriminate).
  rewrite decide_True by exact H. reflexivity.
Qed.

Lemma qNext_pair (x y : Event) :
  Priority x <= Priority y -> qNext [x; y] = Some (x, [y]).
Proof.
  intros H. cbn. rewrite Z.min_l by exact H. rewrite Z.eqb_refl. reflexivity.
Qed.

(** X10.  An event that the loop finds Cancelled or in Error is removed from the
    map together with the events that depend on it, but those stay in the
    queue: when the loop takes the dependent next, it reads the state of an
    entry that is no longer in the map and panics. *)
Theorem Process_panics_at_dependent_of_failed_event (config : ProcessConfig)
    (tick now : Z) (runs : list UUID) (s : Scheduler) (x y sx sy : Event)
    (fuel : nat) :
  keyed (events s) -> state s = SchedulerStateRunning ->
  q s = [x; y] -> Priority x <= Priority y ->
  events s !! EvUUID x = Some sx ->
  State sx = EventStateCancelled \/ State sx = EventStateError ->
  events s !! EvUUID y = Some sy -> EvUUID x ∈ DependOn sy ->
  Process (S (S fuel)) config tick (mkWorld s now runs) = ProcessPanicked.
Proof.
  intros Hkey Hst Hq Hprio Hx Hsx Hy Hdep.
  set (s0 := set_q s [y]).
  assert (H1 : processIteration config now s
               = IterContinue (removeEventAndDeps s0 (EvUUID x)) None).
  { unfold processIteration. rewrite Hst, Hq, (qNext_pair x y Hprio).
    fold s0. change (events s0) with (events s). rewrite Hx.
    apply processNext_failed. exact Hsx. }
  destruct (removeEventAndDeps_events s0 (EvUUID x) Hkey) as (He & Hq' & Hst' & _).
  assert (H2 : processIteration config (now + tick) (removeEventAndDeps s0 (EvUUID x))
               = IterPanic).
  { apply (processIteration_missing _ _ _ y []).
    - rewrite Hst'. exact Hst.
    - rewrite Hq'. apply qNext_single.
    - rewrite He. change (events s0) with (events s). rewrite Hy.
      destruct (decide (EvUUID y = EvUUID x)); [reflexivity|].
      unfold dependsOn. rewrite bool_decide_eq_true_2 by exact Hdep. reflexivity. }
  rewrite Process_S. cbn [wSched wNow wRuns]. rewrite H1.
  cbn [runWorker wSched wNow wRuns].
  rewrite Process_S. cbn [wSched wNow wRuns]. rewrite H2. reflexivity.
Qed.

Lemma Process_panics_at_dependent_of_failed_event_witness :
  Process 2 testConfig millisecond (mkWorld chainFailed 5 []) = ProcessPanicked.
Proof.
  apply (Process_panics_at_dependent_of_failed_event testConfig millisecond 5 []
           chainFailed chainA chainB (set_State chainA EventStateError) chainB 0).
  - intros k e Hlk. cbn [events chainFailed] in Hlk.
    repeat (apply lookup_insert_Some in Hlk as [[<- <-] | [_ Hlk]]; [reflexivity|]).
    rewrite lookup_empty in Hlk. discriminate.
  - reflexivity.
  - reflexivity.
  - cbn. lia.
  - reflexivity.
  - right. reflexivity.
  - reflexivity.
  - cbn. left.
Defined.

Lemma qRemoveFirst_perm (p : Z) (l : list Event) (x : Event) (r : list Event) :
  qRemoveFirst p l = Some (x, r) -> l ≡ₚ x :: r.
Proof.
  revert x r. induction l as [|e l IH]; intros x r H; cbn in H; [discriminate|].
  destruct (Priority e =? p).
  - injection H as <- <-. reflexivity.
  - destruct (qRemoveFirst p l) as [[x' r']|]; [|discriminate].
    injection H as <- <-. rewrite (IH x' r' eq_refl). apply Permutation_swap.
Qed.

Lemma qRemoveFirst_found (p : Z) (l : list Event) :
  (exists e, e ∈ l /\ Priority e = p) -> is_Some (qRemoveFirst p l).
Proof.
  induction l as [|e l IH]; intros (x & Hin & Hp).
  - apply elem_of_nil in Hin. contradiction.
  - cbn. destruct (Z.eqb_spec (Priority e) p) as [|Hne]; [eexists; reflexivity|].
    apply elem_of_cons in Hin as [->|Hin]; [contradiction|].
    destruct (IH (ex_intro _ x (conj Hin Hp))) as [[y r] ->]. eexists; reflexivity.
Qed.

Lemma qMinPriority_attained (p : Z) (l : list Event) :
  qMinPriority p l = p \/ exists e, e ∈ l /\ Priority e = qMinPriority p l.
Proof.
  revert p. induction l as [|e l IH]; intros p; cbn; [left; reflexivity|].
  destruct (IH (Z.min p (Priority e))) as [H | (x & Hin & Hx)].
  - rewrite H. destruct (Z.min_spec p (Priority e)) as [[_ ->] | [_ ->]];
      [left; reflexivity | right; exists e; split; [left | reflexivity]].
  - right. exists x. split; [right; exact Hin | exact Hx].
Qed.

(** [Next] on a queue that is not empty takes one element out of it. *)
Lemma qNext_perm (l : list Event) :
  l <> [] -> exists x rest, qNext l = Some (x, rest) /\ l ≡ₚ x :: rest.
Proof.
  destruct l as [|e l]; [congruence|]. intros _. unfold qNext.
  destruct (qRemoveFirst_found (qMinPriority (Priority e) l) (e :: l)) as [[x r] H].
  - destruct (qMinPriority_attained (Priority e) l) as [Hp | (y & Hin & Hy)].
    + exists e. split; [left | symmetry; exact Hp].
    + exists y. split; [right; exact Hin | exact Hy].
  - exists x, r. split; [exact H | apply (qRemoveFirst_perm _ _ _ _ H)].
Qed.

Lemma removeEventAndDeps_independent (s : Scheduler) (uuid : UUID) :
  keyed (events s) ->
  (forall k e, events s !! k = Some e -> DependOn e = []) ->
  events (removeEventAndDeps s uuid) = delete uuid (events s).
Proof.
  intros Hkey Hdep. destruct (removeEventAndDeps_events s uuid Hkey) as (He & _).
  apply map_eq. intros k. rewrite He.
  destruct (decide (k = uuid)) as [->|Hne].
  - rewrite lookup_delete_eq. destruct (events s !! uuid); reflexivity.
  - rewrite lookup_delete_ne by congruence.
    destruct (events s !! k) as [e|] eqn:Hlk; [|reflexivity].
    unfold dependsOn. rewrite (Hdep k e Hlk).
    rewrite bool_decide_eq_false_2 by (apply not_elem_of_nil). reflexivity.
Qed.

Lemma allCancelled_step (config : ProcessConfig) (now : Z) (s : Scheduler) :
  allCancelled s -> q s <> [] ->
  exists x rest,
    q s ≡ₚ x :: rest
    /\ processIteration config now s
       = IterContinue (removeEventAndDeps (set_q s rest) (EvUUID x)) None
    /\ q (removeEventAndDeps (set_q s rest) (EvUUID x)) = rest
    /\ events (removeEventAndDeps (set_q s rest) (EvUUID x))
       = delete (EvUUID x) (events s)
    /\ allCancelled (removeEventAndDeps (set_q s rest) (EvUUID x)).
Proof.
  intros (Hst & Hkey & Hnd & Hin & Hall) Hne.
  destruct (qNext_perm (q s) Hne) as (x & rest & Hq & Hperm).
  exists x, rest. split; [exact Hperm|].
  assert (Hx : x ∈ q s) by (rewrite Hperm; left).
  destruct (Hin x Hx) as [sx Hsx].
  destruct (Hall _ _ Hsx) as [Hc _].
  destruct (removeEventAndDeps_events (set_q s rest) (EvUUID x) Hkey)
    as (_ & Hq' & Hst' & _).
  assert (He : events (removeEventAndDeps (set_q s rest) (EvUUID x))
               = delete (EvUUID x) (events s)).
  { apply (removeEventAndDeps_independent (set_q s rest)); [exact Hkey|].
    intros k e Hlk. apply (Hall k e Hlk). }
  split.
  { unfold processIteration. rewrite Hst, Hq. cbn [events set_q]. rewrite Hsx.
    apply processNext_failed. left. exact Hc. }
  split; [exact Hq'|]. split; [exact He|].
  rewrite Hperm in Hnd. cbn in Hnd. apply NoDup_cons in Hnd as [Hnotin Hnd'].
  split; [rewrite Hst'; exact Hst|].
  split; [rewrite He; apply keyed_delete; exact Hkey|].
  split; [rewrite Hq'; exact Hnd'|].
  split.
  - intros y Hy. rewrite Hq' in Hy. rewrite He.
    rewrite lookup_delete_ne.
    + apply Hin. rewrite Hperm. right. exact Hy.
    + intros Heq. apply Hnotin. rewrite Heq. apply list_elem_of_fmap.
      exists y. split; [reflexivity | exact Hy].
  - intros k e. rewrite He. intros Hlk.
    apply lookup_delete_Some in Hlk as [_ Hlk]. exact (Hall k e Hlk).
Qed.

Lemma allCancelled_drains (config : ProcessConfig) (tick : Z) (n : nat) :
  ExitWhenEmpty config = true ->
  forall (s : Scheduler) (now : Z) (runs : list UUID),
    allCancelled s -> length (q s) = n ->
    exists s' now',
      Process (S n) config tick (mkWorld s now runs)
      = ProcessReturned (mkWorld s' now' runs)
      /\ q s' = []
      /\ (forall k, events s' !! k
                    = if bool_decide (k ∈ EvUUID <$> q s) then None
                      else events s !! k).
Proof.
  intros Hexit. induction n as [|n IH]; intros s now runs Hall Hlen.
  - destruct (q s) as [|? ?] eqn:Hq; [|discriminate].
    exists s, now. split; [|split; [exact Hq|]].
    + rewrite Process_S. cbn [wSched wNow wRuns]. unfold processIteration.
      destruct Hall as (-> & _). rewrite Hq. cbn [qNext]. rewrite Hexit.
      reflexivity.
    + intros k. cbn. reflexivity.
  - assert (Hne : q s <> []) by (intros H; rewrite H in Hlen; discriminate).
    destruct (allCancelled_step config now s Hall Hne)
      as (x & rest & Hperm & Hit & Hq' & He & Hall').
    destruct (IH (removeEventAndDeps (set_q s rest) (EvUUID x)) (now + tick) runs Hall')
      as (s' & now' & Hp & Hqe & Hev).
    { rewrite Hq'. apply Permutation_length in Hperm. cbn in Hperm. lia. }
    exists s', now'. split; [|split; [exact Hqe|]].
    + rewrite Process_S. cbn [wSched wNow wRuns]. rewrite Hit.
      cbn [runWorker wSched wNow wRuns]. exact Hp.
    + intros k. rewrite Hev, Hq', He.
      destruct (decide (k ∈ EvUUID <$> rest)) as [Hin|Hnin].
      * rewrite bool_decide_eq_true_2 by exact Hin.
        rewrite bool_decide_eq_true_2; [reflexivity|].
        rewrite Hperm. cbn. right. exact Hin.
      * rewrite (bool_decide_eq_false_2 _ Hnin).
        destruct (decide (k = EvUUID x)) as [->|Hne'].
        -- rewrite lookup_delete_eq, bool_decide_eq_true_2; [reflexivity|].
           rewrite Hperm. cbn. left.
        -- rewrite lookup_delete_ne by congruence.
           rewrite bool_decide_eq_false_2; [reflexivity|].
           rewrite Hperm. cbn. intros Hin.
           apply elem_of_cons in Hin as [|]; contradiction.
Qed.

Lemma CancelAll_allCancelled (s : Scheduler) :
  state s = SchedulerStateRunning -> keyed (events s) ->
  NoDup (EvUUID <$> q s) ->
  (forall x, x ∈ q s -> is_Some (events s !! EvUUID x)) ->
  (forall k e, events s !! k = Some e -> DependOn e = []) ->
  allCancelled (CancelAll s).
Proof.
  intros Hst Hkey Hnd Hin Hdep. unfold CancelAll.
  split; [exact Hst|]. split; [apply cancelEvery_keyed; exact Hkey|].
  split; [exact Hnd|]. unfold cancelEvery. cbn [events q set_events set_stats].
  split.
  - intros x Hx. rewrite lookup_fmap. destruct (Hin x Hx) as [sx ->].
    eexists; reflexivity.
  - intros k e. rewrite lookup_fmap.
    destruct (events s !! k) as [x|] eqn:Hlk; [|discriminate].
    cbn. intros H. injection H as <-. split; [reflexivity|].
    exact (Hdep k x Hlk).
Qed.

(** X11.  After [CancelAll], a run of [Process] with [ExitWhenEmpty] takes every
    queued event out of the queue and out of the map without running an
    action, and returns; this for events without dependencies, each queued
    once. *)
Theorem CancelAll_then_Process_drains (config : ProcessConfig) (tick now : Z)
    (runs : list UUID) (s : Scheduler) :
  ExitWhenEmpty config = true ->
  state s = SchedulerStateRunning -> keyed (events s) ->
  NoDup (EvUUID <$> q s) ->
  (forall x, x ∈ q s -> is_Some (events s !! EvUUID x)) ->
  (forall k e, events s !! k = Some e -> DependOn e = []) ->
  exists s' now',
    Process (S (length (q s))) config tick (mkWorld (CancelAll s) now runs)
    = ProcessReturned (mkWorld s' now' runs)
    /\ q s' = []
    /\ (forall k, k ∈ EvUUID <$> q s -> events s' !! k = None)
    /\ (forall k, k ∉ EvUUID <$> q s ->
          events s' !! k = (fun e => set_State e EventStateCancelled) <$> events s !! k).
Proof.
  intros Hexit Hst Hkey Hnd Hin Hdep.
  destruct (allCancelled_drains config tick (length (q s)) Hexit (CancelAll s) now runs)
    as (s' & now' & Hp & Hq & Hev).
  - apply CancelAll_allCancelled; assumption.
  - reflexivity.
  - exists s', now'. split; [exact Hp|]. split; [exact Hq|]. split.
    + intros k Hk. rewrite Hev. change (q (CancelAll s)) with (q s).
      rewrite bool_decide_eq_true_2 by exact Hk. reflexivity.
    + intros k Hk. rewrite Hev. change (q (CancelAll s)) with (q s).
      rewrite bool_decide_eq_false_2 by exact Hk.
      unfold CancelAll, cancelEvery. cbn [events set_events set_stats].
      apply lookup_fmap.
Qed.

Lemma CancelAll_then_Process_drains_witness :
  exists s' now',
    Process 3 testConfig millisecond (mkWorld (CancelAll twoLone) 0 [])
    = ProcessReturned (mkWorld s' now' [])
    /\ q s' = [] /\ events s' !! 1%N = None /\ events s' !! 2%N = None.
Proof.
  destruct (CancelAll_then_Process_drains testConfig millisecond 0 [] twoLone)
    as (s' & now' & Hp & Hq & Hev & _).
  - reflexivity.
  - reflexivity.
  - intros k e Hlk. cbn [events twoLone] in Hlk.
    repeat (apply lookup_insert_Some in Hlk as [[<- <-] | [_ Hlk]]; [reflexivity|]).
    rewrite lookup_empty in Hlk. discriminate.
  - cbn. repeat constructor.
    + intros H. apply list_elem_of_singleton in H. discriminate.
    + intros H. apply elem_of_nil in H. exact H.
  - intros x Hx. cbn in Hx.
    apply elem_of_cons in Hx as [->|Hx]; [eexists; reflexivity|].
    apply list_elem_of_singleton in Hx. subst x. eexists; reflexivity.
  - intros k e Hlk. cbn [events twoLone] in Hlk.
    repeat (apply lookup_insert_Some in Hlk as [[<- <-] | [_ Hlk]]; [reflexivity|]).
    rewrite lookup_empty in Hlk. discriminate.
  - exists s', now'. split; [exact Hp|]. split; [exact Hq|].
    split; apply Hev; cbn; [left | right; left].
Defined.

Lemma countEvent_counted (sid : UUID) (itmType : EventType)
    (acc : SessionStatsResponse) (e : Event) :
  countEvent sid itmType acc e
  = mkSessionStatsResponse
      (if counted sid itmType EventStateInProcess e
       then GoInt.incr (SessionWorkItemsInProcess acc)
       else SessionWorkItemsInProcess acc)
      (if counted sid itmType EventStateProcessable e
       then GoInt.incr (SessionWorkItemsProcessable acc)
       else SessionWorkItemsProcessable acc)
      (if counted sid itmType EventStateWaiting e
       then GoInt.incr (SessionWorkItemsWaiting acc)
       else SessionWorkItemsWaiting acc).
Proof.
  unfold countEvent, counted.
  destruct (decide (Type_ e = itmType \/ itmType = EventTypeUnknown)) as [Ht|Ht];
    [|repeat case_bool_decide; try tauto; destruct acc; reflexivity].
  destruct (decide (SessionID e = sid)) as [Hs|Hs];
    [|repeat case_bool_decide; try tauto; destruct acc; reflexivity].
  destruct (State e) eqn:Hst;
    repeat case_decide; try congruence;
    repeat case_bool_decide;
    try (exfalso; tauto);
    try (exfalso; match goal with H : _ /\ _ /\ _ = _ |- _ =>
                    destruct H as (_ & _ & H); discriminate H end);
    destruct acc; reflexivity.
Qed.

Lemma countEvent_fold (sid : UUID) (itmType : EventType) (l : list (N * Event))
    (acc : SessionStatsResponse) :
  let n st := Z.of_nat (length (filter (fun kv => counted sid itmType st kv.2 = true) l)) in
  0 <= SessionWorkItemsInProcess acc -> 0 <= SessionWorkItemsProcessable acc ->
  0 <= SessionWorkItemsWaiting acc ->
  SessionWorkItemsInProcess acc + Z.of_nat (length l) <= GoInt.max_int ->
  SessionWorkItemsProcessable acc + Z.of_nat (length l) <= GoInt.max_int ->
  SessionWorkItemsWaiting acc + Z.of_nat (length l) <= GoInt.max_int ->
  fold_left (fun sessionStats kv => countEvent sid itmType sessionStats kv.2) l acc
  = mkSessionStatsResponse
      (SessionWorkItemsInProcess acc + n EventStateInProcess)
      (SessionWorkItemsProcessable acc + n EventStateProcessable)
      (SessionWorkItemsWaiting acc + n EventStateWaiting).
Proof.
  cbv zeta. revert acc. induction l as [|[k e] l IH]; intros acc H1 H2 H3 B1 B2 B3.
  - cbn. rewrite !Z.add_0_r. destruct acc; reflexivity.
  - cbn [fold_left snd]. cbn [length] in B1, B2, B3.
    assert (Hincr : forall z, 0 <= z -> z + 1 <= GoInt.max_int -> GoInt.incr z = z + 1).
    { intros z Hz Hz'. unfold GoInt.incr, GoInt.add. apply GoIntFacts.wrap_small.
      unfold GoInt.in_range, GoInt.min_int, GoInt.max_int in *. lia. }
    rewrite countEvent_counted, !filter_cons. cbn [snd].
    rewrite IH; cbn [SessionWorkItemsInProcess SessionWorkItemsProcessable
                     SessionWorkItemsWaiting].
    + destruct (counted sid itmType EventStateInProcess e);
        destruct (counted sid itmType EventStateProcessable e);
        destruct (counted sid itmType EventStateWaiting e);
        repeat (first [rewrite decide_True by reflexivity
                      | rewrite decide_False by discriminate]);
        rewrite ?Hincr by lia; cbn [length]; f_equal; lia.
    + destruct (counted sid itmType EventStateInProcess e); rewrite ?Hincr by lia; lia.
    + destruct (counted sid itmType EventStateProcessable e); rewrite ?Hincr by lia; lia.
    + destruct (counted sid itmType EventStateWaiting e); rewrite ?Hincr by lia; lia.
    + destruct (counted sid itmType EventStateInProcess e); rewrite ?Hincr by lia; lia.
    + destruct (counted sid itmType EventStateProcessable e); rewrite ?Hincr by lia; lia.
    + destruct (counted sid itmType EventStateWaiting e); rewrite ?Hincr by lia; lia.
Qed.

(** X12.  For a session that is not the nil UUID, [GetSessionStats] returns the
    numbers of events of the map that belong to the session, have the
    requested type (any type for [EventTypeUnknown]) and are InProcess,
    Processable and Waiting; events in the other states are not counted.
    The order in which the loop visits the map does not matter.  The bound
    on the size of the map keeps the Go ints from wrapping. *)
Theorem GetSessionStats_counts (s : Scheduler) (sid : UUID) (itmType : EventType) :
  sid <> zeroUUID ->
  Z.of_nat (size (events s)) <= GoInt.max_int ->
  GetSessionStats s sid itmType
  = mkSessionStatsResponse
      (Z.of_nat (countedIn s sid itmType EventStateInProcess))
      (Z.of_nat (countedIn s sid itmType EventStateProcessable))
      (Z.of_nat (countedIn s sid itmType EventStateWaiting))
  /\ forall l,
       l ≡ₚ map_to_list (events s) ->
       fold_left (fun sessionStats kv => countEvent sid itmType sessionStats kv.2) l
         (mkSessionStatsResponse 0 0 0)
       = GetSessionStats s sid itmType.
Proof.
  intros Hsid Hsize. unfold GetSessionStats.
  rewrite decide_False by (intros [H | H]; exact (Hsid H)).
  rewrite <- length_map_to_list in Hsize.
  assert (Hany : forall l,
            l ≡ₚ map_to_list (events s) ->
            fold_left (fun sessionStats kv => countEvent sid itmType sessionStats kv.2) l
              (mkSessionStatsResponse 0 0 0)
            = mkSessionStatsResponse
                (Z.of_nat (countedIn s sid itmType EventStateInProcess))
                (Z.of_nat (countedIn s sid itmType EventStateProcessable))
                (Z.of_nat (countedIn s sid itmType EventStateWaiting))).
  { intros l Hl. pose proof (Permutation_length Hl) as Hlen.
    rewrite countEvent_fold;
      cbn [SessionWorkItemsInProcess SessionWorkItemsProcessable
           SessionWorkItemsWaiting]; try lia.
    unfold countedIn. rewrite !Hl. reflexivity. }
  split.
  - apply Hany. reflexivity.
  - intros l Hl. rewrite (Hany l Hl). symmetry. apply Hany. reflexivity.
Qed.

Lemma GetSessionStats_counts_witness :
  GetSessionStats threeSessions 9%N EventTypeUnknown = mkSessionStatsResponse 1 0 1
  /\ GetSessionStats threeSessions 9%N EventTypeAsset = mkSessionStatsResponse 1 0 0.
Proof.
  split.
  - destruct (GetSessionStats_counts threeSessions 9%N EventTypeUnknown) as [H _].
    + discriminate.
    + vm_compute. discriminate.
    + rewrite H. reflexivity.
  - destruct (GetSessionStats_counts threeSessions 9%N EventTypeAsset) as [H _].
    + discriminate.
    + vm_compute. discriminate.
    + rewrite H. reflexivity.
Defined.

(** X13.  The loop starts the action of the event it took from the queue exactly
    when the stored event is not yet InProcess, Cancelled, in Error or Done,
    its dependencies allow it, it is due, actions are to be executed, the
    event has one, and the number of running actions is below the limit (or
    the queued copy is already marked InProcess).  It then counts one more
    running action. *)
Theorem processNext_starts_action_iff (config : ProcessConfig) (now : Z)
    (s : Scheduler) (event stored : Event) :
  (is_Some (spawnedBy (processNext config now s event stored))
   <-> (State stored = EventStateWaiting \/ State stored = EventStateProcessable)
       /\ isProcessable s event = true
       /\ Timestamp event + GoInt.mul (RepeatEvery event) millisecond < now
       /\ ExecuteAction config = true
       /\ Action event <> None
       /\ (CurrentRunningActions s < MaxConcurrentActions config
           \/ State event = EventStateInProcess))
  /\ (is_Some (spawnedBy (processNext config now s event stored)) ->
      CurrentRunningActions (iterScheduler s (processNext config now s event stored))
      = GoInt.incr (CurrentRunningActions s)).
Proof.
  unfold processNext.
  destruct (decide (State stored = EventStateInProcess)) as [Hip|Hip].
  { destruct ((0 <? ActionTimeout config) && after now (Timeout event)); cbn;
      (split; [split; [intros [? H]; discriminate
                      | intros ([H|H] & _); congruence]
              | intros [? H]; discriminate]). }
  destruct (decide (State stored = EventStateCancelled ∨ State stored = EventStateError))
    as [Hce|Hce].
  { cbn. split; [split; [intros [? H]; discriminate
                        | intros ([H|H] & _); destruct Hce; congruence]
                | intros [? H]; discriminate]. }
  destruct (decide (State stored = EventStateDone)) as [Hd|Hd].
  { cbn. split; [split; [intros [? H]; discriminate
                        | intros ([H|H] & _); congruence]
                | intros [? H]; discriminate]. }
  assert (Hpend : State stored = EventStateWaiting \/ State stored = EventStateProcessable).
  { destruct (State stored);
      first [tauto | congruence | exfalso; apply Hce; tauto]. }
  unfold after.
  destruct (isProcessable s event) eqn:Hproc; cbn [andb].
  2:{ cbn. split; [split; [intros [? H]; discriminate
                          | intros (_ & H & _); discriminate]
                  | intros [? H]; discriminate]. }
  destruct (Z.ltb_spec (Timestamp event + GoInt.mul (RepeatEvery event) millisecond) now)
    as [Hdue|Hdue].
  2:{ cbn. split; [split; [intros [? H]; discriminate
                          | intros (_ & _ & H & _); lia]
                  | intros [? H]; discriminate]. }
  destruct (Z.ltb_spec (CurrentRunningActions s) (MaxConcurrentActions config))
    as [Hcap|Hcap]; cbv beta iota zeta.
  - cbn [Action set_Timeout set_State State].
    destruct (ExecuteAction config) eqn:Hex; cbn [andb].
    + destruct (Action event) as [a|] eqn:Hact.
      * rewrite bool_decide_eq_true_2 by discriminate.
        rewrite decide_False by (intros H; apply H; reflexivity).
        destruct (ReturnIfFound config); cbn [spawnedBy iterScheduler];
          (split; [split; [intros _; repeat split; try assumption; try discriminate;
                           left; exact Hcap
                          | intros _; eexists; reflexivity]
                  | intros _;
                    destruct (updateSchedulerStats_events s (State event) EventStateInProcess)
                      as (_ & _ & _ & Hc);
                    cbn [CurrentRunningActions set_CurrentRunningActions schedule set_q
                         set_events];
                    rewrite Hc; reflexivity]).
      * rewrite bool_decide_eq_false_2 by (intros H; apply H; reflexivity).
        destruct (ReturnIfFound config); cbn [spawnedBy];
          (split; [split; [intros [? H]; discriminate
                          | intros (_ & _ & _ & _ & H & _); congruence]
                  | intros [? H]; discriminate]).
    + destruct (ReturnIfFound config); cbn [spawnedBy];
        (split; [split; [intros [? H]; discriminate
                        | intros (_ & _ & _ & H & _); discriminate]
                | intros [? H]; discriminate]).
  - cbn [Action set_Timeout State].
    destruct (ExecuteAction config) eqn:Hex; cbn [andb].
    + destruct (Action event) as [a|] eqn:Hact.
      * rewrite bool_decide_eq_true_2 by discriminate.
        destruct (decide (State event <> EventStateInProcess)) as [Hne|He].
        -- cbn [spawnedBy].
           split; [split; [intros [? H]; discriminate
                          | intros (_ & _ & _ & _ & _ & [H|H]); [lia | contradiction]]
                  | intros [? H]; discriminate].
        -- assert (Hst : State event = EventStateInProcess).
           { destruct (decide (State event = EventStateInProcess)); [assumption|].
             exfalso. apply He. assumption. }
           destruct (ReturnIfFound config); cbn [spawnedBy iterScheduler];
             (split; [split; [intros _; repeat split; try assumption; try discriminate;
                              right; exact Hst
                             | intros _; eexists; reflexivity]
                     | intros _; reflexivity]).
      * rewrite bool_decide_eq_false_2 by (intros H; apply H; reflexivity).
        destruct (ReturnIfFound config); cbn [spawnedBy];
          (split; [split; [intros [? H]; discriminate
                          | intros (_ & _ & _ & _ & H & _); congruence]
                  | intros [? H]; discriminate]).
    + destruct (ReturnIfFound config); cbn [spawnedBy];
        (split; [split; [intros [? H]; discriminate
                        | intros (_ & _ & _ & H & _); discriminate]
                | intros [? H]; discriminate]).
Qed.

Lemma SetEventState_running_actions (s : Scheduler) (e : Event) (st : EventState)
    (cur : Event) :
  events s !! EvUUID e = Some cur -> State cur <> EventStateInProcess ->
  CurrentRunningActions (SetEventState s e st).1 = CurrentRunningActions s.
Proof.
  intros Hlk Hne. unfold SetEventState. destruct (negb (Sched e)); [reflexivity|].
  rewrite Hlk. cbn zeta. rewrite Hlk.
  rewrite (bool_decide_eq_false_2 _ Hne), andb_false_r. cbn [fst].
  match goal with |- context [updateSchedulerStats ?x ?a ?b] =>
    destruct (updateSchedulerStats_events x a b) as (_ & _ & _ & ->) end.
  reflexivity.
Qed.

Lemma SetEventState_in_process (s : Scheduler) (e : Event) (st : EventState) :
  Sched e = true -> events s !! EvUUID e = None ->
  State e = EventStateInProcess -> isTerminal st = true ->
  CurrentRunningActions (SetEventState s e st).1
  = GoInt.decr (CurrentRunningActions s)
  /\ events (SetEventState s e st).1 !! EvUUID e = Some (set_State e st).
Proof.
  intros Hsc Hlk Hip Hterm. unfold SetEventState. rewrite Hsc, Hlk. cbn [negb].
  cbn [events set_events]. rewrite lookup_insert_eq. cbn [fst].
  rewrite Hterm, (bool_decide_eq_true_2 _ Hip). cbn [andb].
  match goal with |- context [updateSchedulerStats ?x ?a ?b] =>
    destruct (updateSchedulerStats_events x a b) as (-> & _ & _ & ->) end.
  cbn [CurrentRunningActions events set_events set_CurrentRunningActions].
  rewrite lookup_insert_eq. split; reflexivity.
Qed.

(** X14.  The slot of an action that has timed out.  The iteration that finds the
    stored event InProcess after its timeout stores and queues it again as
    Error and leaves [CurrentRunningActions] as it is.  A [SetEventState]
    for the event that comes before the loop visits the event again finds it
    in Error and does not decrement the counter.  When the loop visits the
    event again and finds it in Error, it removes it from the map, again
    without a change to the counter; the [SetEventState] by which the worker
    then reports a final state stores the worker's own event, which is
    InProcess, and decrements the counter: the event is in the map again. *)
Theorem timed_out_action_slot (config : ProcessConfig) (now : Z)
    (s : Scheduler) (x stored : Event) (rest : list Event) :
  state s = SchedulerStateRunning -> qNext (q s) = Some (x, rest) ->
  events s !! EvUUID x = Some stored -> State stored = EventStateInProcess ->
  0 < ActionTimeout config -> Timeout x < now ->
  exists s' y,
    processIteration config now s = IterContinue s' None
    /\ CurrentRunningActions s' = CurrentRunningActions s
    /\ events s' !! EvUUID x = Some y
    /\ State y = EventStateError /\ EvUUID y = EvUUID x
    /\ q s' = rest ++ [y]
    /\ (forall e st, EvUUID e = EvUUID x ->
          CurrentRunningActions (SetEventState s' e st).1
          = CurrentRunningActions s)
    /\ (forall (config' : ProcessConfig) (now' : Z) (t : Scheduler)
               (z stored' : Event) (rest' : list Event),
          keyed (events t) ->
          state t = SchedulerStateRunning -> qNext (q t) = Some (z, rest') ->
          EvUUID z = EvUUID x ->
          events t !! EvUUID x = Some stored' ->
          State stored' = EventStateError ->
          exists t',
            processIteration config' now' t = IterContinue t' None
            /\ CurrentRunningActions t' = CurrentRunningActions t
            /\ events t' !! EvUUID x = None
            /\ q t' = rest'
            /\ forall e st,
                 EvUUID e = EvUUID x -> Sched e = true ->
                 State e = EventStateInProcess -> isTerminal st = true ->
                 CurrentRunningActions (SetEventState t' e st).1
                 = GoInt.decr (CurrentRunningActions t)
                 /\ events (SetEventState t' e st).1 !! EvUUID x
                    = Some (set_State e st)).
Proof.
  intros Hst Hq Hlk Hip Hto Hnow.
  set (x' := set_State x EventStateError).
  set (s1 := updateSchedulerStats (set_q s rest) (State x) EventStateError).
  exists (schedule s1 x'), (copyOf x').
  destruct (updateSchedulerStats_events (set_q s rest) (State x) EventStateError)
    as (He & Hq1 & _ & Hc). fold s1 in He, Hq1, Hc.
  assert (Hy : events (schedule s1 x') !! EvUUID x = Some (copyOf x')).
  { rewrite schedule_events. apply lookup_insert_eq. }
  destruct (copyOf_fields x') as (Hyu & Hys & _).
  assert (Hcra : CurrentRunningActions (schedule s1 x') = CurrentRunningActions s).
  { change (CurrentRunningActions s1 = CurrentRunningActions s). rewrite Hc. reflexivity. }
  split.
  { unfold processIteration. rewrite Hst, Hq. cbn [events set_q]. rewrite Hlk.
    unfold processNext. rewrite decide_True by exact Hip.
    replace (0 <? ActionTimeout config) with true by (symmetry; apply Z.ltb_lt; exact Hto).
    unfold after.
    replace (Timeout x <? now) with true by (symmetry; apply Z.ltb_lt; exact Hnow).
    reflexivity. }
  split; [exact Hcra|]. split; [exact Hy|]. split; [exact Hys|].
  split; [exact Hyu|].
  split; [rewrite schedule_q, Hq1; reflexivity|].
  split.
  - intros e st Hu. rewrite <- Hcra.
    apply (SetEventState_running_actions _ e st (copyOf x')).
    + rewrite Hu. exact Hy.
    + rewrite Hys. discriminate.
  - intros config' now' t z stored' rest' Hkey Hst' Hq' Hz Hlk' Herr.
    destruct (removeEventAndDeps_events (set_q t rest') (EvUUID x) Hkey)
      as (Hev & Hqr & _ & Hcr).
    exists (removeEventAndDeps (set_q t rest') (EvUUID x)).
    assert (Hnone : events (removeEventAndDeps (set_q t rest') (EvUUID x))
                    !! EvUUID x = None).
    { rewrite Hev. cbn [events set_q]. rewrite Hlk'.
      rewrite decide_True by reflexivity. reflexivity. }
    split.
    { unfold processIteration. rewrite Hst', Hq'. cbn [events set_q].
      rewrite Hz, Hlk'. unfold processNext.
      rewrite decide_False by (rewrite Herr; discriminate).
      rewrite decide_True by (right; exact Herr). rewrite Hz. reflexivity. }
    split; [exact Hcr|]. split; [exact Hnone|]. split; [exact Hqr|].
    intros e st Hu Hsc Hep Hterm.
    assert (Hnone' : events (removeEventAndDeps (set_q t rest') (EvUUID x))
                     !! EvUUID e = None) by (rewrite Hu; exact Hnone).
    destruct (SetEventState_in_process _ e st Hsc Hnone' Hep Hterm) as [H1 H2].
    rewrite H1, Hcr. split; [reflexivity|].
    rewrite Hu in H2. exact H2.
Qed.

Lemma timed_out_action_slot_witness :
  exists s' t',
    processIteration testConfig (61 * second) oneRunning = IterContinue s' None
    /\ CurrentRunningActions s' = 1
    /\ CurrentRunningActions (SetEventState s' runningA EventStateDone).1 = 1
    /\ processIteration testConfig (62 * second) s' = IterContinue t' None
    /\ CurrentRunningActions t' = 1
    /\ events t' !! 1%N = None
    /\ CurrentRunningActions (SetEventState t' runningA EventStateDone).1 = 0
    /\ events (SetEventState t' runningA EventStateDone).1 !! 1%N
       = Some (set_State runningA EventStateDone).
Proof.
  destruct (timed_out_action_slot testConfig (61 * second) oneRunning
              runningA runningA [] eq_refl eq_refl eq_refl eq_refl eq_refl eq_refl)
    as (s' & y & H1 & H2 & H3 & H4 & H5 & H6 & H7 & H8).
  assert (Hkey : keyed (events s')).
  { pose proof (processIteration_keyed testConfig (61 * second) oneRunning) as Hk.
    rewrite H1 in Hk. apply Hk. intros k ev Hlk. cbn [events oneRunning] in Hlk.
    apply lookup_singleton_Some in Hlk as [<- <-]. reflexivity. }
  pose proof H1 as Hs. vm_compute in Hs. injection Hs as Hs.
  destruct (H8 testConfig (62 * second) s' y y []) as (t' & K1 & K2 & K3 & K4 & K5).
  { exact Hkey. }
  { rewrite <- Hs. reflexivity. }
  { rewrite H6. apply qNext_single. }
  { exact H5. }
  { exact H3. }
  { exact H4. }
  exists s', t'. split; [exact H1|]. split; [exact H2|].
  split; [exact (H7 runningA EventStateDone eq_refl)|].
  split; [exact K1|]. split; [rewrite K2; exact H2|]. split; [exact K3|].
  destruct (K5 runningA EventStateDone eq_refl eq_refl eq_refl eq_refl) as [L1 L2].
  split; [rewrite L1, H2; reflexivity | exact L2].
Defined.

(** X15.  A worker that reports the state of its event after [Cancel] has removed
    the event puts it back into the map: [SetEventState] stores an event
    that the scheduler does not hold. *)
Theorem SetEventState_restores_cancelled_event (s : Scheduler) (e : Event)
    (st : EventState) :
  keyed (events s) -> is_Some (events s !! EvUUID e) -> Sched e = true ->
  events (Cancel s (EvUUID e)) !! EvUUID e = None
  /\ events (SetEventState (Cancel s (EvUUID e)) e st).1 !! EvUUID e
     = Some (set_State e st).
Proof.
  intros Hkey Hin Hsc.
  destruct (Cancel_events s (EvUUID e) Hkey Hin) as (He & _).
  assert (Hnone : events (Cancel s (EvUUID e)) !! EvUUID e = None).
  { rewrite He. destruct (events s !! EvUUID e); [|reflexivity].
    rewrite decide_True by reflexivity. reflexivity. }
  split; [exact Hnone|].
  unfold SetEventState. rewrite Hsc. cbn [negb]. rewrite Hnone.
  cbn [events set_events]. rewrite lookup_insert_eq. cbn [fst].
  match goal with |- context [updateSchedulerStats ?x ?a ?b] =>
    destruct (updateSchedulerStats_events x a b) as (-> & _) end.
  cbn [events set_events].
  destruct (isTerminal st && bool_decide (State e = EventStateInProcess));
    cbn [events set_CurrentRunningActions set_events];
    rewrite lookup_insert_eq; reflexivity.
Qed.

Lemma processNext_starts_action_iff_witness :
  is_Some (spawnedBy (processNext testConfig 5 twoLone loneA loneA)).
Proof.
  apply (processNext_starts_action_iff testConfig 5 twoLone loneA loneA).
  split; [left; reflexivity|]. split; [reflexivity|]. split; [reflexivity|].
  split; [reflexivity|]. split; [discriminate|]. left. reflexivity.
Defined.

Lemma SetEventState_restores_cancelled_event_witness :
  events (Cancel chain 1%N) !! 1%N = None
  /\ events (SetEventState (Cancel chain 1%N) chainA EventStateDone).1 !! 1%N
     = Some (set_State chainA EventStateDone).
Proof.
  exact (SetEventState_restores_cancelled_event chain chainA EventStateDone
           chain_keyed (ex_intro _ chainA eq_refl) eq_refl).
Defined.

Lemma totalQueued_append (sessions : gmap N Session)
    (queues : gmap string (list EventDataElement)) (completed : list EventDataElement)
    (sessions' : gmap N Session) (t : string) (x : EventDataElement) :
  totalQueued (mkDis sessions'
                 (<[t := pipelineQueue (mkDis sessions queues completed) t ++ [x]]> queues)
                 completed)
  = S (totalQueued (mkDis sessions queues completed)).
Proof.
  unfold totalQueued, pipelineQueue. cbn [dQueues].
  assert (Hcomm : forall (m : gmap string (list EventDataElement)) j1 j2 z1 z2 y,
            j1 <> j2 -> m !! j1 = Some z1 -> m !! j2 = Some z2 ->
            (length z1 + (length z2 + y))%nat = (length z2 + (length z1 + y))%nat)
    by (intros; lia).
  destruct (queues !! t) as [l|] eqn:Hlk; cbn [default].
  - rewrite <- (insert_delete_eq queues t).
    rewrite (map_fold_insert_L _ _ t (l ++ [x]) (delete t queues));
      [|apply Hcomm | apply lookup_delete_eq].
    rewrite (map_fold_delete_L _ _ t l queues); [|apply Hcomm | exact Hlk].
    rewrite length_app. cbn. lia.
  - rewrite (map_fold_insert_L _ _ t ([] ++ [x]) queues);
      [|apply Hcomm | exact Hlk].
    cbn. reflexivity.
Qed.

(** One call: a work item is appended and [WorkItemsTotal] of the session
    of the event is incremented exactly when the call returns no error. *)
Lemma dispatchState_accounts (reg : Registry) (d : Dis) (oe : option DEvent) :
  totalQueued (dispatchState reg d oe)
  = ((if succeeds reg d oe then 1 else 0) + totalQueued d)%nat
  /\ dCompleted (dispatchState reg d oe) = dCompleted d
  /\ forall sid sess,
       dSessions d !! sid = Some sess ->
       exists sess',
         dSessions (dispatchState reg d oe) !! sid = Some sess'
         /\ WorkItemsCompleted (SessStats sess') = WorkItemsCompleted (SessStats sess)
         /\ WorkItemsTotal (SessStats sess')
            = if succeeds reg d oe && inSession sid oe
              then GoInt.incr (WorkItemsTotal (SessStats sess))
              else WorkItemsTotal (SessStats sess).
Proof.
  unfold dispatchState, succeeds.
  destruct oe as [e|]; cbn [DispatchEvent inSession].
  2:{ split; [reflexivity|]. split; [reflexivity|].
      intros sid sess H. exists sess. repeat split; assumption. }
  destruct (DAsset e) as [p|] eqn:Ha.
  2:{ split; [reflexivity|]. split; [reflexivity|].
      intros sid sess H. exists sess. repeat split; assumption. }
  destruct (dSessions d !! DSession e) as [se|] eqn:Hs.
  2:{ split; [reflexivity|]. split; [reflexivity|].
      intros sid sess H. exists sess. repeat split; assumption. }
  destruct (Cache.seen (SessCache se) (DbAssetOf p)) eqn:Hseen.
  { split; [reflexivity|]. split; [reflexivity|].
    intros sid sess H. exists sess. repeat split; assumption. }
  destruct (GetPipeline reg (AssetType (DbAssetOf p))) as [hs|err] eqn:Hp.
  - cbn [andb]. split; [|split; [reflexivity|]].
    + destruct d as [sessions queues completed]. cbn [dSessions dQueues dCompleted].
      rewrite (totalQueued_append (<[DSession e := _]> sessions) queues completed).
      reflexivity.
    + intros sid sess H. cbn [dSessions].
      destruct (decide (DSession e = sid)) as [<-|Hne].
      * rewrite insert_insert_eq, lookup_insert_eq. eexists. split; [reflexivity|].
        rewrite Hs in H. injection H as <-.
        rewrite bool_decide_eq_true_2 by reflexivity. split; reflexivity.
      * rewrite insert_insert_eq, lookup_insert_ne by exact Hne.
        exists sess. rewrite bool_decide_eq_false_2 by exact Hne.
        repeat split; assumption.
  - split; [reflexivity|]. split; [reflexivity|].
    intros sid sess H. cbn [dSessions andb].
    destruct (decide (DSession e = sid)) as [<-|Hne].
    + rewrite lookup_insert_eq. eexists. split; [reflexivity|].
      rewrite Hs in H. injection H as <-. split; reflexivity.
    + rewrite lookup_insert_ne by exact Hne. exists sess. repeat split; assumption.
Qed.

(** X16.  Along every sequence of calls to [DispatchEvent], the pipelines gain
    one work item per call that returns no error and none otherwise, and
    [WorkItemsTotal] of a session counts the calls for its events that
    returned no error (modulo 2^64); [WorkItemsCompleted] and the completion
    queue are not touched. *)
Theorem dispatchAll_accounts (reg : Registry) (es : list (option DEvent)) (d : Dis) :
  totalQueued (dispatchAll reg d es) = (totalQueued d + dispatched reg d es)%nat
  /\ dCompleted (dispatchAll reg d es) = dCompleted d
  /\ forall sid sess,
       dSessions d !! sid = Some sess ->
       exists sess',
         dSessions (dispatchAll reg d es) !! sid = Some sess'
         /\ WorkItemsCompleted (SessStats sess') = WorkItemsCompleted (SessStats sess)
         /\ GoInt.eqm (WorkItemsTotal (SessStats sess'))
              (WorkItemsTotal (SessStats sess)
               + Z.of_nat (dispatchedIn reg sid d es)).
Proof.
  revert d. induction es as [|oe es IH]; intros d.
  - cbn. split; [lia|]. split; [reflexivity|].
    intros sid sess H. exists sess. split; [exact H|]. split; [reflexivity|].
    rewrite Z.add_0_r. reflexivity.
  - cbn [dispatchAll fold_left dispatched dispatchedIn].
    destruct (dispatchState_accounts reg d oe) as (Hq & Hc & Hs).
    destruct (IH (dispatchState reg d oe)) as (Hq' & Hc' & Hs').
    unfold dispatchAll in *. rewrite Hq', Hq, Hc', Hc.
    split; [lia|]. split; [reflexivity|].
    intros sid sess H.
    destruct (Hs sid sess H) as (sess1 & H1 & Hw1 & Ht1).
    destruct (Hs' sid sess1 H1) as (sess2 & H2 & Hw2 & Ht2).
    exists sess2. split; [exact H2|]. split; [congruence|].
    eapply GoIntFacts.eqm_trans; [exact Ht2|]. rewrite Ht1.
    rewrite Nat2Z.inj_add, Z.add_assoc.
    apply GoIntFacts.eqm_add; [|reflexivity].
    destruct (succeeds reg d oe && inSession sid oe);
      [apply GoIntFacts.incr_eqm | rewrite Z.add_0_r; reflexivity].
Qed.

Lemma dispatchAll_accounts_witness :
  totalQueued (dispatchAll (specRegistry ∅) dis0 [Some ev0; Some ev0; None]) = 1%nat
  /\ exists sess',
       dSessions (dispatchAll (specRegistry ∅) dis0 [Some ev0; Some ev0; None]) !! 1%N
       = Some sess'
       /\ GoInt.eqm (WorkItemsTotal (SessStats sess')) 1.
Proof.
  destruct (dispatchAll_accounts (specRegistry ∅) [Some ev0; Some ev0; None] dis0)
    as (Hq & _ & Hs).
  split; [rewrite Hq; reflexivity|].
  destruct (Hs 1%N emptySession eq_refl) as (sess' & H1 & _ & H2).
  exists sess'. split; [exact H1 | exact H2].
Defined.

(** A call does not touch the sessions other than that of its event. *)
Lemma dispatchState_other_session (reg : Registry) (d : Dis) (e : DEvent) (sid : N) :
  sid <> DSession e ->
  dSessions (dispatchState reg d (Some e)) !! sid = dSessions d !! sid.
Proof.
  intros Hne. unfold dispatchState. cbn [DispatchEvent].
  destruct (DAsset e) as [p|]; [|reflexivity].
  destruct (dSessions d !! DSession e) as [se|]; [|reflexivity].
  destruct (Cache.seen (SessCache se) (DbAssetOf p)); [reflexivity|].
  destruct (GetPipeline reg (AssetType (DbAssetOf p))); cbn [dSessions].
  - rewrite insert_insert_eq. apply lookup_insert_ne. congruence.
  - apply lookup_insert_ne. congruence.
Qed.

Lemma dispatchAll_other_sessions (reg : Registry) (es : list DEvent) (d : Dis) (sid : N) :
  (forall e, e ∈ es -> DSession e <> sid) ->
  dSessions (dispatchAll reg d (Some <$> es)) !! sid = dSessions d !! sid.
Proof.
  revert d. induction es as [|e es IH]; intros d H; [reflexivity|].
  cbn [fmap list_fmap dispatchAll fold_left].
  change (dSessions (dispatchAll reg (dispatchState reg d (Some e)) (Some <$> es)) !! sid
          = dSessions d !! sid).
  rewrite IH by (intros e' Hin; apply H; right; exact Hin).
  apply dispatchState_other_session. intros Heq. apply (H e); [left | congruence].
Qed.

(** X17.  The deduplication is per session: whatever has been dispatched in the
    other sessions, the same asset included, an asset that the cache of
    its own session does not hold yet is dispatched. *)
Theorem dispatch_dedup_is_per_session (reg : Registry) (d : Dis)
    (es : list DEvent) (e : DEvent) (p : DbAsset) (sess : Session)
    (hs : list string) :
  DAsset e = Some p ->
  dSessions d !! DSession e = Some sess ->
  Cache.seen (SessCache sess) (DbAssetOf p) = false ->
  GetPipeline reg (AssetType (DbAssetOf p)) = inl hs ->
  (forall e', e' ∈ es -> DSession e' <> DSession e) ->
  exists d',
    DispatchEvent reg (dispatchAll reg d (Some <$> es)) (Some e) = DispatchOk d'
    /\ sessionSeen d' (DSession e) (DbAssetOf p) = true.
Proof.
  intros Ha Hs Hseen Hp Hother.
  pose proof (dispatchAll_other_sessions reg es d (DSession e) Hother) as Hsame.
  rewrite Hs in Hsame.
  exists (afterEnqueue (dispatchAll reg d (Some <$> es)) e p sess). split.
  - rewrite (DispatchEvent_fresh reg _ e p sess Ha Hsame Hseen), Hp. reflexivity.
  - apply afterEnqueue_seen.
Qed.

Lemma dispatch_dedup_is_per_session_witness :
  exists d',
    DispatchEvent (specRegistry ∅) (dispatchAll (specRegistry ∅) dis2 [Some ev0])
      (Some ev0') = DispatchOk d'.
Proof.
  assert (Hp : GetPipeline (specRegistry ∅) (AssetType (DbAssetOf storedExample))
               = inl []).
  { cbn. rewrite lookup_empty. reflexivity. }
  destruct (dispatch_dedup_is_per_session (specRegistry ∅) dis2 [ev0] ev0'
              storedExample emptySession [] eq_refl eq_refl eq_refl Hp)
    as (d' & H & _).
  - intros e' Hin. apply list_elem_of_singleton in Hin. subst e'. discriminate.
  - exists d'. exact H.
Defined.

Lemma completedCallback_fold (l : list EventDataElement) (d : Dis) :
  dQueues (fold_left completedCallback l d) = dQueues d
  /\ forall sid sess,
       dSessions d !! sid = Some sess ->
       exists sess',
         dSessions (fold_left completedCallback l d) !! sid = Some sess'
         /\ SessCache sess' = SessCache sess
         /\ WorkItemsTotal (SessStats sess') = WorkItemsTotal (SessStats sess)
         /\ GoInt.eqm (WorkItemsCompleted (SessStats sess'))
              (WorkItemsCompleted (SessStats sess)
               + Z.of_nat (length (filter (fun ede => DSession (EdeEvent ede) = sid) l))).
Proof.
  revert d. induction l as [|ede l IH]; intros d.
  - split; [reflexivity|]. intros sid sess H. exists sess.
    cbn. rewrite Z.add_0_r. repeat split; try assumption; reflexivity.
  - cbn [fold_left]. destruct (IH (completedCallback d ede)) as [Hq Hs].
    assert (Hq1 : dQueues (completedCallback d ede) = dQueues d).
    { unfold completedCallback. destruct (dSessions d !! DSession (EdeEvent ede)); reflexivity. }
    split; [congruence|].
    intros sid sess H. rewrite filter_cons.
    assert (H1 : exists sess1,
               dSessions (completedCallback d ede) !! sid = Some sess1
               /\ SessCache sess1 = SessCache sess
               /\ WorkItemsTotal (SessStats sess1) = WorkItemsTotal (SessStats sess)
               /\ WorkItemsCompleted (SessStats sess1)
                  = if decide (DSession (EdeEvent ede) = sid)
                    then GoInt.incr (WorkItemsCompleted (SessStats sess))
                    else WorkItemsCompleted (SessStats sess)).
    { unfold completedCallback.
      destruct (decide (DSession (EdeEvent ede) = sid)) as [Heq|Hne].
      - rewrite Heq, H. cbn [dSessions]. rewrite lookup_insert_eq.
        eexists. repeat split; reflexivity.
      - destruct (dSessions d !! DSession (EdeEvent ede)); cbn [dSessions];
          [rewrite lookup_insert_ne by exact Hne|];
          exists sess; repeat split; assumption. }
    destruct H1 as (sess1 & Hl1 & Hc1 & Ht1 & Hw1).
    destruct (Hs sid sess1 Hl1) as (sess' & Hl' & Hc' & Ht' & Hw').
    exists sess'. split; [exact Hl'|]. split; [congruence|]. split; [congruence|].
    eapply GoIntFacts.eqm_trans; [exact Hw'|]. rewrite Hw1.
    destruct (decide (DSession (EdeEvent ede) = sid)); cbn [length].
    + rewrite Nat2Z.inj_succ. unfold Z.succ.
      replace (WorkItemsCompleted (SessStats sess)
               + (Z.of_nat (length (filter (fun ede0 => DSession (EdeEvent ede0) = sid) l)) + 1))
        with (WorkItemsCompleted (SessStats sess) + 1
              + Z.of_nat (length (filter (fun ede0 => DSession (EdeEvent ede0) = sid) l)))
        by lia.
      apply GoIntFacts.eqm_add; [apply GoIntFacts.incr_eqm | reflexivity].
    + reflexivity.
Qed.

(** X18.  Draining the completion queue empties it and adds to
    [WorkItemsCompleted] of every session the number of its elements in the
    queue (modulo 2^64); the caches, [WorkItemsTotal] and the pipelines are
    left alone. *)
Theorem collectEvents_counts_completed (d : Dis) :
  dCompleted (collectEvents d) = []
  /\ dQueues (collectEvents d) = dQueues d
  /\ forall sid sess,
       dSessions d !! sid = Some sess ->
       exists sess',
         dSessions (collectEvents d) !! sid = Some sess'
         /\ SessCache sess' = SessCache sess
         /\ WorkItemsTotal (SessStats sess') = WorkItemsTotal (SessStats sess)
         /\ GoInt.eqm (WorkItemsCompleted (SessStats sess'))
              (WorkItemsCompleted (SessStats sess)
               + Z.of_nat (length (filter (fun ede => DSession (EdeEvent ede) = sid)
                                     (dCompleted d)))).
Proof.
  unfold collectEvents. cbn [dCompleted dQueues dSessions].
  destruct (completedCallback_fold (dCompleted d) d) as [Hq Hs].
  split; [reflexivity|]. split; [exact Hq | exact Hs].
Qed.

Lemma collectEvents_counts_completed_witness :
  exists sess',
    dSessions (collectEvents (mkDis {[ 1%N := emptySession ]} ∅
                                [NewEventDataElement ev0; NewEventDataElement ev0'])) !! 1%N
    = Some sess'
    /\ GoInt.eqm (WorkItemsCompleted (SessStats sess')) 1.
Proof.
  destruct (collectEvents_counts_completed
              (mkDis {[ 1%N := emptySession ]} ∅
                 [NewEventDataElement ev0; NewEventDataElement ev0']))
    as (_ & _ & H).
  destruct (H 1%N emptySession eq_refl) as (sess' & H1 & _ & _ & H2).
  exists sess'. split; [exact H1 | exact H2].
Defined.

Lemma normalize_map (env : QueryEnv) (records : list ExtractedAnswer) :
  normalize env records
  = map (fun rr => mkExtractedAnswer (ToLower env (EaName rr)) (EaType rr)
                     (ToLower env (EaData rr))) records.
Proof.
  unfold normalize.
  assert (H : forall acc,
            fold_left
              (fun results rr =>
                 results ++ [mkExtractedAnswer (ToLower env (EaName rr)) (EaType rr)
                               (ToLower env (EaData rr))]) records acc
            = acc ++ map (fun rr => mkExtractedAnswer (ToLower env (EaName rr)) (EaType rr)
                                      (ToLower env (EaData rr))) records).
  { induction records as [|rr records IH]; intros acc; cbn.
    - rewrite app_nil_r. reflexivity.
    - rewrite IH, <- app_assoc. reflexivity. }
  apply (H []).
Qed.

Lemma dnsQueryLoop_resp (r : Resolvers) (left num : nat) (resp : Msg) :
  qResp (dnsQueryLoop r left num) = Some resp ->
  qErr (dnsQueryLoop r left num) = None
  /\ exists k, (num <= k < num + left)%nat /\ r k = Some resp
               /\ MsgRcode resp = RcodeSuccess /\ Answer resp <> []
               /\ forall j, (num <= j < k)%nat -> skipped (r j).
Proof.
  revert num. induction left as [|left IH]; intros num; cbn [dnsQueryLoop].
  - discriminate.
  - assert (Hnext : qResp (dnsQueryLoop r left (S num)) = Some resp ->
                    skipped (r num) ->
                    qErr (dnsQueryLoop r left (S num)) = None
                    /\ exists k, (num <= k < num + S left)%nat /\ r k = Some resp
                         /\ MsgRcode resp = RcodeSuccess /\ Answer resp <> []
                         /\ forall j, (num <= j < k)%nat -> skipped (r j)).
    { intros H Hsk. destruct (IH (S num) H) as (He & k & Hk & Hr & Hc & Ha & Hj).
      split; [exact He|]. exists k. split; [lia|]. split; [exact Hr|].
      split; [exact Hc|]. split; [exact Ha|].
      intros j Hjk. destruct (decide (j = num)) as [->|Hne]; [exact Hsk|].
      apply Hj. lia. }
    destruct (r num) as [m|] eqn:Hr.
    + destruct (MsgRcode m) eqn:Hc; cbn.
      * destruct (Answer m) eqn:Ha; cbn; [discriminate|].
        intros H. injection H as <-. split; [reflexivity|].
        exists num. split; [lia|]. split; [exact Hr|]. split; [exact Hc|].
        split; [rewrite Ha; discriminate|]. intros j Hj. lia.
      * discriminate.
      * intros H. apply Hnext; [exact H|]. cbn. rewrite Hc. exact I.
    + intros H. apply Hnext; [exact H|]. exact I.
Qed.

(** X19.  [PerformQuery] never returns records together with an error.  It
    returns records only when one of the first 50 queries, all earlier ones
    having failed or answered with another code, gave a successful response
    with answers that is not a wildcard; the records are then the answers of
    the requested type, in lower case.  When none of the 50 queries gets a
    decisive response it returns [(nil, nil)], as it does for a wildcard and
    for a response without answers of the requested type. *)
Theorem PerformQuery_records_or_error (env : QueryEnv) (name : string) (qtype : Z) :
  (forall records err,
     PerformQuery env name qtype = QueryReturn records err -> records <> [] ->
     err = None
     /\ exists k resp,
          (k < 50)%nat /\ trusted env (queryOf name qtype) k = Some resp
          /\ (forall j, (j < k)%nat -> skipped (trusted env (queryOf name qtype) j))
          /\ MsgRcode resp = RcodeSuccess /\ Answer resp <> []
          /\ wildcardDetected env resp = Some false
          /\ records
             = map (fun rr => mkExtractedAnswer (ToLower env (EaName rr)) (EaType rr)
                                (ToLower env (EaData rr)))
                 (AnswersByType env (ExtractAnswers env resp) qtype))
  /\ ((forall j, (j < 50)%nat -> skipped (trusted env (queryOf name qtype) j)) ->
      PerformQuery env name qtype = QueryReturn [] None).
Proof.
  unfold PerformQuery. fold (queryOf name qtype).
  set (r := trusted env (queryOf name qtype)).
  unfold dnsQuery, performQueryAttempts.
  change (Z.to_nat 50) with 50%nat.
  split.
  - intros records err.
    destruct (qErr (dnsQueryLoop r 50 0)) eqn:He; [intros H; injection H as <- _; congruence|].
    destruct (qResp (dnsQueryLoop r 50 0)) as [resp|] eqn:Hr;
      [|intros H; injection H as <- _; congruence].
    destruct (dnsQueryLoop_resp r 50 0 resp Hr) as (_ & k & Hk & Hrk & Hc & Ha & Hsk).
    destruct (wildcardDetected env resp) as [[|]|] eqn:Hw;
      [intros H; injection H as <- _; congruence | | discriminate].
    destruct (ExtractAnswers env resp) as [|a ans] eqn:Hx;
      [intros H; injection H as <- _; congruence|].
    destruct (AnswersByType env (a :: ans) qtype) as [|b rr] eqn:Hy;
      [intros H; injection H as <- _; congruence|].
    intros H _. injection H as <- <-. split; [reflexivity|].
    exists k, resp. split; [lia|]. split; [exact Hrk|].
    split; [intros j Hj; apply Hsk; lia|]. split; [exact Hc|]. split; [exact Ha|].
    split; [exact Hw|]. rewrite ?Hx, ?Hy. apply normalize_map.
  - intros Hsk.
    pose proof (dnsQueryLoop_skip r 50 0 0) as H.
    rewrite Nat.add_0_r in H. rewrite H by (intros j Hj; apply Hsk; exact Hj).
    reflexivity.
Qed.

Lemma PerformQuery_records_or_error_witness :
  PerformQuery exampleEnv "WWW.Example.COM" 1
  = QueryReturn [mkExtractedAnswer "www.example.com" 1 "93.184.216.34"] None
  /\ exists k, (k < 50)%nat /\ is_Some (flakyResolvers k).
Proof.
  split; [vm_compute; reflexivity|].
  destruct (PerformQuery_records_or_error exampleEnv "WWW.Example.COM" 1) as [H _].
  destruct (H [mkExtractedAnswer "www.example.com" 1 "93.184.216.34"] None)
    as (_ & k & resp & Hk & Hr & _).
  - vm_compute. reflexivity.
  - discriminate.
  - exists k. split; [exact Hk|]. exists resp. exact Hr.
Defined.

Section Alterations.

Context {rune : Type}.

Lemma substitutionsInner_spec (i : nat) (ldh : list rune) (rstr : list rune)
    (results : list (list rune)) :
  substitutionsInner i ldh rstr results
  = (match last ldh with Some z => <[i := z]> rstr | None => rstr end,
     results ++ map (fun c => <[i := c]> rstr) ldh).
Proof.
  revert rstr results. induction ldh as [|c ldh IH]; intros rstr results.
  - cbn. rewrite app_nil_r. reflexivity.
  - cbn [substitutionsInner]. rewrite IH. cbn [map]. rewrite <- app_assoc. cbn [app].
    f_equal.
    + destruct ldh as [|c' ldh]; [reflexivity|].
      change (last (c :: c' :: ldh)) with (last (c' :: ldh)).
      destruct (last (c' :: ldh)) as [z|] eqn:Hl.
      * apply list_insert_insert_eq.
      * apply last_None in Hl. discriminate.
    + f_equal. f_equal. apply map_ext. intros a. apply list_insert_insert_eq.
Qed.

Lemma insert_overwritten (z : rune) (s : list rune) (i : nat) (c : rune) :
  (i < length s)%nat ->
  <[i := c]> (replicate i z ++ drop i s) = overwritten z s i c.
Proof.
  intros Hi. rewrite insert_app_r_alt by (rewrite length_replicate; lia).
  rewrite length_replicate, Nat.sub_diag.
  destruct (lookup_lt_is_Some_2 s i Hi) as [x Hx].
  rewrite (drop_S s x i Hx). reflexivity.
Qed.

Lemma substitutionsLoop_spec (z : rune) (chars s : list rune) :
  last chars = Some z ->
  forall k i results,
    (i + k)%nat = length s ->
    substitutionsLoop k i chars (replicate i z ++ drop i s) results
    = results ++ flat_map (fun i' => map (overwritten z s i') chars) (seq i k).
Proof.
  intros Hl. induction k as [|k IH]; intros i results Hik.
  - cbn. rewrite app_nil_r. reflexivity.
  - cbn [substitutionsLoop seq flat_map].
    rewrite substitutionsInner_spec, Hl.
    rewrite insert_overwritten by lia.
    replace (overwritten z s i z) with (replicate (S i) z ++ drop (S i) s)
      by (unfold overwritten; rewrite replicate_S_end, <- app_assoc; reflexivity).
    rewrite IH by lia. rewrite <- app_assoc. f_equal. f_equal.
    apply map_ext_in. intros c _. apply insert_overwritten. lia.
Qed.

End Alterations.

(** X20.  [substitutions] writes into the string it reads.  When it reaches
    position [i], the runes before [i] have all been overwritten with the
    last rune of [chars]; so the strings it returns for position [i] are not
    the string with one rune substituted, but the string with its first [i]
    runes replaced by the last rune of [chars], followed by the substituted
    rune and the rest of the string.  Only position 0 gives substitutions of
    a single rune. *)
Theorem substitutions_overwrite_prefix {rune : Type} (set : list (list rune))
    (chars : list rune) (z : rune) :
  last chars = Some z ->
  substitutions set chars
  = flat_map
      (fun s => flat_map (fun i => map (overwritten z s i) chars) (seq 0%nat (length s)))
      set.
Proof.
  intros Hl. unfold substitutions.
  assert (H : forall results,
            fold_left
              (fun results str => substitutionsLoop (length str) 0%nat chars str results)
              set results
            = results
              ++ flat_map
                   (fun s => flat_map (fun i => map (overwritten z s i) chars)
                               (seq 0%nat (length s)))
                   set).
  { induction set as [|s set IH]; intros results.
    - cbn. rewrite app_nil_r. reflexivity.
    - cbn [fold_left flat_map].
      pose proof (substitutionsLoop_spec z chars s Hl (length s) 0%nat results eq_refl)
        as Hs.
      cbn [replicate app] in Hs. rewrite drop_0 in Hs.
      rewrite Hs, IH, <- app_assoc. reflexivity. }
  apply (H []).
Qed.

Lemma substitutions_overwrite_prefix_witness :
  substitutions [["a"; "b"; "c"]%char] ["x"; "-"]%char
  = [["x"; "b"; "c"]; ["-"; "b"; "c"];
     ["-"; "x"; "c"]; ["-"; "-"; "c"];
     ["-"; "-"; "x"]; ["-"; "-"; "-"]]%char.
Proof.
  apply (substitutions_overwrite_prefix [["a"; "b"; "c"]%char] ["x"; "-"]%char "-"%char).
  reflexivity.
Defined.

Section Deletions.

Context {rune : Type}.

Lemma shifted_start (s : list rune) : shifted s 0 s.
Proof.
  split; [reflexivity|]. intros j Hj. unfold shiftedIndex. f_equal. lia.
Qed.

Lemma shifted_step (s : list rune) (k : nat) (rstr : list rune) :
  shifted s k rstr -> (k < length s)%nat -> shifted s (S k) (deleteInPlace k rstr).
Proof.
  intros [Hlen Hl] Hk. unfold deleteInPlace. split.
  - rewrite !length_app, length_take, !length_drop. lia.
  - intros j Hj. unfold shiftedIndex in *.
    destruct (decide (j < k)%nat) as [Hjk|Hjk].
    + rewrite lookup_app_l by (rewrite length_take; lia).
      rewrite lookup_take, decide_True by lia.
      rewrite Hl by lia. f_equal. lia.
    + rewrite lookup_app_r by (rewrite length_take; lia).
      rewrite length_take, Nat.min_l by lia.
      destruct (decide (j < length s - 1)%nat) as [Hjn|Hjn].
      * rewrite lookup_app_l by (rewrite length_drop; lia).
        rewrite lookup_drop. replace (S k + (j - k))%nat with (S j) by lia.
        rewrite Hl by lia. f_equal. lia.
      * rewrite lookup_app_r by (rewrite length_drop; lia).
        rewrite length_drop, lookup_drop.
        replace (length rstr - 1 + (j - k - (length rstr - S k)))%nat
          with (length s - 1)%nat by lia.
        rewrite Hl by lia. f_equal. lia.
Qed.

Lemma deletionsLoop_spec (s : list rune) :
  (2 <= length s)%nat ->
  forall k i rstr results,
    (i + k)%nat = length s -> shifted s i rstr ->
    length results = i ->
    (forall i' del, results !! i' = Some del -> deletionAt s i' del) ->
    length (deletionsLoop k i rstr results) = length s
    /\ forall i' del, deletionsLoop k i rstr results !! i' = Some del ->
                      deletionAt s i' del.
Proof.
  intros Hn. induction k as [|k IH]; intros i rstr results Hik Hsh Hlen Hres.
  - cbn. split; [lia | exact Hres].
  - cbn [deletionsLoop].
    pose proof (shifted_step s i rstr Hsh ltac:(lia)) as Hsh'.
    destruct Hsh' as [Hl' Hj'].
    set (arr := deleteInPlace i rstr) in *.
    assert (Hdel : deletionAt s i (take (length arr - 1) arr)).
    { split.
      - rewrite length_take. lia.
      - intros j Hj. rewrite lookup_take, decide_True by lia. apply Hj'. lia. }
    destruct (take (length arr - 1) arr) as [|c del] eqn:Htake.
    { destruct Hdel as [Hd _]. cbn in Hd. lia. }
    apply IH; [lia | split; assumption | rewrite length_app; cbn; lia |].
    intros i' d Hlk.
    destruct (decide (i' < length results)%nat) as [Hlt|Hge].
    + rewrite lookup_app_l in Hlk by exact Hlt. apply Hres. exact Hlk.
    + rewrite lookup_app_r in Hlk by lia.
      destruct (i' - length results)%nat as [|m] eqn:Hm; [|destruct m; discriminate].
      cbn in Hlk. injection Hlk as <-.
      replace i' with i by lia. exact Hdel.
Qed.

End Deletions.

(** X21.  [deletions] moves runes inside the string it reads.  For a string [s]
    of [n >= 2] runes it returns [n] strings of [n - 1] runes; the one for
    position [i] has at position [j] the rune of [s] at
    [min (n - 1) (j + min (j + 1) (i + 1))].  The first string is [s]
    without its first rune, but the later ones are not [s] without one rune:
    each begins with the second rune of [s] and repeats the last one. *)
Theorem deletions_shift_in_place {rune : Type} (s : list rune) :
  (2 <= length s)%nat ->
  length (deletions [s]) = length s
  /\ (forall i del,
        deletions [s] !! i = Some del ->
        length del = (length s - 1)%nat
        /\ del !! 0%nat = s !! 1%nat
        /\ forall j, (j < length s - 1)%nat ->
                     del !! j = s !! shiftedIndex (length s) (S i) j)
  /\ deletions [s] !! 0%nat = Some (drop 1 s).
Proof.
  intros Hn. unfold deletions. cbn [fold_left].
  destruct (deletionsLoop_spec s Hn (length s) 0 s [] eq_refl (shifted_start s) eq_refl)
    as [Hlen Hall].
  { intros i' del H. rewrite lookup_nil in H. discriminate. }
  split; [exact Hlen|]. split.
  - intros i del Hlk. destruct (Hall i del Hlk) as [Hl Hj].
    split; [exact Hl|]. split; [|exact Hj].
    rewrite Hj by lia. unfold shiftedIndex. f_equal. lia.
  - destruct (lookup_lt_is_Some_2 (deletionsLoop (length s) 0 s []) 0 ltac:(lia))
      as [del Hlk].
    rewrite Hlk. f_equal. destruct (Hall 0%nat del Hlk) as [Hl Hj].
    apply list_eq. intros j. rewrite lookup_drop.
    destruct (decide (j < length s - 1)%nat) as [Hlt|Hge].
    + rewrite Hj by exact Hlt. unfold shiftedIndex. f_equal. lia.
    + rewrite (proj2 (lookup_ge_None del j)) by lia.
      symmetry. apply lookup_ge_None. lia.
Qed.

Lemma deletions_shift_in_place_witness :
  deletions [["a"; "b"; "c"; "d"]%char]
  = [["b"; "c"; "d"]; ["b"; "d"; "d"]; ["b"; "d"; "d"]; ["b"; "d"; "d"]]%char
  /\ length (deletions [["a"; "b"; "c"; "d"]%char]) = 4%nat.
Proof.
  split; [reflexivity|].
  apply (deletions_shift_in_place ["a"; "b"; "c"; "d"]%char). cbn. lia.
Defined.

Lemma cutAtDot_hasDot (s : string) : is_Some (cutAtDot s) <-> hasDot s = true.
Proof.
  induction s as [|c s IH]; cbn.
  - split; [intros [? H]; discriminate | discriminate].
  - destruct (Ascii.eqb c "."); cbn.
    + split; [reflexivity | intros _; eexists; reflexivity].
    + rewrite <- IH. destruct (cutAtDot s) as [[a b]|].
      * split; intros _; eexists; reflexivity.
      * split; intros [? H]; discriminate.
Qed.

Lemma splitN2_cases (s : string) :
  (hasDot s = true /\ exists a b, splitN2 s = [a; b])
  \/ (hasDot s = false /\ splitN2 s = [s]).
Proof.
  unfold splitN2. destruct (cutAtDot s) as [[a b]|] eqn:E.
  - left. split; [apply cutAtDot_hasDot; eexists; exact E | exists a, b; reflexivity].
  - right. split; [|reflexivity].
    destruct (hasDot s) eqn:H; [|reflexivity].
    apply cutAtDot_hasDot in H. rewrite E in H. destruct H; discriminate.
Qed.

Lemma insertSuffixes_two (p0 p1 : string) (rest : list string) (suffixes inserted : list string) :
  is_Some (insertSuffixes (p0 :: p1 :: rest) suffixes inserted).
Proof.
  revert inserted. induction suffixes as [|w ws IH]; intros inserted; cbn.
  - eexists; reflexivity.
  - apply IH.
Qed.

Lemma insertSuffixes_one (p0 : string) (suffixes inserted : list string) :
  insertSuffixes [p0] suffixes inserted = None <-> suffixes <> [].
Proof.
  destruct suffixes as [|w ws]; cbn.
  - split; [discriminate | congruence].
  - split; [discriminate | reflexivity].
Qed.

(** X22.  [flipWords], [appendNumbers] and [addSuffixWords] take the second
    element of [strings.SplitN(name, ".", 2)] without testing that there is
    one.  On a name without a dot [flipWords] always panics, [appendNumbers]
    panics unless the name consists of hyphens only, and [addSuffixWords]
    panics unless that or the word list is empty; on a name with a dot none
    of them panics.  [addPrefixWords] does not split the name. *)
Theorem alterations_panic_without_dot (slice : SetSlice) (name : string)
    (words : list string) :
  (flipWords slice name words = None <-> hasDot name = false)
  /\ (appendNumbers slice name = None
      <-> hasDot name = false /\ trimHyphen name <> EmptyString)
  /\ (addSuffixWords slice name words = None
      <-> hasDot name = false /\ trimHyphen name <> EmptyString /\ words <> []).
Proof.
  destruct (splitN2_cases name) as [(Hd & a & b & Hs) | (Hd & Hs)].
  - split; [|split].
    + unfold flipWords. rewrite Hs, Hd.
      destruct (length (splitHyphen a) <? 2)%nat; split; discriminate.
    + unfold appendNumbers. rewrite Hs, Hd. cbn [trimFirst].
      destruct (insertSuffixes_two (trimHyphen a) b [] digits []) as [l Hl].
      destruct (trimHyphen a); [split; [discriminate | intros [H _]; discriminate]|].
      rewrite Hl. split; [discriminate | intros [H _]; discriminate].
    + unfold addSuffixWords. rewrite Hs, Hd. cbn [trimFirst].
      destruct (insertSuffixes_two (trimHyphen a) b [] words []) as [l Hl].
      destruct (trimHyphen a); [split; [discriminate | intros [H _]; discriminate]|].
      rewrite Hl. split; [discriminate | intros [H _]; discriminate].
  - split; [|split].
    + unfold flipWords. rewrite Hs, Hd. split; reflexivity.
    + unfold appendNumbers. rewrite Hs, Hd. cbn [trimFirst].
      destruct (trimHyphen name) as [|c t] eqn:Ht.
      * split; [discriminate | intros [_ H]; congruence].
      * split; [intros _; split; [reflexivity | discriminate] | intros _; reflexivity].
    + unfold addSuffixWords. rewrite Hs, Hd. cbn [trimFirst].
      destruct (trimHyphen name) as [|c t] eqn:Ht.
      * split; [discriminate | intros (_ & H & _); congruence].
      * destruct words as [|w ws]; cbn.
        -- split; [discriminate | intros (_ & _ & H); congruence].
        -- split; [intros _; repeat split; discriminate | intros _; reflexivity].
Qed.

Lemma alterations_panic_without_dot_witness :
  flipWords (fun l => l) "dev-api" ["test"]%string = None
  /\ appendNumbers (fun l => l) "localhost" = None
  /\ appendNumbers (fun l => l) "www.example.com"
     = Some ["www0.example.com"; "www-0.example.com"; "www1.example.com";
             "www-1.example.com"; "www2.example.com"; "www-2.example.com";
             "www3.example.com"; "www-3.example.com"; "www4.example.com";
             "www-4.example.com"; "www5.example.com"; "www-5.example.com";
             "www6.example.com"; "www-6.example.com"; "www7.example.com";
             "www-7.example.com"; "www8.example.com"; "www-8.example.com";
             "www9.example.com"; "www-9.example.com"]%string.
Proof.
  destruct (alterations_panic_without_dot (fun l => l) "dev-api" ["test"]%string)
    as (H1 & _ & _).
  destruct (alterations_panic_without_dot (fun l => l) "localhost" []) as (_ & H2 & _).
  split; [apply H1; reflexivity|].
  split; [apply H2; split; [reflexivity | discriminate]|]. reflexivity.
Defined.

Lemma loadLoop_spec (funcs : list (option Plugin)) (calls : list PluginCall) :
  loadLoop funcs [] calls
  = (firstError funcs, calls ++ map (fun p => CallStart (PluginName p)) (attempted funcs)).
Proof.
  revert calls. induction funcs as [|[p|] funcs IH]; intros calls.
  - cbn. rewrite app_nil_r. reflexivity.
  - cbn [loadLoop attempted]. unfold firstError. cbn [attempted].
    destruct (StartError p) as [err|] eqn:He.
    + cbn. rewrite He. reflexivity.
    + rewrite IH. cbn [map]. rewrite <- app_assoc. cbn [app]. f_equal.
      unfold firstError.
      destruct (attempted funcs) as [|p' l] eqn:Ha; [cbn; rewrite He; reflexivity|].
      reflexivity.
  - cbn [loadLoop attempted]. rewrite IH. reflexivity.
Qed.

(** X23.  [LoadAndStartPlugins] starts the plugins in order and stops at the
    first whose [Start] fails, returning its error.  It never calls [Stop]:
    the plugins that were started before the failing one are left
    running. *)
Theorem LoadAndStartPlugins_never_stops (funcs : list (option Plugin)) :
  LoadAndStartPlugins funcs
  = (firstError funcs, map (fun p => CallStart (PluginName p)) (attempted funcs))
  /\ forall name, CallStop name ∉ (LoadAndStartPlugins funcs).2.
Proof.
  unfold LoadAndStartPlugins. rewrite loadLoop_spec. cbn [app snd].
  split; [reflexivity|].
  intros name Hin. apply list_elem_of_fmap in Hin as (p & Heq & _). discriminate.
Qed.

(** X24.  Along every sequence of calls on a new scheduler,
    [TotalEventsReceived] is the number of events that [Schedule] accepted
    and the six state counters sum to the number of events that [CancelAll]
    and [Shutdown] found in the map (modulo 2^64): a transition moves one
    unit between two state counters, and the first state of an event is
    recorded nowhere.  The two sides agree exactly when those two numbers
    do. *)
Theorem counters_count_accepted_and_swept (m : gmap N Session) (ops : list Op) :
  GoInt.eqm (TotalEventsReceived (stats (runOps ops (NewScheduler m))))
    (accepted ops (NewScheduler m))
  /\ GoInt.eqm (stateCounters (stats (runOps ops (NewScheduler m))))
       (swept ops (NewScheduler m))
  /\ (GoInt.eqm (TotalEventsReceived (stats (runOps ops (NewScheduler m))))
        (stateCounters (stats (runOps ops (NewScheduler m))))
      <-> GoInt.eqm (accepted ops (NewScheduler m)) (swept ops (NewScheduler m))).
Proof.
  destruct (runOps_accounts ops (NewScheduler m)) as [H1 H2].
  change (TotalEventsReceived (stats (NewScheduler m)) + accepted ops (NewScheduler m))
    with (accepted ops (NewScheduler m)) in H1.
  change (stateCounters (stats (NewScheduler m)) + swept ops (NewScheduler m))
    with (swept ops (NewScheduler m)) in H2.
  split; [exact H1|]. split; [exact H2|]. split; intros H.
  - eapply GoIntFacts.eqm_trans; [apply GoIntFacts.eqm_sym; exact H1|].
    eapply GoIntFacts.eqm_trans; [exact H | exact H2].
  - eapply GoIntFacts.eqm_trans; [exact H1|].
    eapply GoIntFacts.eqm_trans; [exact H | apply GoIntFacts.eqm_sym; exact H2].
Qed.
